(** * Frugal/Thrift converter: a shallow embedding of [converter.py],
    [classes.py] and the earlier [decode.py], with the properties of its
    frame locator, envelope codec and typed-value codec.

    Layout: the Python run-time model (bytes, [struct] packing, UTF-8, values,
    exceptions), the part of Apache Thrift's Python library the program calls
    ([TMemoryBuffer], [TBinaryProtocol], [TProtocolBase.skip]), then the
    program itself function by function, then the theorems. *)

From Stdlib Require Import ZArith NArith List Lia Bool String Ascii.
From Stdlib Require Import Init.Byte Strings.Byte DecimalString.
Import ListNotations.

Set Implicit Arguments.
Set Warnings "-register-all".
Local Open Scope N_scope.

(* ===================================================================== *)
(** ** Python run-time model *)
(* ===================================================================== *)

(** A Python [bytes] object. *)
Definition bytes := list byte.

(** A Python [str]: its sequence of Unicode code points ([len] counts code
    points, not encoded bytes). *)
Definition pystr := list N.

(** A [str] literal of the source, all of which are ASCII. *)
Definition u (s : string) : pystr := map N_of_ascii (list_ascii_of_string s).

Definition b2n (b : byte) : N := Byte.to_N b.

(** The byte whose value is [n mod 256]. *)
Definition n2b (n : N) : byte :=
  match Byte.of_N (n mod 256) with Some b => b | None => x00 end.

Definition byte_eqb (a b : byte) : bool := Byte.eqb a b.

Fixpoint bytes_eqb (a b : bytes) : bool :=
  match a, b with
  | [], [] => true
  | x :: a', y :: b' => byte_eqb x y && bytes_eqb a' b'
  | _, _ => false
  end.

Fixpoint pystr_eqb (a b : pystr) : bool :=
  match a, b with
  | [], [] => true
  | x :: a', y :: b' => (x =? y) && pystr_eqb a' b'
  | _, _ => false
  end.

(** Python slices with a non-negative bound: [take n l] is [l[:n]] and
    [drop n l] is [l[n:]]; both clamp at the end of the sequence. *)
Fixpoint take {A} (n : N) (l : list A) : list A :=
  match l with
  | [] => []
  | x :: r => if n =? 0 then [] else x :: take (N.pred n) r
  end.

Fixpoint drop {A} (n : N) (l : list A) : list A :=
  match l with
  | [] => []
  | x :: r => if n =? 0 then l else drop (N.pred n) r
  end.

(** [l[a:b]] for [0 <= a <= b]. *)
Definition slice {A} (a b : N) (l : list A) : list A := take (b - a) (drop a l).

Definition len {A} (l : list A) : N := N.of_nat (List.length l).

(** The exceptions the program can meet.  [str(e)] is kept symbolic for the
    classes whose message text depends on the interpreter. *)
Inductive pyexc : Type :=
| EOFError
| StructError
| UnicodeDecodeError
| UnicodeEncodeError
| TypeError
| KeyError
| AttributeError
| OverflowError
| ValueError (msg : pystr)
| TProtocolException (msg : pystr)
| TTransportException (msg : pystr).

(** The outcome of running a piece of the program: a value, a raised
    exception, or the bound on the number of steps was reached. *)
Inductive result (A : Type) : Type :=
| Ok (a : A)
| Raise (e : pyexc)
| OutOfFuel.
Arguments Ok {A} a.
Arguments Raise {A} e.
Arguments OutOfFuel {A}.

Definition bind {A B} (m : result A) (k : A -> result B) : result B :=
  match m with
  | Ok a => k a
  | Raise e => Raise e
  | OutOfFuel => OutOfFuel
  end.

Declare Scope py_scope.
Delimit Scope py_scope with py.
Notation "x <- m ;; k" := (bind m (fun x => k))
  (at level 61, m at next level, right associativity) : py_scope.
Notation "' p <- m ;; k" := (bind m (fun x => let p := x in k))
  (at level 61, p pattern, m at next level, right associativity) : py_scope.
Notation "m ;;; k" := (bind m (fun _ => k))
  (at level 61, right associativity) : py_scope.
Local Open Scope py_scope.

(** *** [struct] packing, big-endian *)

(** The unsigned value of a big-endian byte string. *)
Fixpoint be_value_acc (acc : N) (bs : bytes) : N :=
  match bs with
  | [] => acc
  | b :: r => be_value_acc (acc * 256 + b2n b) r
  end.

Definition be_value (bs : bytes) : N := be_value_acc 0 bs.

(** The [k] low-order bytes of [n], most significant first. *)
Fixpoint be_bytes (k : nat) (n : N) : bytes :=
  match k with
  | O => []
  | S k' => be_bytes k' (n / 256) ++ [n2b n]
  end.

(** [struct.unpack('>I', buf)[0]]: the buffer must hold exactly 4 bytes. *)
Definition unpack_u32 (buf : bytes) : result N :=
  if len buf =? 4 then Ok (be_value buf) else Raise StructError.

(** [struct.unpack('>B', buf)[0]]. *)
Definition unpack_u8 (buf : bytes) : result N :=
  if len buf =? 1 then Ok (be_value buf) else Raise StructError.

(** [struct.pack('>I', n)]: [n] must fit 32 bits unsigned. *)
Definition pack_u32 (n : N) : result bytes :=
  if n <? 2 ^ 32 then Ok (be_bytes 4 n) else Raise StructError.

(** Two's complement: the signed reading of a [w]-bit unsigned value, and the
    [w]-bit unsigned image of a signed one. *)
Definition to_signed (w : N) (n : N) : Z :=
  if n <? 2 ^ (w - 1) then Z.of_N n else (Z.of_N n - 2 ^ Z.of_N w)%Z.

Definition of_signed (w : N) (z : Z) : N := Z.to_N (z mod 2 ^ Z.of_N w).

Definition in_signed_range (w : N) (z : Z) : bool :=
  ((- 2 ^ (Z.of_N w - 1) <=? z) && (z <? 2 ^ (Z.of_N w - 1)))%Z.

(** [struct.pack('!b' | '!h' | '!i' | '!q', z)] for [k] bytes. *)
Definition pack_signed (k : nat) (z : Z) : result bytes :=
  if in_signed_range (8 * N.of_nat k) z
  then Ok (be_bytes k (of_signed (8 * N.of_nat k) z))
  else Raise StructError.

(** *** UTF-8 *)

Definition is_cont (b : N) : bool := (128 <=? b) && (b <=? 191).

Definition is_surrogate (c : N) : bool := (55296 <=? c) && (c <=? 57343).

(** [bytes.decode('utf-8')], strict: overlong forms, surrogates and code
    points above U+10FFFF are refused. *)
Fixpoint utf8_decode (bs : bytes) : result pystr :=
  match bs with
  | [] => Ok []
  | b0 :: r0 =>
    let c0 := b2n b0 in
    if c0 <? 128 then
      s <- utf8_decode r0 ;; Ok (c0 :: s)
    else if c0 <? 192 then Raise UnicodeDecodeError
    else if c0 <? 224 then
      match r0 with
      | b1 :: r1 =>
        let c := (c0 - 192) * 64 + (b2n b1 - 128) in
        if is_cont (b2n b1) && (128 <=? c)
        then s <- utf8_decode r1 ;; Ok (c :: s)
        else Raise UnicodeDecodeError
      | _ => Raise UnicodeDecodeError
      end
    else if c0 <? 240 then
      match r0 with
      | b1 :: b2 :: r2 =>
        let c := (c0 - 224) * 4096 + (b2n b1 - 128) * 64 + (b2n b2 - 128) in
        if is_cont (b2n b1) && is_cont (b2n b2) && (2048 <=? c)
           && negb (is_surrogate c)
        then s <- utf8_decode r2 ;; Ok (c :: s)
        else Raise UnicodeDecodeError
      | _ => Raise UnicodeDecodeError
      end
    else if c0 <? 248 then
      match r0 with
      | b1 :: b2 :: b3 :: r3 =>
        let c := (c0 - 240) * 262144 + (b2n b1 - 128) * 4096
                 + (b2n b2 - 128) * 64 + (b2n b3 - 128) in
        if is_cont (b2n b1) && is_cont (b2n b2) && is_cont (b2n b3)
           && (65536 <=? c) && (c <? 1114112)
        then s <- utf8_decode r3 ;; Ok (c :: s)
        else Raise UnicodeDecodeError
      | _ => Raise UnicodeDecodeError
      end
    else Raise UnicodeDecodeError
  end.

(** The UTF-8 form of one code point; surrogates cannot be encoded. *)
Definition utf8_encode_char (c : N) : result bytes :=
  if c <? 128 then Ok [n2b c]
  else if c <? 2048 then Ok [n2b (192 + c / 64); n2b (128 + c mod 64)]
  else if c <? 65536 then
    if is_surrogate c then Raise UnicodeEncodeError
    else Ok [n2b (224 + c / 4096); n2b (128 + (c / 64) mod 64);
             n2b (128 + c mod 64)]
  else if c <? 1114112 then
    Ok [n2b (240 + c / 262144); n2b (128 + (c / 4096) mod 64);
        n2b (128 + (c / 64) mod 64); n2b (128 + c mod 64)]
  else Raise UnicodeEncodeError.

(** [str.encode('utf-8')]. *)
Fixpoint utf8_encode (s : pystr) : result bytes :=
  match s with
  | [] => Ok []
  | c :: r =>
    h <- utf8_encode_char c ;;
    t <- utf8_encode r ;;
    Ok (h ++ t)
  end.

(** *** [bytes.find] *)

Fixpoint starts_with (m d : bytes) : bool :=
  match m, d with
  | [], _ => true
  | x :: m', y :: d' => byte_eqb x y && starts_with m' d'
  | _ :: _, [] => false
  end.

(** [find_from m d i]: the first offset at which [m] occurs in [d], counted
    from [i]; [None] stands for Python's [-1]. *)
Fixpoint find_from (m d : bytes) (i : N) : option N :=
  if starts_with m d then Some i
  else match d with
       | [] => None
       | _ :: r => find_from m r (N.succ i)
       end.

Definition find (d m : bytes) : option N := find_from m d 0.

(** Byte-wise lexicographic order on [bytes], the order Python compares
    [bytes] objects with. *)
Fixpoint bytes_leb (a b : bytes) : bool :=
  match a, b with
  | [], _ => true
  | _ :: _, [] => false
  | x :: a', y :: b' =>
    if b2n x <? b2n y then true
    else if b2n y <? b2n x then false
    else bytes_leb a' b'
  end.

(* ===================================================================== *)
(** ** FrameLocator: [parse_data] (converter.py) *)
(* ===================================================================== *)

Module FrameLocator.

(** The marker list [parse_data] uses when it is given none. *)
Definition default_markers : list bytes :=
  [ [x80; x01];
    [x82; x21];
    [x80; x01; x00; x01];
    [x80; x01; x00; x02];
    [x80; x01; x00; x03];
    [x80; x01; x00; x04] ].

(** The three fields read from the first nine bytes. *)
Definition frame_size (data : bytes) : N := be_value (slice 0 4 data).
Definition version (data : bytes) : N := be_value (slice 4 5 data).
Definition header_length (data : bytes) : N := be_value (slice 5 9 data).

(** The sanity check on frame size, version and header length. *)
Definition frugal_sane (data : bytes) : bool :=
  (0 <? frame_size data) && (frame_size data <? len data)
  && (0 <=? version data) && (version data <=? 1)
  && (header_length data <? frame_size data).

(** First step: the buffer read as a Frugal frame.  [None] when the step
    does not return, so that the marker search runs. *)
Definition structural_attempt (data : bytes) : option (bytes * bytes) :=
  if 9 <? len data then
    if frugal_sane data
    then Some (take (9 + header_length data) data,
               drop (9 + header_length data) data)
    else None
  else None.

(** [for marker in markers: pos = data.find(marker); if pos != -1: append]. *)
Fixpoint search_markers (markers : list bytes) (data : bytes)
  : list (N * bytes) :=
  match markers with
  | [] => []
  | marker :: rest =>
    match find data marker with
    | Some pos => (pos, marker) :: search_markers rest data
    | None => search_markers rest data
    end
  end.

Definition is_protocol_pair (b0 b1 : byte) : bool :=
  (byte_eqb b0 x80 && byte_eqb b1 x01) || (byte_eqb b0 x82 && byte_eqb b1 x21).

(** [for i in range(len(data) - 2)]: the window at [i] is examined only when
    at least three bytes remain from [i]. *)
Fixpoint byte_scan (data : bytes) (i : N) : list (N * bytes) :=
  match data with
  | b0 :: ((b1 :: _ :: _) as r) =>
    if is_protocol_pair b0 b1
    then (i, [b0; b1]) :: byte_scan r (N.succ i)
    else byte_scan r (N.succ i)
  | _ => []
  end.

(** The order of [(pos, marker)] tuples: by position, then by the marker's
    bytes. *)
Definition hit_leb (a b : N * bytes) : bool :=
  if fst a <? fst b then true
  else if fst b <? fst a then false
  else bytes_leb (snd a) (snd b).

(** [list.sort()] on the hits, as a stable insertion sort. *)
Fixpoint insert_hit (h : N * bytes) (l : list (N * bytes)) : list (N * bytes) :=
  match l with
  | [] => [h]
  | x :: r => if hit_leb x h then x :: insert_hit h r else h :: l
  end.

Fixpoint sort_hits (l : list (N * bytes)) : list (N * bytes) :=
  match l with
  | [] => []
  | h :: r => insert_hit h (sort_hits r)
  end.

Definition no_marker_error : pyexc :=
  ValueError (u "No Thrift/Frugal marker found in the message").

(** Steps two to four up to the choice of [marker_positions[0]]. *)
Definition select_marker (markers : list bytes) (data : bytes)
  : result (N * bytes) :=
  let marker_positions := search_markers markers data in
  let marker_positions :=
    match marker_positions with
    | [] => byte_scan data 0
    | _ => marker_positions
    end in
  match sort_hits marker_positions with
  | [] => Raise no_marker_error
  | first :: _ => Ok first
  end.

(** [parse_data] on the decoded bytes of the file. *)
Definition parse_data (markers : list bytes) (data : bytes)
  : result (bytes * bytes) :=
  match structural_attempt data with
  | Some r => Ok r
  | None =>
    ' (pos, marker) <- select_marker markers data ;;
    Ok (take pos data, drop pos data)
  end.

(** The locator as the specification's steps 1, 2 and 4 describe it, with no
    byte-level fallback; compared with [parse_data] below. *)
Definition parse_data_no_fallback (markers : list bytes) (data : bytes)
  : result (bytes * bytes) :=
  match structural_attempt data with
  | Some r => Ok r
  | None =>
    match sort_hits (search_markers markers data) with
    | [] => Raise no_marker_error
    | (pos, marker) :: _ => Ok (take pos data, drop pos data)
    end
  end.

End FrameLocator.

(* ===================================================================== *)
(** ** Python values *)
(* ===================================================================== *)

(** The values the program handles: what [json.loads] returns, plus [bytes]
    (which [json.dumps] refuses) and the text of an exception.  A [dict]
    keeps insertion order and has [str] keys. *)
Inductive pyval : Type :=
| PNone
| PBool (b : bool)
| PInt (z : Z)
| PFloat (bits : N)                 (* the IEEE-754 binary64 bit pattern *)
| PStr (s : pystr)
| PExcStr (prefix : pystr) (e : pyexc)    (* the str [prefix + str(e)] *)
| PBytes (b : bytes)
| PList (l : list pyval)
| PDict (d : list (pystr * pyval)).

Definition pydict := list (pystr * pyval).

(** [d.get(k)], [None] of the model standing for an absent key. *)
Fixpoint dict_get (d : pydict) (k : pystr) : option pyval :=
  match d with
  | [] => None
  | (k', v) :: r => if pystr_eqb k' k then Some v else dict_get r k
  end.

(** [d[k] = v]: an existing key keeps its place, a new one goes last. *)
Fixpoint dict_set (d : pydict) (k : pystr) (v : pyval) : pydict :=
  match d with
  | [] => [(k, v)]
  | (k', v') :: r =>
    if pystr_eqb k' k then (k', v) :: r else (k', v') :: dict_set r k v
  end.

Definition dict_has (d : pydict) (k : pystr) : bool :=
  match dict_get d k with Some _ => true | None => false end.

(** The interpreter's limit on the nesting of calls (1000 by default) is not
    part of the model.  The functions that follow a value through its
    nesting go as deep as the value does: the readers of [classes.py] with
    one call for a struct within a struct, the writers of [converter.py] with
    two, [json.dumps] with one for a list or a dict within another.  Beyond
    some hundreds of levels Python raises [RecursionError] there, which
    [_extract_reply] and [decode] catch like any other exception.  The
    results that follow a nested value through these functions are stated
    within the two bounds below, which are far from that limit:
    [nesting_bound] for structs within structs, [json_nesting_bound] for the
    lists and dicts of a document. *)
Definition nesting_bound : nat := 100.
Definition json_nesting_bound : nat := 500.

(** Whether [json.dumps] accepts the value (with the program's encoder
    class, which only adds the library's struct objects): a bytes object is
    what it refuses.  The nesting of the value is not looked at, see
    [json_nesting_bound]. *)
Fixpoint json_serializable (v : pyval) : bool :=
  match v with
  | PBytes _ => false
  | PList l => forallb json_serializable l
  | PDict d => forallb (fun kv => json_serializable (snd kv)) d
  | _ => true
  end.

(* ===================================================================== *)
(** ** EnvelopeCodec: [decode_headers] and the header loop of [encode_data] *)
(* ===================================================================== *)

Module EnvelopeCodec.

(** The [while offset < data_length] loop.  [fuel] bounds the number of
    further iterations. *)
Fixpoint headers_loop (fuel : nat) (mb : bytes) (data_length offset : N)
         (headers : pydict) : result pydict :=
  if offset <? data_length then
    key_length <- unpack_u32 (slice offset (offset + 4) mb) ;;
    let offset := offset + 4 in
    key <- utf8_decode (slice offset (offset + key_length) mb) ;;
    let offset := offset + key_length in
    value_length <- unpack_u32 (slice offset (offset + 4) mb) ;;
    let offset := offset + 4 in
    value <- utf8_decode (slice offset (offset + value_length) mb) ;;
    let offset := offset + value_length in
    match fuel with
    | O => OutOfFuel
    | S fuel' =>
      headers_loop fuel' mb data_length offset (dict_set headers key (PStr value))
    end
  else Ok headers.

Definition decode_headers (header : bytes) : result pydict :=
  let mb := header in
  message_length <- unpack_u32 (slice 0 4 mb) ;;
  version <- unpack_u8 (slice 4 5 mb) ;;
  header_length <- unpack_u32 (slice 5 9 mb) ;;
  let metadata :=
    [ (u "message_length", PInt (Z.of_N message_length));
      (u "version", PInt (Z.of_N version));
      (u "header_length", PInt (Z.of_N header_length)) ] in
  let offset := 9 in
  let data_length := header_length in
  headers <- headers_loop (List.length header) mb data_length offset [] ;;
  Ok [ (u "metadata", PDict metadata); (u "headers", PDict headers) ].

(** One pass of [for i in x['headers']]: key length, key, value length,
    value.  The lengths are [len] of the [str], its number of code points. *)
Definition encode_header (k : pystr) (v : pyval) : result bytes :=
  kl <- pack_u32 (len k) ;;
  kb <- utf8_encode k ;;
  match v with
  | PStr s =>
    vl <- pack_u32 (len s) ;;
    vb <- utf8_encode s ;;
    Ok (kl ++ kb ++ vl ++ vb)
  | PList l => vl <- pack_u32 (len l) ;; Raise AttributeError
  | PDict d => vl <- pack_u32 (len d) ;; Raise AttributeError
  | _ => Raise TypeError
  end.

Fixpoint encode_headers (headers : pydict) : result bytes :=
  match headers with
  | [] => Ok []
  | (k, v) :: r =>
    h <- encode_header k v ;;
    t <- encode_headers r ;;
    Ok (h ++ t)
  end.

(** The nine-byte metadata prefix [encode_data] writes: frame size, version 0,
    header length. *)
Definition frame_prefix (frame_size header_length : N) : result bytes :=
  a <- pack_u32 frame_size ;;
  c <- pack_u32 header_length ;;
  Ok (a ++ [x00] ++ c).

End EnvelopeCodec.

(** [str(n)] for an [int]. *)
Definition str_of_Z (z : Z) : pystr := u (NilZero.string_of_int (Z.to_int z)).

(** [str(b)] for a [bool]. *)
Definition str_of_bool (b : bool) : pystr := if b then u "True" else u "False".

(* ===================================================================== *)
(** ** Apache Thrift's Python library, as far as the program calls it *)
(* ===================================================================== *)

(** [thrift.Thrift.TType], [TBinaryProtocol] over a [TMemoryBuffer], and
    [TProtocolBase.skip], as in release 0.11.0 of the library (the one that
    [thrift_tools] requires).  A reader's state is the bytes not read yet; a
    reading operation returns its value with the bytes that remain. *)
Module Thrift.

Local Open Scope Z_scope.

Module TType.
Definition STOP := 0.
Definition BOOL := 2.
Definition BYTE := 3.
Definition DOUBLE := 4.
Definition I16 := 6.
Definition I32 := 8.
Definition I64 := 10.
Definition STRING := 11.
Definition STRUCT := 12.
Definition MAP := 13.
Definition SET := 14.
Definition LIST := 15.
End TType.

Module TMessageType.
Definition CALL := 1.
Definition REPLY := 2.
Definition EXCEPTION := 3.
Definition ONEWAY := 4.
End TMessageType.

(** [TBinaryProtocol.VERSION_MASK], [VERSION_1] and [TYPE_MASK]. *)
Definition VERSION_MASK := -65536.
Definition VERSION_1 := -2147418112.
Definition TYPE_MASK := 255.

(** [TTransportBase.readAll(sz)] on a memory buffer: exactly [sz] bytes, or
    [EOFError]. *)
Definition readAll (sz : N) (p : bytes) : result (bytes * bytes) :=
  if (sz <=? len p)%N then Ok (take sz p, drop sz p) else Raise EOFError.

Definition read_signed (k : N) (p : bytes) : result (Z * bytes) :=
  ' (buf, p) <- readAll k p ;;
  Ok (to_signed (8 * k) (be_value buf), p).

Definition readByte := read_signed 1.
Definition readI16 := read_signed 2.
Definition readI32 := read_signed 4.
Definition readI64 := read_signed 8.

Definition readBool (p : bytes) : result (bool * bytes) :=
  ' (byte, p) <- readByte p ;;
  Ok (negb (byte =? 0), p).

(** The double is kept as the eight bytes read. *)
Definition readDouble (p : bytes) : result (N * bytes) :=
  ' (buf, p) <- readAll 8 p ;;
  Ok (be_value buf, p).

(** [_check_length]: a negative size is refused (no upper limit is set). *)
Definition check_length (size : Z) : result unit :=
  if size <? 0
  then Raise (TTransportException (u "Negative length: " ++ str_of_Z size))
  else Ok tt.

Definition readBinary (p : bytes) : result (bytes * bytes) :=
  ' (size, p) <- readI32 p ;;
  check_length size ;;;
  readAll (Z.to_N size) p.

Definition readString (p : bytes) : result (pystr * bytes) :=
  ' (b, p) <- readBinary p ;;
  s <- utf8_decode b ;;
  Ok (s, p).

(** [(type, id)]; the name is always [None] and is left out. *)
Definition readFieldBegin (p : bytes) : result (Z * Z * bytes) :=
  ' (type, p) <- readByte p ;;
  if type =? TType.STOP then Ok (type, 0, p)
  else
    ' (id, p) <- readI16 p ;;
    Ok (type, id, p).

(** [readListBegin] and [readSetBegin]. *)
Definition readListBegin (p : bytes) : result (Z * Z * bytes) :=
  ' (etype, p) <- readByte p ;;
  ' (size, p) <- readI32 p ;;
  check_length size ;;;
  Ok (etype, size, p).

Definition readMapBegin (p : bytes) : result (Z * Z * Z * bytes) :=
  ' (ktype, p) <- readByte p ;;
  ' (vtype, p) <- readByte p ;;
  ' (size, p) <- readI32 p ;;
  check_length size ;;;
  Ok (ktype, vtype, size, p).

(** [readMessageBegin] with [strictRead] off, the default: a negative first
    word carries version and type, a non-negative one is the length of a name
    that is returned as the raw bytes. *)
Definition readMessageBegin (p : bytes) : result (pyval * Z * Z * bytes) :=
  ' (sz, p) <- readI32 p ;;
  if sz <? 0 then
    let version := Z.land sz VERSION_MASK in
    if negb (version =? VERSION_1) then
      Raise (TProtocolException
               (u "Bad version in readMessageBegin: " ++ str_of_Z sz))
    else
      let type := Z.land sz TYPE_MASK in
      ' (name, p) <- readString p ;;
      ' (seqid, p) <- readI32 p ;;
      Ok (PStr name, type, seqid, p)
  else
    ' (name, p) <- readAll (Z.to_N sz) p ;;
    ' (type, p) <- readByte p ;;
    ' (seqid, p) <- readI32 p ;;
    Ok (PBytes name, type, seqid, p).

Definition drop_value {A} (r : result (A * bytes)) : result bytes :=
  ' (_, p) <- r ;; Ok p.

(** The loops [for i in range(size)] of [skip], over the function that skips
    one value. *)
Fixpoint skip_elems (skip : Z -> bytes -> result bytes) (etype : Z) (size : nat)
         (p : bytes) : result bytes :=
  match size with
  | O => Ok p
  | S size =>
    p <- skip etype p ;;
    skip_elems skip etype size p
  end.

Fixpoint skip_entries (skip : Z -> bytes -> result bytes) (ktype vtype : Z)
         (size : nat) (p : bytes) : result bytes :=
  match size with
  | O => Ok p
  | S size =>
    p <- skip ktype p ;;
    p <- skip vtype p ;;
    skip_entries skip ktype vtype size p
  end.

(** [TProtocolBase.skip(ttype)] of thrift 0.11.0, the release that
    [thrift_tools] requires: it reads and discards one value, and for [STOP]
    and for a type that is none of the eleven it returns without reading
    anything (the chain of tests has no [else]; later releases raise there).
    [fuel] bounds the nesting of the calls and the fields of one struct. *)
Fixpoint skip (fuel : nat) (ttype : Z) (p : bytes) {struct fuel} : result bytes :=
  match fuel with
  | O => OutOfFuel
  | S fuel =>
    if ttype =? TType.STOP then Ok p
    else if ttype =? TType.BOOL then drop_value (readBool p)
    else if ttype =? TType.BYTE then drop_value (readByte p)
    else if ttype =? TType.I16 then drop_value (readI16 p)
    else if ttype =? TType.I32 then drop_value (readI32 p)
    else if ttype =? TType.I64 then drop_value (readI64 p)
    else if ttype =? TType.DOUBLE then drop_value (readDouble p)
    else if ttype =? TType.STRING then drop_value (readString p)
    else if ttype =? TType.STRUCT then skip_fields fuel p
    else if ttype =? TType.MAP then
      ' (ktype, vtype, size, p) <- readMapBegin p ;;
      skip_entries (skip fuel) ktype vtype (Z.to_nat size) p
    else if ttype =? TType.SET then
      ' (etype, size, p) <- readListBegin p ;;
      skip_elems (skip fuel) etype (Z.to_nat size) p
    else if ttype =? TType.LIST then
      ' (etype, size, p) <- readListBegin p ;;
      skip_elems (skip fuel) etype (Z.to_nat size) p
    else Ok p
  end

with skip_fields (fuel : nat) (p : bytes) {struct fuel} : result bytes :=
  match fuel with
  | O => OutOfFuel
  | S fuel =>
    ' (ttype, _, p) <- readFieldBegin p ;;
    if ttype =? TType.STOP then Ok p
    else
      p <- skip fuel ttype p ;;
      skip_fields fuel p
  end.

End Thrift.

(* ===================================================================== *)
(** ** ValueCodec, decoding side: [CustomResponseMessage] (classes.py) *)
(* ===================================================================== *)

Module CustomResponseMessage.

Import Thrift.
Local Open Scope Z_scope.

(** [_get_type_name]. *)
Definition _get_type_name (type_id : Z) : pystr :=
  if type_id =? TType.BOOL then u "bool"
  else if type_id =? TType.BYTE then u "i8"
  else if type_id =? TType.I16 then u "i16"
  else if type_id =? TType.I32 then u "i32"
  else if type_id =? TType.I64 then u "i64"
  else if type_id =? TType.DOUBLE then u "double"
  else if type_id =? TType.STRING then u "string"
  else if type_id =? TType.STRUCT then u "struct"
  else if type_id =? TType.MAP then u "map"
  else if type_id =? TType.SET then u "set"
  else if type_id =? TType.LIST then u "list"
  else (u "unknown-" ++ str_of_Z type_id)%list.

Definition note (text : pystr) : pyval := PDict [ (u "note", PStr text) ].

Definition with_value {A} (f : A -> pyval) (r : result (A * bytes))
  : result (option pyval * bytes) :=
  ' (a, p) <- r ;; Ok (Some (f a), p).

(** The key of a map entry: the six scalar key types are read and turned into
    a [str]; any other key type gives a placeholder and is skipped.  [skip]
    is [protocol.skip]. *)
Definition read_key (skip : Z -> bytes -> result bytes) (key_type i : Z) (p : bytes)
  : result (pystr * bytes) :=
  if key_type =? TType.BOOL then
    ' (v, p) <- readBool p ;; Ok (str_of_bool v, p)
  else if key_type =? TType.BYTE then
    ' (v, p) <- readByte p ;; Ok (str_of_Z v, p)
  else if key_type =? TType.I16 then
    ' (v, p) <- readI16 p ;; Ok (str_of_Z v, p)
  else if key_type =? TType.STRING then readString p
  else if key_type =? TType.I32 then
    ' (v, p) <- readI32 p ;; Ok (str_of_Z v, p)
  else if key_type =? TType.I64 then
    ' (v, p) <- readI64 p ;; Ok (str_of_Z v, p)
  else
    p <- skip key_type p ;;
    Ok ((u "complex_key_" ++ str_of_Z i)%list, p).

(** The loop [for i in range(size)] of [_read_list] and of [_read_set] (the
    two differ in the names of the protocol calls only).  [read] is the chain
    of type tests on one value, which gives [None] when the type is none of
    the eleven: the [else] branch then stores a note and calls [skip]. *)
Fixpoint read_elems (read : Z -> bytes -> result (option pyval * bytes))
         (skip : Z -> bytes -> result bytes)
         (element_type : Z) (size : nat) (p : bytes) (result_ : list pyval)
  : result (pyval * bytes) :=
  match size with
  | O => Ok (PList result_, p)
  | S size =>
    ' (ov, p) <- read element_type p ;;
    match ov with
    | Some v => read_elems read skip element_type size p (result_ ++ [v])
    | None =>
      let v := note (u "Unknown element type "
                       ++ _get_type_name element_type) in
      p <- skip element_type p ;;
      read_elems read skip element_type size p (result_ ++ [v])
    end
  end.

(** The loop [for i in range(size)] of [_read_map]; [i] is the index of the
    entry, [size] the number of entries still to read. *)
Fixpoint read_entries (read : Z -> bytes -> result (option pyval * bytes))
         (skip : Z -> bytes -> result bytes)
         (key_type value_type i : Z) (size : nat) (p : bytes) (result_ : pydict)
  : result (pyval * bytes) :=
  match size with
  | O => Ok (PDict result_, p)
  | S size =>
    ' (key, p) <- read_key skip key_type i p ;;
    ' (ov, p) <- read value_type p ;;
    match ov with
    | Some v =>
      read_entries read skip key_type value_type (i + 1) size p
                   (dict_set result_ key v)
    | None =>
      let v := note (u "Unknown value type " ++ _get_type_name value_type) in
      p <- skip value_type p ;;
      read_entries read skip key_type value_type (i + 1) size p
                   (dict_set result_ key v)
    end
  end.

(** The readers.  [read_typed] is the chain of eleven type tests that
    [_extract_reply], [_read_struct], [_read_list], [_read_set] and
    [_read_map] each repeat; it gives [None] when the type is none of the
    eleven, which is the caller's [else] branch.  [read_fields] is the
    [while True] loop of [_read_struct].  [fuel] bounds the nesting of the
    calls and the fields of one struct; the interpreter's own limit on the
    nesting of calls is not part of the model (see [nesting_bound]). *)
Fixpoint read_typed (fuel : nat) (t : Z) (p : bytes) {struct fuel}
  : result (option pyval * bytes) :=
  match fuel with
  | O => OutOfFuel
  | S fuel =>
    if t =? TType.BOOL then with_value PBool (readBool p)
    else if t =? TType.BYTE then with_value PInt (readByte p)
    else if t =? TType.I16 then with_value PInt (readI16 p)
    else if t =? TType.I32 then with_value PInt (readI32 p)
    else if t =? TType.I64 then with_value PInt (readI64 p)
    else if t =? TType.DOUBLE then with_value PFloat (readDouble p)
    else if t =? TType.STRING then with_value PStr (readString p)
    else if t =? TType.STRUCT then
      with_value (fun v => v) (read_fields fuel p [])
    else if t =? TType.LIST then
      ' (element_type, size, p) <- readListBegin p ;;
      with_value (fun v => v)
        (read_elems (read_typed fuel) (skip fuel) element_type (Z.to_nat size) p [])
    else if t =? TType.SET then
      ' (element_type, size, p) <- readListBegin p ;;
      with_value (fun v => v)
        (read_elems (read_typed fuel) (skip fuel) element_type (Z.to_nat size) p [])
    else if t =? TType.MAP then
      ' (key_type, value_type, size, p) <- readMapBegin p ;;
      with_value (fun v => v)
        (read_entries (read_typed fuel) (skip fuel) key_type value_type 0
                      (Z.to_nat size) p [])
    else Ok (None, p)
  end

with read_fields (fuel : nat) (p : bytes) (fields : list pyval) {struct fuel}
  : result (pyval * bytes) :=
  match fuel with
  | O => OutOfFuel
  | S fuel =>
    ' (field_type, field_id, p) <- readFieldBegin p ;;
    if field_type =? TType.STOP
    then Ok (PDict [ (u "fields", PList fields) ], p)
    else
      let field := [ (u "field_id", PInt field_id);
                     (u "field_type", PStr (_get_type_name field_type)) ] in
      ' (ov, p) <- read_typed fuel field_type p ;;
      match ov with
      | Some v =>
        read_fields fuel p (fields ++ [PDict (field ++ [(u "value", v)])])
      | None =>
        let v := note (u "Unknown type " ++ str_of_Z field_type) in
        p <- skip fuel field_type p ;;
        read_fields fuel p (fields ++ [PDict (field ++ [(u "value", v)])])
      end
  end.

Definition _read_struct (fuel : nat) (p : bytes) : result (pyval * bytes) :=
  read_fields fuel p [].

Definition _read_list (fuel : nat) (p : bytes) : result (pyval * bytes) :=
  ' (element_type, size, p) <- readListBegin p ;;
  read_elems (read_typed fuel) (skip fuel) element_type (Z.to_nat size) p [].

Definition _read_set (fuel : nat) (p : bytes) : result (pyval * bytes) :=
  ' (element_type, size, p) <- readListBegin p ;;
  read_elems (read_typed fuel) (skip fuel) element_type (Z.to_nat size) p [].

Definition _read_map (fuel : nat) (p : bytes) : result (pyval * bytes) :=
  ' (key_type, value_type, size, p) <- readMapBegin p ;;
  read_entries (read_typed fuel) (skip fuel) key_type value_type 0
               (Z.to_nat size) p [].

(** The field loop of [_extract_reply], inside its [try]. *)
Fixpoint extract_fields (fuel : nat) (p : bytes) (fields : list pyval)
  : result (pyval * bytes) :=
  match fuel with
  | O => OutOfFuel
  | S fuel =>
    ' (field_type, field_id, p) <- readFieldBegin p ;;
    if field_type =? TType.STOP
    then Ok (PDict [ (u "fields", PList fields) ], p)
    else
      let field := [ (u "field_id", PInt field_id);
                     (u "field_type", PStr (_get_type_name field_type)) ] in
      ' (ov, p) <- read_typed fuel field_type p ;;
      match ov with
      | Some v =>
        extract_fields fuel p (fields ++ [PDict (field ++ [(u "value", v)])])
      | None =>
        let v := note (u "Unknown type " ++ str_of_Z field_type
                         ++ u " (skipped)") in
        p <- skip fuel field_type p ;;
        extract_fields fuel p (fields ++ [PDict (field ++ [(u "value", v)])])
      end
  end.

(** [_extract_reply]: any exception raised while the body is read is caught
    and the whole body becomes [{"error": str(e)}]. *)
Definition _extract_reply (fuel : nat) (p : bytes) : result pyval :=
  match extract_fields fuel p [] with
  | Ok (reply, _) => Ok reply
  | Raise e => Ok (PDict [ (u "error", PExcStr [] e) ])
  | OutOfFuel => OutOfFuel
  end.

(** The number of steps that is enough for a frame (see
    [CustomResponseMessage_terminates]). *)
Definition enough_fuel (thrift_frame : bytes) : nat :=
  List.length thrift_frame + 8.

(** [CustomResponseMessage(thrift_frame).as_dict]; the constructor raises
    when the message header cannot be read. *)
Definition init (thrift_frame : bytes) : result pydict :=
  ' (name, msg_type, seqid, p) <- readMessageBegin thrift_frame ;;
  reply <- _extract_reply (enough_fuel thrift_frame) p ;;
  Ok [ (u "method", name);
       (u "type", PStr (u "reply"));
       (u "seqid", PInt seqid);
       (u "header", PNone);
       (u "reply", reply);
       (u "length", PInt (Z.of_N (len thrift_frame))) ].

End CustomResponseMessage.

(* ===================================================================== *)
(** ** MessageCodec, decoding side: [decode_thrift_message] and [decode] *)
(* ===================================================================== *)

(** What [ThriftMessage.read(frame, read_values=True)] of the [thrift_tools]
    package can do, as far as [decode_thrift_message] tells the cases apart. *)
Inductive library_outcome : Type :=
| LibMessage (as_dict : pydict + pyexc)  (* a message; reading [as_dict] may raise *)
| LibNoMessage                           (* a falsy [msg] *)
| LibUnhashable   (* [TypeError] mentioning "unhashable type: 'ThriftStruct'" *)
| LibRaise (e : pyexc).                  (* any other exception *)

(** The object [decode_thrift_message] returns. *)
Inductive message_object : Type :=
| CustomObject (d : pydict)
| LibraryObject (d : pydict + pyexc)
| EmptyThriftMessage.

Module MessageCodec.

Import FrameLocator EnvelopeCodec.

(** [create_empty_thrift_message().as_dict]. *)
Definition empty_as_dict : pydict :=
  [ (u "method", PStr (u "unknown"));
    (u "type", PStr (u "unknown"));
    (u "seqid", PInt 0);
    (u "args", PNone);
    (u "length", PInt 0);
    (u "error", PStr (u "Failed to parse Thrift message")) ].

Definition as_dict (m : message_object) : result pydict :=
  match m with
  | CustomObject d => Ok d
  | LibraryObject (inl d) => Ok d
  | LibraryObject (inr e) => Raise e
  | EmptyThriftMessage => Ok empty_as_dict
  end.

Definition reply_marker : bytes := [x80; x01; x00; x02].
Definition variant_reply_marker : bytes := [x82; x21; x00; x02].

Definition candidates : list bytes :=
  [ [x80; x01; x00; x01];
    [x80; x01; x00; x02];
    [x82; x21; x00; x01];
    [x82; x21; x00; x02];
    [x80; x01];
    [x82; x21] ].

(** [CustomResponseMessage(frame)] as an object. *)
Definition custom (frame : bytes) : result message_object :=
  match CustomResponseMessage.init frame with
  | Ok d => Ok (CustomObject d)
  | Raise e => Raise e
  | OutOfFuel => OutOfFuel
  end.

Section WithLibrary.

Variable ThriftMessage_read : bytes -> library_outcome.

(** The [for candidate in candidates] loop; an exception in the body moves on
    to the next candidate. *)
Fixpoint try_candidates (cs : list bytes) (thrift_frame : bytes)
  : result message_object :=
  match cs with
  | [] => Ok EmptyThriftMessage
  | candidate :: rest =>
    match find thrift_frame candidate with
    | None => try_candidates rest thrift_frame
    | Some idx =>
      let frame_slice := drop idx thrift_frame in
      if bytes_eqb candidate reply_marker
         || bytes_eqb candidate variant_reply_marker
      then
        match custom frame_slice with
        | Ok m => Ok m
        | Raise _ => try_candidates rest thrift_frame
        | OutOfFuel => OutOfFuel
        end
      else
        match ThriftMessage_read frame_slice with
        | LibMessage d => Ok (LibraryObject d)
        | LibNoMessage => try_candidates rest thrift_frame
        | LibUnhashable =>
          match custom frame_slice with
          | Ok m => Ok m
          | Raise _ => try_candidates rest thrift_frame
          | OutOfFuel => OutOfFuel
          end
        | LibRaise _ => try_candidates rest thrift_frame
        end
    end
  end.

Definition decode_thrift_message (thrift_frame : bytes) : result message_object :=
  if (4 <=? len thrift_frame)
     && (bytes_eqb (take 4 thrift_frame) reply_marker
         || bytes_eqb (take 4 thrift_frame) variant_reply_marker)
  then
    match custom thrift_frame with
    | Ok m => Ok m
    | Raise _ => try_candidates candidates thrift_frame
    | OutOfFuel => OutOfFuel
    end
  else try_candidates candidates thrift_frame.

(** The document of the [except] branch of [decode]. *)
Definition error_info (e : pyexc) : pydict :=
  [ (u "error", PExcStr (u "Failed to decode message: ") e);
    (u "metadata", PDict []);
    (u "headers", PDict []);
    (u "thrift", PDict [ (u "method", PStr (u "unknown"));
                         (u "type", PStr (u "unknown"));
                         (u "seqid", PInt 0);
                         (u "args", PNone) ]) ].

(** The [try] block of [decode], up to the document handed to [json.dumps],
    which raises [TypeError] on a value it cannot serialise. *)
Definition decode_try (data : bytes) : result pydict :=
  ' (raw_headers, raw_thrift_frame) <- parse_data default_markers data ;;
  message <- decode_headers raw_headers ;;
  thrift_message <- decode_thrift_message raw_thrift_frame ;;
  thrift <- as_dict thrift_message ;;
  let message := dict_set message (u "thrift") (PDict thrift) in
  let message :=
    if dict_has thrift (u "error")
    then dict_set message (u "thrift_parse_error") (PBool true)
    else message in
  if json_serializable (PDict message) then Ok message else Raise TypeError.

(** [decode], from the decoded bytes of the file to the document that is
    written out. *)
Definition decode (data : bytes) : result pydict :=
  match decode_try data with
  | Ok message => Ok message
  | Raise e => Ok (error_info e)
  | OutOfFuel => OutOfFuel
  end.

End WithLibrary.

End MessageCodec.

(* ===================================================================== *)
(** ** The earlier decoder: [decode.py] *)
(* ===================================================================== *)

(** What [ThriftMessage.read] can do, as far as [decode.py] tells the cases
    apart: it returns a message, whose [as_dict] is read later and may raise,
    or it raises. *)
Inductive read_outcome : Type :=
| Returns (as_dict : pydict + pyexc)
| Raises (e : pyexc).

Module DecodePy.

Import EnvelopeCodec.

(** [l[start:]] for a start that may be negative: a negative start counts
    from the end and is clamped at the beginning. *)
Definition slice_from {A} (start : Z) (l : list A) : list A :=
  if (start <? 0)%Z then drop (len l - Z.to_N (- start)) l
  else drop (Z.to_N start) l.

Definition marker_not_found : pyexc := ValueError (u "Marker not found").

(** [parse_data] on the decoded bytes of the file; the default marker is
    [80 01]. *)
Definition parse_data (marker : bytes) (data : bytes) : result (bytes * bytes) :=
  match find data marker with
  | None => Raise marker_not_found
  | Some pos =>
    let header_data := take pos data in
    let thrift_frame :=
      slice_from (Z.of_N pos + Z.of_N (len marker) - 2) data in
    Ok (header_data, thrift_frame)
  end.

Definition default_marker : bytes := [x80; x01].

(** [decode_headers] of [decode.py] has the text of the one in
    [converter.py]. *)
Definition decode_headers := EnvelopeCodec.decode_headers.

Definition candidates : list bytes :=
  [ [x80; x01; x00; x01];
    [x80; x01; x00; x02];
    [x80; x01; x00; x03];
    [x80; x01; x00; x04] ].

Section WithLibrary.

Variable ThriftMessage_read : bytes -> read_outcome.

(** The [for candidate in candidates] loop: the frame is cut at the marker
    found and stays cut for the candidates that follow; [None] is the [None]
    the function returns when the loop ends. *)
Fixpoint try_candidates (cs : list bytes) (thrift_frame : bytes)
  : option (pydict + pyexc) :=
  match cs with
  | [] => None
  | candidate :: rest =>
    match find thrift_frame candidate with
    | None => try_candidates rest thrift_frame
    | Some idx =>
      let thrift_frame := drop idx thrift_frame in
      match ThriftMessage_read thrift_frame with
      | Returns msg => Some msg
      | Raises _ => try_candidates rest thrift_frame
      end
    end
  end.

Definition decode_thrift_message (thrift_frame : bytes) : option (pydict + pyexc) :=
  try_candidates candidates thrift_frame.

(** [decode], up to the document that is printed; nothing is caught. *)
Definition decode (data : bytes) : result pydict :=
  ' (raw_headers, raw_thrift_frame) <- parse_data default_marker data ;;
  message <- decode_headers raw_headers ;;
  match decode_thrift_message raw_thrift_frame with
  | None => Raise AttributeError
  | Some (inr e) => Raise e
  | Some (inl thrift) =>
    let message := dict_set message (u "thrift") (PDict thrift) in
    if json_serializable (PDict message) then Ok message else Raise TypeError
  end.

End WithLibrary.

End DecodePy.

(* ===================================================================== *)
(** ** Python built-ins used by the encoder *)
(* ===================================================================== *)

(** The conversions whose result depends on the interpreter's float and
    [repr] routines are taken as given. *)
Record builtins : Type := {
  int_of_float : N -> result Z;        (* [int(x)], [x] a float *)
  int_of_str : pystr -> result Z;      (* [int(s)] *)
  float_of_int : Z -> result N;        (* [float(n)] *)
  float_of_str : pystr -> result N;    (* [float(s)] *)
  str_of_float : N -> pystr;           (* [str(x)] *)
  str_of_list : list pyval -> pystr;   (* [str(l)] *)
  str_of_dict : pydict -> pystr        (* [str(d)] *)
}.

(** [bool(v)]. *)
Definition truthy (v : pyval) : bool :=
  match v with
  | PNone => false
  | PBool b => b
  | PInt z => negb (z =? 0)%Z
  | PFloat f => negb ((f =? 0) || (f =? 2 ^ 63))     (* 0.0 and -0.0 *)
  | PStr s => match s with [] => false | _ => true end
  | PExcStr _ _ => true
  | PBytes b => match b with [] => false | _ => true end
  | PList l => match l with [] => false | _ => true end
  | PDict d => match d with [] => false | _ => true end
  end.

(** [len(v)]. *)
Definition py_len (v : pyval) : result N :=
  match v with
  | PStr s => Ok (len s)
  | PBytes b => Ok (len b)
  | PList l => Ok (len l)
  | PDict d => Ok (len d)
  | _ => Raise TypeError
  end.

(** The items [for item in v] visits. *)
Definition py_iter (v : pyval) : result (list pyval) :=
  match v with
  | PStr s => Ok (map (fun c => PStr [c]) s)
  | PBytes b => Ok (map (fun c => PInt (Z.of_N (b2n c))) b)
  | PList l => Ok l
  | PDict d => Ok (map (fun kv => PStr (fst kv)) d)
  | _ => Raise TypeError
  end.

(** [v[k]] for a [str] key [k]: only a dict can be indexed by a str. *)
Definition py_getitem (v : pyval) (k : pystr) : result pyval :=
  match v with
  | PDict d => match dict_get d k with Some x => Ok x | None => Raise KeyError end
  | _ => Raise TypeError
  end.

Definition is_scalar (v : pyval) : bool :=
  match v with
  | PStr _ | PExcStr _ _ | PInt _ | PFloat _ | PBool _ => true
  | _ => false
  end.

Definition is_bool (v : pyval) : bool :=
  match v with PBool _ => true | _ => false end.

(** [isinstance(v, int)]: a [bool] is an [int]. *)
Definition is_int (v : pyval) : bool :=
  match v with PInt _ | PBool _ => true | _ => false end.

Definition is_float (v : pyval) : bool :=
  match v with PFloat _ => true | _ => false end.

(** Whether [m] occurs in [s]: [m in s] for two strs. *)
Fixpoint pystr_prefix (m s : pystr) : bool :=
  match m, s with
  | [], _ => true
  | x :: m', y :: s' => (x =? y) && pystr_prefix m' s'
  | _ :: _, [] => false
  end.

Fixpoint pystr_contains (s m : pystr) : bool :=
  pystr_prefix m s ||
  match s with
  | [] => false
  | _ :: r => pystr_contains r m
  end.

(** ["fields" in v], [k] a str. *)
Definition py_contains (v : pyval) (k : pystr) : result bool :=
  match v with
  | PDict d => Ok (dict_has d k)
  | PList l =>
    Ok (existsb (fun x => match x with PStr s => pystr_eqb s k | _ => false end) l)
  | PStr s => Ok (pystr_contains s k)
  | _ => Raise TypeError
  end.

Section Coercions.

Variable py : builtins.

(** [int(v)]. *)
Definition py_int (v : pyval) : result Z :=
  match v with
  | PInt z => Ok z
  | PBool b => Ok (if b then 1 else 0)%Z
  | PFloat f => int_of_float py f
  | PStr s => int_of_str py s
  | _ => Raise TypeError
  end.

(** [float(v)]. *)
Definition py_float (v : pyval) : result N :=
  match v with
  | PFloat f => Ok f
  | PInt z => float_of_int py z
  | PBool b => float_of_int py (if b then 1 else 0)%Z
  | PStr s => float_of_str py s
  | _ => Raise TypeError
  end.

(** [str(v)] for a [v] that is neither [None] nor a str already. *)
Definition py_str (v : pyval) : result pystr :=
  match v with
  | PNone => Ok (u "None")
  | PBool b => Ok (str_of_bool b)
  | PInt z => Ok (str_of_Z z)
  | PFloat f => Ok (str_of_float py f)
  | PStr s => Ok s
  | PList l => Ok (str_of_list py l)
  | PDict d => Ok (str_of_dict py d)
  | _ => Raise TypeError
  end.

End Coercions.

(* ===================================================================== *)
(** ** The writing half of a Thrift protocol *)
(* ===================================================================== *)

(** The [write*] methods the encoder calls on its protocol object.  A
    protocol's state holds its transport's buffer; [getvalue] reads it. *)
Record TProtocol : Type := {
  pstate : Type;
  fresh : pstate;
  getvalue : pstate -> bytes;
  writeMessageBegin : pyval -> Z -> pyval -> pstate -> result pstate;
  writeMessageEnd : pstate -> result pstate;
  writeStructBegin : pstate -> result pstate;
  writeStructEnd : pstate -> result pstate;
  writeFieldBegin : Z -> pyval -> pstate -> result pstate;
  writeFieldEnd : pstate -> result pstate;
  writeFieldStop : pstate -> result pstate;
  writeMapBegin : option Z -> option Z -> N -> pstate -> result pstate;
  writeMapEnd : pstate -> result pstate;
  writeListBegin : Z -> N -> pstate -> result pstate;
  writeListEnd : pstate -> result pstate;
  writeSetBegin : Z -> N -> pstate -> result pstate;
  writeSetEnd : pstate -> result pstate;
  writeBool : bool -> pstate -> result pstate;
  writeByte : Z -> pstate -> result pstate;
  writeI16 : Z -> pstate -> result pstate;
  writeI32 : Z -> pstate -> result pstate;
  writeI64 : Z -> pstate -> result pstate;
  writeDouble : N -> pstate -> result pstate;
  writeString : pystr -> pstate -> result pstate
}.

(** [TBinaryProtocol] (strict write, the default) over a [TMemoryBuffer]. *)
Module TBinaryProtocol.

Import Thrift.

Definition emit (r : result bytes) (buf : bytes) : result bytes :=
  b <- r ;; Ok (buf ++ b).

Definition nop (buf : bytes) : result bytes := Ok buf.

(** The integer [struct.pack] sees in an argument passed as is. *)
Definition struct_int (v : pyval) : result Z :=
  match v with
  | PInt z => Ok z
  | PBool b => Ok (if b then 1 else 0)%Z
  | _ => Raise StructError
  end.

Definition w_byte (z : Z) := emit (pack_signed 1 z).
Definition w_i16 (z : Z) := emit (pack_signed 2 z).
Definition w_i32 (z : Z) := emit (pack_signed 4 z).
Definition w_i64 (z : Z) := emit (pack_signed 8 z).

Definition w_double (bits : N) := emit (Ok (be_bytes 8 bits)).

Definition w_bool (b : bool) := w_byte (if b then 1 else 0)%Z.

(** [writeBinary]: length, then the bytes. *)
Definition w_binary (b : bytes) (buf : bytes) : result bytes :=
  buf <- w_i32 (Z.of_N (len b)) buf ;;
  Ok (buf ++ b).

Definition w_string (s : pystr) (buf : bytes) : result bytes :=
  b <- utf8_encode s ;;
  w_binary b buf.

Definition w_type (t : option Z) (buf : bytes) : result bytes :=
  match t with
  | Some t => w_byte t buf
  | None => Raise StructError
  end.

Definition w_message_begin (name : pyval) (type : Z) (seqid : pyval)
           (buf : bytes) : result bytes :=
  buf <- w_i32 (Z.lor VERSION_1 type) buf ;;
  buf <- match name with
         | PStr s => w_string s buf
         | _ => Raise TypeError
         end ;;
  seqid <- struct_int seqid ;;
  w_i32 seqid buf.

Definition w_field_begin (type : Z) (id : pyval) (buf : bytes) : result bytes :=
  buf <- w_byte type buf ;;
  id <- struct_int id ;;
  w_i16 id buf.

Definition w_map_begin (ktype vtype : option Z) (size : N) (buf : bytes)
  : result bytes :=
  buf <- w_type ktype buf ;;
  buf <- w_type vtype buf ;;
  w_i32 (Z.of_N size) buf.

Definition w_list_begin (etype : Z) (size : N) (buf : bytes) : result bytes :=
  buf <- w_byte etype buf ;;
  w_i32 (Z.of_N size) buf.

Definition protocol : TProtocol := {|
  pstate := bytes;
  fresh := [];
  getvalue := fun buf => buf;
  writeMessageBegin := w_message_begin;
  writeMessageEnd := nop;
  writeStructBegin := nop;
  writeStructEnd := nop;
  writeFieldBegin := w_field_begin;
  writeFieldEnd := nop;
  writeFieldStop := w_byte TType.STOP;
  writeMapBegin := w_map_begin;
  writeMapEnd := nop;
  writeListBegin := w_list_begin;
  writeListEnd := nop;
  writeSetBegin := w_list_begin;
  writeSetEnd := nop;
  writeBool := w_bool;
  writeByte := w_byte;
  writeI16 := w_i16;
  writeI32 := w_i32;
  writeI64 := w_i64;
  writeDouble := w_double;
  writeString := w_string
|}.

End TBinaryProtocol.

(* ===================================================================== *)
(** ** ValueCodec, encoding side (converter.py) *)
(* ===================================================================== *)

Module Encoder.

Import Thrift.

(** [FIELD_TYPE_MAP.get(name)]. *)
Definition FIELD_TYPE_MAP (name : pystr) : option Z :=
  if pystr_eqb name (u "bool") then Some TType.BOOL
  else if pystr_eqb name (u "i8") then Some TType.BYTE
  else if pystr_eqb name (u "i16") then Some TType.I16
  else if pystr_eqb name (u "i32") then Some TType.I32
  else if pystr_eqb name (u "i64") then Some TType.I64
  else if pystr_eqb name (u "double") then Some TType.DOUBLE
  else if pystr_eqb name (u "string") then Some TType.STRING
  else if pystr_eqb name (u "struct") then Some TType.STRUCT
  else if pystr_eqb name (u "map") then Some TType.MAP
  else if pystr_eqb name (u "set") then Some TType.SET
  else if pystr_eqb name (u "list") then Some TType.LIST
  else None.

(** [FIELD_TYPE_MAP.get(v)] for any value: a list or dict cannot be hashed,
    a value that is not a str is no key of the table. *)
Definition type_map_get (v : pyval) : result (option Z) :=
  match v with
  | PStr s => Ok (FIELD_TYPE_MAP s)
  | PList _ | PDict _ => Raise TypeError
  | _ => Ok None
  end.

(** [FIELD_TYPE_MAP[v]]. *)
Definition type_map_getitem (v : pyval) : result Z :=
  t <- type_map_get v ;;
  match t with Some t => Ok t | None => Raise KeyError end.

(** [d.get(k)] with Python's [None] for an absent key. *)
Definition get (d : pydict) (k : pystr) : pyval :=
  match dict_get d k with Some v => v | None => PNone end.

(** [v or []]. *)
Definition or_empty (v : pyval) : pyval := if truthy v then v else PList [].

(** [name or "string"], for the key and value type names of a map. *)
Definition or_string (v : pyval) : pyval :=
  if truthy v then v else PStr (u "string").

(** The entries of a map field's value. *)
Definition map_entries (value : pyval) : pyval :=
  match value with
  | PNone => PList []
  | PDict d =>
    PList (map (fun kv => PDict [ (u "key", PStr (fst kv));
                                  (u "value", snd kv) ]) d)
  | _ => or_empty value
  end.

(** The element type a list field gets when it names none: decided on the
    items. *)
Definition infer_list_element_type (items : list pyval) : Z :=
  if negb (match items with [] => true | _ => false end)
     && forallb is_scalar items
  then
    if forallb is_bool items then TType.BOOL
    else if forallb is_int items then TType.I32
    else if forallb is_float items then TType.DOUBLE
    else TType.STRING
  else TType.STRUCT.

(** The element type a set field gets; [element_type] is not looked at. *)
Definition infer_set_element_type (items : list pyval) : Z :=
  if forallb is_scalar items then TType.STRING else TType.STRUCT.

Definition unsupported (text : pystr) (t : Z) : pyexc :=
  ValueError (text ++ str_of_Z t).

Section WithProtocol.

Variable py : builtins.
Variable P : TProtocol.

Fixpoint for_each {A} (l : list A) (body : A -> pstate P -> result (pstate P)) (s : pstate P)
  : result (pstate P) :=
  match l with
  | [] => Ok s
  | x :: r => s <- body x s ;; for_each r body s
  end.

(** The empty struct both writers fall back on. *)
Definition write_empty_struct (s : pstate P) : result (pstate P) :=
  s <- writeStructBegin P s ;;
  s <- writeFieldStop P s ;;
  writeStructEnd P s.

(** The string both writers send: [""] for [None], [str(value)] for a value
    that is not a str. *)
Definition as_string (value : pyval) : result pystr :=
  match value with
  | PNone => Ok []
  | PStr v => Ok v
  | _ => py_str py value
  end.

(** [write_field_value], [write_value] and [write_struct]; [fuel] bounds the
    depth of the calls (the interpreter's own limit is not part of the model,
    see [nesting_bound]). *)
Fixpoint write_field_value (fuel : nat) (thrift_type : Z) (value : pyval)
         (s : pstate P) {struct fuel} : result (pstate P) :=
  match fuel with
  | O => OutOfFuel
  | S fuel =>
    if (thrift_type =? TType.BOOL)%Z then writeBool P (truthy value) s
    else if (thrift_type =? TType.BYTE)%Z then
      v <- py_int py value ;; writeByte P v s
    else if (thrift_type =? TType.I16)%Z then
      v <- py_int py value ;; writeI16 P v s
    else if (thrift_type =? TType.I32)%Z then
      v <- py_int py value ;; writeI32 P v s
    else if (thrift_type =? TType.I64)%Z then
      v <- py_int py value ;; writeI64 P v s
    else if (thrift_type =? TType.DOUBLE)%Z then
      v <- py_float py value ;; writeDouble P v s
    else if (thrift_type =? TType.STRING)%Z then
      v <- as_string value ;; writeString P v s
    else if (thrift_type =? TType.STRUCT)%Z then
      has_fields <- py_contains value (u "fields") ;;
      if has_fields : bool then
        fields_json <- py_getitem value (u "fields") ;;
        write_struct fuel fields_json s
      else write_empty_struct s
    else Raise (unsupported (u "Unsupported simple thrift type: ") thrift_type)
  end

with write_value (fuel : nat) (thrift_type : Z) (field : pydict) (s : pstate P)
     {struct fuel} : result (pstate P) :=
  match fuel with
  | O => OutOfFuel
  | S fuel =>
    let value := get field (u "value") in
    let is_none := match value with PNone => true | _ => false end in
    if (thrift_type =? TType.BOOL)%Z then
      writeBool P (if is_none then false else truthy value) s
    else if (thrift_type =? TType.BYTE)%Z then
      v <- (if is_none then Ok 0%Z else py_int py value) ;; writeByte P v s
    else if (thrift_type =? TType.I16)%Z then
      v <- (if is_none then Ok 0%Z else py_int py value) ;; writeI16 P v s
    else if (thrift_type =? TType.I32)%Z then
      v <- (if is_none then Ok 0%Z else py_int py value) ;; writeI32 P v s
    else if (thrift_type =? TType.I64)%Z then
      v <- (if is_none then Ok 0%Z else py_int py value) ;; writeI64 P v s
    else if (thrift_type =? TType.DOUBLE)%Z then
      v <- (if is_none then Ok 0 else py_float py value) ;; writeDouble P v s
    else if (thrift_type =? TType.STRING)%Z then
      v <- as_string value ;; writeString P v s
    else if (thrift_type =? TType.STRUCT)%Z then
      if negb (truthy value) then write_empty_struct s
      else
        match value with
        | PDict d => write_struct fuel (match dict_get d (u "fields") with
                                        | Some f => f
                                        | None => PList []
                                        end) s
        | _ => Raise AttributeError
        end
    else if (thrift_type =? TType.MAP)%Z then
      let key_type_str := or_string (get field (u "key_type")) in
      let value_type_str := or_string (get field (u "value_type")) in
      key_type <- type_map_get key_type_str ;;
      value_type <- type_map_get value_type_str ;;
      let entries := map_entries value in
      n <- py_len entries ;;
      s <- writeMapBegin P key_type value_type n s ;;
      entries <- py_iter entries ;;
      s <- for_each entries (fun entry s =>
             match entry with
             | PDict e =>
               match dict_get e (u "key"), dict_get e (u "value") with
               | Some key, Some val =>
                 s <- match key_type with
                      | Some t => write_field_value fuel t key s
                      | None => Raise (ValueError
                                  (u "Unsupported simple thrift type: None"))
                      end ;;
                 match value_type with
                 | Some t => write_field_value fuel t val s
                 | None => Raise (ValueError
                             (u "Unsupported simple thrift type: None"))
                 end
               | _, _ => Ok s
               end
             | _ => Ok s
             end) s ;;
      writeMapEnd P s
    else if (thrift_type =? TType.SET)%Z then
      let items := or_empty value in
      items_l <- py_iter items ;;
      let element_type := infer_set_element_type items_l in
      n <- py_len items ;;
      s <- writeSetBegin P element_type n s ;;
      s <- for_each items_l (fun item s =>
             if (element_type =? TType.STRING)%Z
             then write_field_value fuel element_type item s
             else
               match item with
               | PDict d =>
                 match dict_get d (u "fields") with
                 | Some f => write_struct fuel f s
                 | None => write_field_value fuel element_type item s
                 end
               | _ => write_field_value fuel element_type item s
               end) s ;;
      writeSetEnd P s
    else if (thrift_type =? TType.LIST)%Z then
      let element_type_str := get field (u "element_type") in
      element_type <-
        (if negb (truthy element_type_str) then
           items_l <- py_iter (or_empty value) ;;
           Ok (infer_list_element_type items_l)
         else
           t <- type_map_get element_type_str ;;
           match t with
           | Some t => Ok t
           | None =>
             name <- py_str py element_type_str ;;
             Raise (ValueError (u "Unsupported list element type: " ++ name))
           end) ;;
      let items := or_empty value in
      n <- py_len items ;;
      s <- writeListBegin P element_type n s ;;
      items_l <- py_iter items ;;
      s <- for_each items_l (fun item s =>
             if (element_type =? TType.STRUCT)%Z then
               match item with
               | PDict d =>
                 match dict_get d (u "fields") with
                 | Some f => write_struct fuel f s
                 | None => write_field_value fuel element_type item s
                 end
               | _ => write_field_value fuel element_type item s
               end
             else write_field_value fuel element_type item s) s ;;
      writeListEnd P s
    else Raise (unsupported (u "Unsupported thrift type: ") thrift_type)
  end

with write_struct (fuel : nat) (fields_json : pyval) (s : pstate P) {struct fuel}
  : result (pstate P) :=
  match fuel with
  | O => OutOfFuel
  | S fuel =>
    s <- writeStructBegin P s ;;
    fields <- py_iter fields_json ;;
    s <- for_each fields (fun field s =>
           field_id <- py_getitem field (u "field_id") ;;
           ftype_str <- py_getitem field (u "field_type") ;;
           ftype <- type_map_getitem ftype_str ;;
           s <- writeFieldBegin P ftype field_id s ;;
           s <- match field with
                | PDict d => write_value fuel ftype d s
                | _ => Raise TypeError
                end ;;
           writeFieldEnd P s) s ;;
    s <- writeFieldStop P s ;;
    writeStructEnd P s
  end.

(** [write_simple_value], which no other function of the program calls.  The
    value goes to [writeString] as it is, and the library refuses one that is
    not a str. *)
Definition write_simple_value (thrift_type : Z) (value : pyval) (s : pstate P)
  : result (pstate P) :=
  if (thrift_type =? TType.BOOL)%Z then writeBool P (truthy value) s
  else if (thrift_type =? TType.BYTE)%Z then
    v <- py_int py value ;; writeByte P v s
  else if (thrift_type =? TType.I16)%Z then
    v <- py_int py value ;; writeI16 P v s
  else if (thrift_type =? TType.I32)%Z then
    v <- py_int py value ;; writeI32 P v s
  else if (thrift_type =? TType.I64)%Z then
    v <- py_int py value ;; writeI64 P v s
  else if (thrift_type =? TType.DOUBLE)%Z then
    v <- py_float py value ;; writeDouble P v s
  else if (thrift_type =? TType.STRING)%Z then
    match value with
    | PStr v => writeString P v s
    | _ => Raise TypeError
    end
  else Raise (unsupported (u "Unsupported simple thrift type in list: ") thrift_type).

End WithProtocol.

(** The nesting depth of a value, which bounds the depth of the writers'
    calls on it. *)
Fixpoint depth (v : pyval) : nat :=
  match v with
  | PList l => S (fold_right (fun x n => Nat.max (depth x) n) O l)
  | PDict d => S (fold_right (fun kv n => Nat.max (depth (snd kv)) n) O d)
  | _ => 1%nat
  end.

Definition msg_type_map (v : pyval) : result Z :=
  match v with
  | PStr s =>
    if pystr_eqb s (u "call") then Ok TMessageType.CALL
    else if pystr_eqb s (u "reply") then Ok TMessageType.REPLY
    else if pystr_eqb s (u "exception") then Ok TMessageType.EXCEPTION
    else if pystr_eqb s (u "oneway") then Ok TMessageType.ONEWAY
    else Raise KeyError
  | PList _ | PDict _ => Raise TypeError
  | _ => Raise KeyError
  end.

Section WithCompact.

Variable py : builtins.
(** [TCompactProtocol], which the program selects with [--compact]. *)
Variable TCompactProtocol : TProtocol.

(** [write_thrift_message]; [compact] is [args.compact]. *)
Definition write_thrift_message (compact : bool) (thrift_json : pyval)
  : result bytes :=
  method_name <- py_getitem thrift_json (u "method") ;;
  msg_type_str <- py_getitem thrift_json (u "type") ;;
  seqid <- py_getitem thrift_json (u "seqid") ;;
  msg_type <- msg_type_map msg_type_str ;;
  let P := if compact then TCompactProtocol else TBinaryProtocol.protocol in
  s <- writeMessageBegin P method_name msg_type seqid (fresh P) ;;
  args <- py_getitem thrift_json (u "args") ;;
  s <- (if truthy args then
          fields_json <- py_getitem args (u "fields") ;;
          write_struct py P (2 * depth thrift_json) fields_json s
        else Ok s) ;;
  s <- writeMessageEnd P s ;;
  Ok (getvalue P s).

(** [encode_data] up to the bytes that are base64-encoded: [x] is the parsed
    JSON document. *)
Definition encode_data (compact : bool) (x : pyval) : result bytes :=
  hs <- py_getitem x (u "headers") ;;
  headers <- match hs with
             | PDict d => EnvelopeCodec.encode_headers d
             | _ =>
               keys <- py_iter hs ;;
               match keys with
               | [] => Ok []
               | (PList _ | PDict _) :: _ => Raise AttributeError
               | _ :: _ => Raise TypeError
               end
             end ;;
  thrift_data <- py_getitem x (u "thrift") ;;
  thrift_message <- write_thrift_message compact thrift_data ;;
  let header_length := len headers in
  let frame_size := len headers + len thrift_message + 5 in
  prefix <- EnvelopeCodec.frame_prefix frame_size header_length ;;
  Ok (prefix ++ headers ++ thrift_message).

End WithCompact.

End Encoder.

(* ===================================================================== *)
(** ** Notions used in the statements, and example inputs *)
(* ===================================================================== *)

(** Frame size 5, version 0, header length 1, one header byte and the
    marker [80 01]. *)
Definition framed_example : bytes :=
  [x00; x00; x00; x05; x00; x00; x00; x00; x01; x41; x80; x01].

(** Marker [82 21] at offset 5 and marker [80 01], configured first, at
    offset 2. *)
Definition two_marker_example : bytes :=
  [x00; x00; x80; x01; x00; x82; x21; x00].

(** Header length 20, then a key length of 9 with one byte left. *)
Definition key_overrun_example : bytes :=
  [x00; x00; x00; x1f; x00; x00; x00; x00; x14;
   x00; x00; x00; x09; x61].

(** Header length 10, then the pair of key "a" and a value length of 5 with
    one byte left. *)
Definition value_overrun_example : bytes :=
  [x00; x00; x00; x1f; x00; x00; x00; x00; x0a;
   x00; x00; x00; x01; x61; x00; x00; x00; x05; x62].

(** The eleven type tags the readers know. *)
Definition supported_type (t : Z) : bool :=
  ((t =? Thrift.TType.BOOL) || (t =? Thrift.TType.BYTE)
   || (t =? Thrift.TType.I16) || (t =? Thrift.TType.I32)
   || (t =? Thrift.TType.I64) || (t =? Thrift.TType.DOUBLE)
   || (t =? Thrift.TType.STRING) || (t =? Thrift.TType.STRUCT)
   || (t =? Thrift.TType.LIST) || (t =? Thrift.TType.SET)
   || (t =? Thrift.TType.MAP))%Z.

(** A struct body whose first field (i32, id 1, value 42) is well formed and
    whose second field (i32, id 2) is cut after two bytes of its value. *)
Definition truncated_body : bytes :=
  [x08; x00; x01; x00; x00; x00; x2a;  x08; x00; x02; x00; x00].

(** A struct body whose first field (id 5) has the type tag 1, which is none
    of the eleven, and whose second field (i32, id 1, value 42) is well
    formed. *)
Definition unknown_tag_body : bytes :=
  [x01; x00; x05;  x08; x00; x01; x00; x00; x00; x2a;  x00].

(** A call frame (kind 1) with method ["m"], sequence id 1 and an empty
    struct. *)
Definition call_frame : bytes :=
  [x80; x01; x00; x01; x00; x00; x00; x01; x6d; x00; x00; x00; x01; x00].

(** The document of the custom handler for [call_frame]. *)
Definition call_frame_document : pydict :=
  [ (u "method", PStr (u "m"));
    (u "type", PStr (u "reply"));
    (u "seqid", PInt 1);
    (u "header", PNone);
    (u "reply", PDict [ (u "fields", PList []) ]);
    (u "length", PInt 14) ].

(** A call frame (kind 1) with method ["m"], sequence id 1 and a struct with
    one field (i32, id 1, value 42), and the document of the custom handler
    for it. *)
Definition call_frame_body : bytes :=
  [x08; x00; x01; x00; x00; x00; x2a; x00].

Definition call_frame_with_field : bytes :=
  [x80; x01; x00; x01; x00; x00; x00; x01; x6d; x00; x00; x00; x01]
    ++ call_frame_body.

Definition call_frame_with_field_document : pydict :=
  [ (u "method", PStr (u "m"));
    (u "type", PStr (u "reply"));
    (u "seqid", PInt 1);
    (u "header", PNone);
    (u "reply", PDict [ (u "fields",
                        PList [ PDict [ (u "field_id", PInt 1);
                                        (u "field_type", PStr (u "i32"));
                                        (u "value", PInt 42) ] ]) ]);
    (u "length", PInt 21) ].

(** Every value of the document can be written by [json.dumps]. *)
Definition serializable_items (d : pydict) : bool :=
  forallb (fun kv => json_serializable (snd kv)) d.

(** The bodies of the item loops of [write_value], for a list and for a
    set. *)
Definition write_list_item (py : builtins) (P : TProtocol) (fuel : nat)
           (element_type : Z) (item : pyval) (s : pstate P) : result (pstate P) :=
  if (element_type =? Thrift.TType.STRUCT)%Z then
    match item with
    | PDict d =>
      match dict_get d (u "fields") with
      | Some f => Encoder.write_struct py P fuel f s
      | None => Encoder.write_field_value py P fuel element_type item s
      end
    | _ => Encoder.write_field_value py P fuel element_type item s
    end
  else Encoder.write_field_value py P fuel element_type item s.

Definition write_set_item (py : builtins) (P : TProtocol) (fuel : nat)
           (element_type : Z) (item : pyval) (s : pstate P) : result (pstate P) :=
  if (element_type =? Thrift.TType.STRING)%Z
  then Encoder.write_field_value py P fuel element_type item s
  else
    match item with
    | PDict d =>
      match dict_get d (u "fields") with
      | Some f => Encoder.write_struct py P fuel f s
      | None => Encoder.write_field_value py P fuel element_type item s
      end
    | _ => Encoder.write_field_value py P fuel element_type item s
    end.

(** A reply whose body has one set field holding the integers 1 and 2. *)
Definition set_message : pyval :=
  PDict [ (u "method", PStr (u "m"));
          (u "type", PStr (u "reply"));
          (u "seqid", PInt 1);
          (u "args", PDict [ (u "fields", PList [
             PDict [ (u "field_id", PInt 1);
                     (u "field_type", PStr (u "set"));
                     (u "value", PList [PInt 1; PInt 2]) ] ]) ]) ].

(** The frame the binary protocol writes for [set_message]: the set has
    element type string (0b) and holds ["1"] and ["2"]. *)
Definition set_message_frame : bytes :=
  [x80; x01; x00; x02; x00; x00; x00; x01; x6d; x00; x00; x00; x01;
   x0e; x00; x01; x0b; x00; x00; x00; x02;
   x00; x00; x00; x01; x31; x00; x00; x00; x01; x32; x00].

(** A str of ASCII characters only. *)
Definition ascii_str (s : pystr) : bool := forallb (fun c => c <? 128) s.

(** A header pair the round trip is proved for: key and value are non-empty
    ASCII strs. *)
Definition plain_pair (kv : pystr * pyval) : Prop :=
  exists v, snd kv = PStr v /\ fst kv <> [] /\ v <> []
            /\ ascii_str (fst kv) = true /\ ascii_str v = true.

(** The bytes of one pair, and of a list of pairs, with str values. *)
Definition wire_pair (k v : pystr) : bytes :=
  be_bytes 4 (len k) ++ map n2b k ++ be_bytes 4 (len v) ++ map n2b v.

Fixpoint wire (hs : pydict) : bytes :=
  match hs with
  | [] => []
  | (k, PStr v) :: r => wire_pair k v ++ wire r
  | _ :: r => wire r
  end.

(** The field values the message round trip is proved for, by type name:
    a boolean, an integer within the range of its type, a double (its bit
    pattern), a str that can be encoded and is shorter than 2^31 bytes. *)
Inductive scalar_value : pystr -> pyval -> Prop :=
| sv_bool (b : bool) : scalar_value (u "bool") (PBool b)
| sv_i8 (z : Z) : in_signed_range 8 z = true -> scalar_value (u "i8") (PInt z)
| sv_i16 (z : Z) : in_signed_range 16 z = true -> scalar_value (u "i16") (PInt z)
| sv_i32 (z : Z) : in_signed_range 32 z = true -> scalar_value (u "i32") (PInt z)
| sv_i64 (z : Z) : in_signed_range 64 z = true -> scalar_value (u "i64") (PInt z)
| sv_double (bits : N) : bits < 2 ^ 64 -> scalar_value (u "double") (PFloat bits)
| sv_string (s : pystr) (b : bytes) :
    utf8_encode s = Ok b -> len b < 2 ^ 31 -> scalar_value (u "string") (PStr s).

(** A field as the decoder writes it: id, type name, value. *)
Definition field_doc (id : Z) (name : pystr) (v : pyval) : pyval :=
  PDict [ (u "field_id", PInt id); (u "field_type", PStr name); (u "value", v) ].

(** A field of a scalar type whose id fits sixteen bits. *)
Definition scalar_field (f : pyval) : Prop :=
  exists id name v, f = field_doc id name v
                    /\ in_signed_range 16 id = true /\ scalar_value name v.

(** A reply message with the given method, sequence id and body fields, as
    the encoder takes it. *)
Definition reply_message (name : pystr) (seqid : Z) (fields : list pyval) : pyval :=
  PDict [ (u "method", PStr name);
          (u "type", PStr (u "reply"));
          (u "seqid", PInt seqid);
          (u "args", PDict [ (u "fields", PList fields) ]) ].

(** The body of the loop of [write_struct], for the binary protocol. *)
Definition write_field (py : builtins) (fuel : nat) (field : pyval)
           (s : bytes) : result bytes :=
  field_id <- py_getitem field (u "field_id") ;;
  ftype_str <- py_getitem field (u "field_type") ;;
  ftype <- Encoder.type_map_getitem ftype_str ;;
  s <- TBinaryProtocol.w_field_begin ftype field_id s ;;
  s <- match field with
       | PDict d => Encoder.write_value py TBinaryProtocol.protocol fuel ftype d s
       | _ => Raise TypeError
       end ;;
  TBinaryProtocol.nop s.

(** A reply with a boolean, an i32 and a string field. *)
Definition scalar_fields_example : list pyval :=
  [ field_doc 1 (u "bool") (PBool true);
    field_doc 2 (u "i32") (PInt 42);
    field_doc 3 (u "string") (PStr (u "ok")) ].

(** Built-ins that refuse every conversion left open above; the examples
    reach none of them. *)
Definition refusing_builtins : builtins :=
  {| int_of_float := fun _ => Raise TypeError;
     int_of_str := fun _ => Raise (ValueError []);
     float_of_int := fun _ => Raise OverflowError;
     float_of_str := fun _ => Raise (ValueError []);
     str_of_float := fun _ => [];
     str_of_list := fun _ => [];
     str_of_dict := fun _ => [] |}.

(** A message library that finds no message in any buffer. *)
Definition no_library : bytes -> library_outcome := fun _ => LibNoMessage.

(** An entry the MAP branch of [write_value] writes: a dict with a ["key"]
    and a ["value"]; any other entry is passed over. *)
Definition map_entry_ok (entry : pyval) : bool :=
  match entry with
  | PDict e => dict_has e (u "key") && dict_has e (u "value")
  | _ => false
  end.

(** What the MAP branch writes for one such entry. *)
Definition write_map_entry (py : builtins) (P : TProtocol) (fuel : nat)
           (key_type value_type : Z) (entry : pyval) (s : pstate P)
  : result (pstate P) :=
  key <- py_getitem entry (u "key") ;;
  val <- py_getitem entry (u "value") ;;
  s <- Encoder.write_field_value py P fuel key_type key s ;;
  Encoder.write_field_value py P fuel value_type val s.

(** A document for [encode_data]: one header and a reply without fields. *)
Definition document_example : pyval :=
  PDict [ (u "headers", PDict [ (u "a", PStr (u "b")) ]);
          (u "thrift", reply_message (u "m") 1 []) ].

(** The message [encode_data] builds for [document_example]. *)
Definition message_example : bytes :=
  [x00; x00; x00; x1d; x00; x00; x00; x00; x0a;
   x00; x00; x00; x01; x61; x00; x00; x00; x01; x62;
   x80; x01; x00; x02; x00; x00; x00; x01; x6d; x00; x00; x00; x01; x00].

(** [message_example] cut before the last byte, the STOP of the reply. *)
Definition truncated_message_example : bytes :=
  [x00; x00; x00; x1d; x00; x00; x00; x00; x0a;
   x00; x00; x00; x01; x61; x00; x00; x00; x01; x62;
   x80; x01; x00; x02; x00; x00; x00; x01; x6d; x00; x00; x00; x01].

(** A list the LIST branch writes with the element type of its items: it is
    empty, or its items are all booleans, all integers of 32 bits, all
    doubles or all strs. *)
Definition uniform_scalars (items : list pyval) : Prop :=
  items = []
  \/ exists name,
       (name = u "bool" \/ name = u "i32" \/ name = u "double" \/ name = u "string")
       /\ Forall (scalar_value name) items.

(** A struct as the decoder writes it. *)
Definition struct_doc (fields : list pyval) : pyval :=
  PDict [ (u "fields", PList fields) ].

(** The field values the extended round trip is proved for, by type name and
    with structs nested at most [n] deep: a scalar; a list of uniform
    scalars; a set of strs; a map of strs to strs, its keys distinct; a
    struct of such fields; a non-empty list or set of such structs.  No
    container names its element, key or value type. *)
Fixpoint round_trip_value (n : nat) (name : pystr) (v : pyval) {struct n} : Prop :=
  scalar_value name v
  \/ (name = u "list"
      /\ exists items, v = PList items /\ len items < 2 ^ 31 /\ uniform_scalars items)
  \/ (name = u "set"
      /\ exists items, v = PList items /\ len items < 2 ^ 31
                       /\ Forall (scalar_value (u "string")) items)
  \/ (name = u "map"
      /\ exists d, v = PDict d /\ len d < 2 ^ 31 /\ NoDup (map fst d)
                   /\ Forall (fun kv => scalar_value (u "string") (PStr (fst kv))
                                        /\ scalar_value (u "string") (snd kv)) d)
  \/ match n with
     | O => False
     | S n =>
       let field f :=
         exists id name' v', f = field_doc id name' v'
                             /\ in_signed_range 16 id = true
                             /\ round_trip_value n name' v' in
       (name = u "struct"
        /\ exists fields, v = struct_doc fields /\ Forall field fields)
       \/ ((name = u "list" \/ name = u "set")
           /\ exists items,
                v = PList items /\ items <> [] /\ len items < 2 ^ 31
                /\ Forall (fun item => exists fields,
                                         item = struct_doc fields
                                         /\ Forall field fields) items)
     end.

Definition round_trip_field (n : nat) (f : pyval) : Prop :=
  exists id name v, f = field_doc id name v
                    /\ in_signed_range 16 id = true
                    /\ round_trip_value n name v.

(** What the proofs of the round trips establish for a value of wire type
    [t]: the bytes [vb] are what the writer appends for it (as a field value
    with [write], as an item of a container with [write_item]) and what the
    reader turns back into it. *)
Definition item_codec (py : builtins) (t : Z) (item : pyval) (ib : bytes) : Prop :=
  1 <= len ib
  /\ (forall fuel buf,
        (2 * Encoder.depth item <= fuel + 2)%nat ->
        write_list_item py TBinaryProtocol.protocol (S fuel) t item buf = Ok (buf ++ ib))
  /\ (forall fuel buf,
        (2 * Encoder.depth item <= fuel + 2)%nat ->
        write_set_item py TBinaryProtocol.protocol (S fuel) t item buf = Ok (buf ++ ib))
  /\ (forall fuel rest,
        (List.length ib < fuel)%nat ->
        CustomResponseMessage.read_typed fuel t (ib ++ rest) = Ok (Some item, rest)).

Definition value_codec_at (py : builtins) (name : pystr) (v : pyval) : Prop :=
  exists t vb,
    Encoder.FIELD_TYPE_MAP name = Some t /\ t <> Thrift.TType.STOP
    /\ in_signed_range 8 t = true
    /\ CustomResponseMessage._get_type_name t = name
    /\ 1 <= len vb
    /\ (forall fuel d buf,
          Encoder.get d (u "value") = v ->
          Encoder.get d (u "element_type") = PNone ->
          Encoder.get d (u "key_type") = PNone ->
          Encoder.get d (u "value_type") = PNone ->
          (2 * Encoder.depth v <= fuel + 2)%nat ->
          Encoder.write_value py TBinaryProtocol.protocol (S fuel) t d buf
          = Ok (buf ++ vb))
    /\ (forall fuel rest,
          (List.length vb < fuel)%nat ->
          CustomResponseMessage.read_typed fuel t (vb ++ rest) = Ok (Some v, rest)).

(** Fields of the extended class: a struct in a struct, a list of integers,
    a map and a set of strs, a list of structs. *)
Definition nested_fields_example : list pyval :=
  [ field_doc 1 (u "struct")
      (struct_doc [ field_doc 1 (u "i32") (PInt 7);
                    field_doc 2 (u "struct")
                      (struct_doc [ field_doc 1 (u "bool") (PBool true) ]) ]);
    field_doc 2 (u "list") (PList [PInt 1; PInt 2]);
    field_doc 3 (u "map") (PDict [ (u "k", PStr (u "v")) ]);
    field_doc 4 (u "set") (PList [PStr (u "a")]);
    field_doc 5 (u "list") (PList [ struct_doc [] ]) ].

(** The hit the specification selects among the hits, which are listed in
    the order of the configured markers: the one with the smallest offset,
    and among the hits at that offset the one whose marker is configured
    first. *)
Fixpoint priority_hit (hits : list (N * bytes)) : option (N * bytes) :=
  match hits with
  | [] => None
  | h :: rest =>
    match priority_hit rest with
    | Some h' => if fst h' <? fst h then Some h' else Some h
    | None => Some h
    end
  end.

(** A reply frame of 22 bytes whose one field is a list that announces 64
    elements of the type 1, which is none of the eleven. *)
Definition announcing_frame : bytes :=
  [x80; x01; x00; x02; x00; x00; x00; x01; x6d; x00; x00; x00; x01;
   x0f; x00; x01;  x01; x00; x00; x00; x40;  x00].

(** Two markers that both occur at offset 0 of the data, the longer one
    configured first. *)
Definition tie_markers : list bytes := [ [x80; x01; x00; x01]; [x80; x01] ].
Definition tie_example : bytes := [x80; x01; x00; x01; x00].

(** A mapping whose values are all strs. *)
Definition str_valued (d : pydict) : Prop :=
  Forall (fun kv => exists s, snd kv = PStr s) d.

(** ** Proof steps used more than once *)

Ltac split_ifs H :=
  repeat match type of H with
         | (if ?c then _ else _) = _ => destruct c eqn:?
         end.

Ltac rewrite_tests :=
  repeat match goal with
         | E : (_ =? _)%Z = false |- _ => rewrite E; clear E
         end.

(** Decides the tests between two type tags that are both known. *)
Ltac type_tests t :=
  repeat match goal with
         | |- context [(t =? ?b)%Z] =>
           let r := eval cbv in (t =? b)%Z in
           change (t =? b)%Z with r
         end;
  cbv iota.

Ltac decide_test :=
  match goal with
  | |- context [?a <? ?b] =>
    destruct (N.ltb_spec a b); [try (exfalso; lia) | try (exfalso; lia)]
  | |- context [?a <=? ?b] =>
    destruct (N.leb_spec a b); [try (exfalso; lia) | try (exfalso; lia)]
  end.

(* ===================================================================== *)
(** * Properties *)
(* ===================================================================== *)

(** ** Slices *)

Lemma take_firstn {A} (l : list A) : forall n, take n l = firstn (N.to_nat n) l.
Proof.
  induction l as [|x r IH]; intros n; simpl.
  - now rewrite firstn_nil.
  - destruct (N.eqb_spec n 0) as [->|Hn]; [reflexivity|].
    rewrite IH. replace (N.to_nat n) with (S (N.to_nat (N.pred n))) by lia.
    reflexivity.
Qed.

Lemma drop_skipn {A} (l : list A) : forall n, drop n l = skipn (N.to_nat n) l.
Proof.
  induction l as [|x r IH]; intros n; simpl.
  - now rewrite skipn_nil.
  - destruct (N.eqb_spec n 0) as [->|Hn]; [reflexivity|].
    rewrite IH. replace (N.to_nat n) with (S (N.to_nat (N.pred n))) by lia.
    reflexivity.
Qed.

Lemma len_app {A} (a b : list A) : len (a ++ b) = len a + len b.
Proof. unfold len. rewrite length_app. lia. Qed.

Lemma len_take {A} (n : N) (l : list A) : len (take n l) = N.min n (len l).
Proof. unfold len. rewrite take_firstn, length_firstn. lia. Qed.

Lemma len_drop {A} (n : N) (l : list A) : len (drop n l) = len l - n.
Proof. unfold len. rewrite drop_skipn, length_skipn. lia. Qed.

Lemma take_app_exact {A} (a b : list A) : take (len a) (a ++ b) = a.
Proof.
  unfold len. rewrite take_firstn, Nat2N.id.
  rewrite firstn_app, Nat.sub_diag, firstn_all. simpl. apply app_nil_r.
Qed.

Lemma drop_app_exact {A} (a b : list A) : drop (len a) (a ++ b) = b.
Proof.
  unfold len. rewrite drop_skipn, Nat2N.id.
  rewrite skipn_app, Nat.sub_diag, skipn_all. reflexivity.
Qed.

(** ** FrameLocator *)

Section LocatorProperties.

Import FrameLocator.

(** C2. A buffer longer than nine bytes whose first nine bytes read as a
    frame size strictly between 0 and the buffer length, a version of 0 or 1
    and a header length below the frame size is split at [9 + headerLength],
    whatever the marker list is. *)
Theorem parse_data_structural (markers : list bytes) (data : bytes) :
  9 < len data ->
  0 < frame_size data < len data ->
  version data = 0 \/ version data = 1 ->
  header_length data < frame_size data ->
  parse_data markers data
  = Ok (take (9 + header_length data) data, drop (9 + header_length data) data).
Proof.
  intros Hlen [Hpos Hlt] Hver Hhl.
  unfold parse_data, structural_attempt, frugal_sane.
  apply N.ltb_lt in Hlen, Hpos, Hlt, Hhl.
  rewrite Hlen, Hpos, Hlt, Hhl.
  assert (Hv : (0 <=? version data) && (version data <=? 1) = true).
  { destruct Hver as [-> | ->]; reflexivity. }
  apply andb_true_iff in Hv as [-> ->]. reflexivity.
Qed.

Lemma parse_data_structural_witness :
  parse_data [] framed_example
  = Ok ([x00; x00; x00; x05; x00; x00; x00; x00; x01; x41], [x80; x01]).
Proof.
  apply (@parse_data_structural [] framed_example).
  - reflexivity.
  - split; reflexivity.
  - left; reflexivity.
  - reflexivity.
Defined.

Lemma find_from_cons (m : bytes) (b : byte) (d : bytes) (i : N) :
  find_from m d (N.succ i) <> None -> find_from m (b :: d) i <> None.
Proof.
  intros H. simpl. destruct (starts_with m (b :: d)); [discriminate | exact H].
Qed.

(** A pair the byte scan reports is an occurrence of one of the two
    two-byte markers, which [find] then reports too. *)
Lemma byte_scan_found (d : bytes) : forall i,
  byte_scan d i <> [] ->
  find_from [x80; x01] d i <> None \/ find_from [x82; x21] d i <> None.
Proof.
  induction d as [|b0 r IH]; intros i H; [now elim H|].
  destruct r as [|b1 [|b2 r']]; try (now elim H).
  cbn [byte_scan] in H.
  destruct (is_protocol_pair b0 b1) eqn:E.
  - unfold is_protocol_pair in E. apply orb_true_iff in E as [E|E];
      apply andb_true_iff in E as [E0 E1];
      apply Byte.byte_dec_bl in E0, E1; subst; [left|right]; discriminate.
  - destruct (IH (N.succ i) H) as [F|F]; [left|right];
      now apply find_from_cons.
Qed.

Lemma search_default_nil (data : bytes) :
  search_markers default_markers data = [] ->
  find data [x80; x01] = None /\ find data [x82; x21] = None.
Proof.
  unfold default_markers. cbn [search_markers].
  destruct (find data [x80; x01]); [discriminate|].
  destruct (find data [x82; x21]); [discriminate|]. auto.
Qed.

Lemma byte_scan_redundant (data : bytes) :
  search_markers default_markers data = [] -> byte_scan data 0 = [].
Proof.
  intros H. apply search_default_nil in H as [H1 H2].
  destruct (byte_scan data 0) eqn:E; [reflexivity|].
  destruct (byte_scan_found data 0) as [F|F]; try congruence;
    unfold find in *; congruence.
Qed.

(** C9. With the default marker list the byte-by-byte scan never finds a
    pair the marker search missed, so [parse_data] is the locator without
    that step; and when the marker search finds nothing (the structural
    attempt having been rejected), the result is the no-marker error. *)
Theorem fallback_redundant (data : bytes) :
  parse_data default_markers data = parse_data_no_fallback default_markers data
  /\ (search_markers default_markers data = [] -> byte_scan data 0 = [])
  /\ (structural_attempt data = None ->
      search_markers default_markers data = [] ->
      parse_data default_markers data = Raise no_marker_error).
Proof.
  split; [|split].
  - unfold parse_data, parse_data_no_fallback, select_marker.
    destruct (structural_attempt data); [reflexivity|].
    destruct (search_markers default_markers data) eqn:E.
    + rewrite (byte_scan_redundant data E). reflexivity.
    + destruct (sort_hits (p :: l)) as [|[pos marker] t]; reflexivity.
  - apply byte_scan_redundant.
  - intros Hs Hm. unfold parse_data, select_marker. rewrite Hs, Hm.
    rewrite (byte_scan_redundant data Hm). reflexivity.
Qed.

(** *** The order of the hits *)

Lemma bytes_leb_refl (a : bytes) : bytes_leb a a = true.
Proof. induction a as [|x a IH]; simpl; [reflexivity|]. now rewrite N.ltb_irrefl. Qed.

Lemma bytes_leb_total (a : bytes) : forall b,
  bytes_leb a b = false -> bytes_leb b a = true.
Proof.
  induction a as [|x a IH]; intros [|y b]; simpl; try congruence.
  destruct (N.ltb_spec (b2n x) (b2n y)), (N.ltb_spec (b2n y) (b2n x));
    try congruence; try lia. apply IH.
Qed.

Lemma bytes_leb_trans (a : bytes) : forall b c,
  bytes_leb a b = true -> bytes_leb b c = true -> bytes_leb a c = true.
Proof.
  induction a as [|x a IH]; intros [|y b] [|z c]; simpl; try congruence.
  destruct (N.ltb_spec (b2n x) (b2n y)), (N.ltb_spec (b2n y) (b2n x)),
           (N.ltb_spec (b2n y) (b2n z)), (N.ltb_spec (b2n z) (b2n y)),
           (N.ltb_spec (b2n x) (b2n z)), (N.ltb_spec (b2n z) (b2n x));
    try congruence; try lia. apply IH.
Qed.

Lemma hit_leb_refl (a : N * bytes) : hit_leb a a = true.
Proof. unfold hit_leb. rewrite N.ltb_irrefl. apply bytes_leb_refl. Qed.

Lemma hit_leb_total (a b : N * bytes) : hit_leb a b = false -> hit_leb b a = true.
Proof.
  unfold hit_leb.
  destruct (N.ltb_spec (fst a) (fst b)), (N.ltb_spec (fst b) (fst a));
    try congruence; try lia. apply bytes_leb_total.
Qed.

Lemma hit_leb_trans (a b c : N * bytes) :
  hit_leb a b = true -> hit_leb b c = true -> hit_leb a c = true.
Proof.
  unfold hit_leb.
  destruct (N.ltb_spec (fst a) (fst b)), (N.ltb_spec (fst b) (fst a)),
           (N.ltb_spec (fst b) (fst c)), (N.ltb_spec (fst c) (fst b)),
           (N.ltb_spec (fst a) (fst c)), (N.ltb_spec (fst c) (fst a));
    try congruence; try lia. apply bytes_leb_trans.
Qed.

(** What [hit_leb] says of two hits. *)
Lemma hit_leb_spec (p q : N) (m n : bytes) :
  hit_leb (p, m) (q, n) = true -> p <= q /\ (q = p -> bytes_leb m n = true).
Proof.
  unfold hit_leb; simpl.
  destruct (N.ltb_spec p q), (N.ltb_spec q p); try congruence; try lia.
  intros Hb; split; [lia | auto].
Qed.

Lemma In_insert_hit (h x : N * bytes) (l : list (N * bytes)) :
  In x (insert_hit h l) <-> x = h \/ In x l.
Proof.
  induction l as [|y r IH]; simpl; [intuition|].
  destruct (hit_leb y h); simpl; rewrite ?IH; intuition.
Qed.

Lemma In_sort_hits (x : N * bytes) (l : list (N * bytes)) :
  In x (sort_hits l) <-> In x l.
Proof.
  induction l as [|y r IH]; simpl; [tauto|].
  rewrite In_insert_hit, IH. intuition.
Qed.

(** The first element of the sorted list is below every hit. *)
Lemma sort_hits_head (l : list (N * bytes)) : forall m t,
  sort_hits l = m :: t -> forall x, In x l -> hit_leb m x = true.
Proof.
  induction l as [|h r IH]; intros m t E x Hx; [destruct Hx|].
  simpl in E. destruct (sort_hits r) as [|m' t'] eqn:Er.
  - assert (r = []) as ->.
    { destruct r as [|y r']; [reflexivity|].
      assert (In y (sort_hits (y :: r'))) by (apply In_sort_hits; now left).
      rewrite Er in H. destruct H. }
    simpl in E. injection E as <- <-. destruct Hx as [<-|[]]. apply hit_leb_refl.
  - specialize (IH _ _ eq_refl). simpl in E.
    destruct (hit_leb m' h) eqn:Eh; injection E as <- <-.
    + destruct Hx as [<-|Hx]; auto.
    + apply hit_leb_total in Eh. destruct Hx as [<-|Hx]; [apply hit_leb_refl|].
      eapply hit_leb_trans; eauto.
Qed.

Lemma In_search_markers (markers : list bytes) (data : bytes) (p : N) (m : bytes) :
  In (p, m) (search_markers markers data) <-> In m markers /\ find data m = Some p.
Proof.
  induction markers as [|k r IH]; simpl; [tauto|].
  destruct (find data k) as [q|] eqn:E; simpl; rewrite IH; split.
  - intros [H|H]; [injection H as <- <-; auto | tauto].
  - intros [[->|H] F]; [left; congruence | tauto].
  - tauto.
  - intros [[->|H] F]; [congruence | tauto].
Qed.

(** The first element of the sorted hits: it is at the smallest offset, and
    among the hits at that offset its marker is the least in byte order. *)
Lemma select_marker_least_hit
      (markers : list bytes) (data : bytes) (m0 : bytes) (p0 : N) :
  structural_attempt data = None ->
  In m0 markers -> find data m0 = Some p0 ->
  exists pos marker,
    select_marker markers data = Ok (pos, marker)
    /\ parse_data markers data = Ok (take pos data, drop pos data)
    /\ In marker markers /\ find data marker = Some pos
    /\ forall m p, In m markers -> find data m = Some p ->
                  pos <= p /\ (p = pos -> bytes_leb marker m = true).
Proof.
  intros Hs Hin Hf.
  assert (Hne : In (p0, m0) (search_markers markers data))
    by (apply In_search_markers; auto).
  unfold parse_data, select_marker. rewrite Hs.
  destruct (search_markers markers data) as [|h l] eqn:E; [destruct Hne|].
  destruct (sort_hits (h :: l)) as [|[pos marker] t] eqn:Es.
  - apply In_sort_hits in Hne. rewrite Es in Hne. destruct Hne.
  - exists pos, marker. split; [reflexivity|]. split; [reflexivity|].
    assert (Hm : In (pos, marker) (h :: l)).
    { apply In_sort_hits. rewrite Es. now left. }
    rewrite <- E in Hm. apply In_search_markers in Hm as [Hm1 Hm2].
    split; [exact Hm1|]. split; [exact Hm2|].
    intros m p Im Fm. apply hit_leb_spec.
    eapply sort_hits_head; [exact Es|]. rewrite <- E.
    apply In_search_markers. auto.
Qed.

Lemma priority_hit_None (hits : list (N * bytes)) :
  priority_hit hits = None -> hits = [].
Proof.
  destruct hits as [|h r]; [reflexivity|]. cbn [priority_hit].
  destruct (priority_hit r) as [h'|]; [destruct (fst h' <? fst h)|]; discriminate.
Qed.

(** The hit the specification selects, in terms of the configured list. *)
Lemma priority_hit_search (data : bytes) : forall markers pos marker,
  priority_hit (search_markers markers data) = Some (pos, marker) ->
  In marker markers /\ find data marker = Some pos
  /\ (forall m p, In m markers -> find data m = Some p -> pos <= p)
  /\ exists before after,
       markers = before ++ marker :: after
       /\ forall m, In m before -> find data m <> Some pos.
Proof.
  induction markers as [|k r IH]; intros pos marker H; [discriminate|].
  cbn [search_markers] in H.
  destruct (find data k) as [q|] eqn:Ek.
  - cbn [priority_hit] in H.
    destruct (priority_hit (search_markers r data)) as [[p' m']|] eqn:Er.
    + destruct (IH p' m' eq_refl) as (Hin & Hf & Hmin & before & after & -> & Hb).
      cbn [fst] in H. destruct (N.ltb_spec p' q) as [Hlt|Hge];
        injection H as <- <-.
      * split; [now right|]. split; [exact Hf|]. split.
        -- intros m p [<-|Hm] Fm; [|now apply (Hmin m)].
           rewrite Ek in Fm. injection Fm as <-. lia.
        -- exists (k :: before), after. split; [reflexivity|].
           intros m [<-|Hm]; [|now apply Hb].
           rewrite Ek. intros E. injection E as E. lia.
      * split; [now left|]. split; [exact Ek|]. split.
        -- intros m p [<-|Hm] Fm.
           ++ rewrite Ek in Fm. injection Fm as <-. lia.
           ++ specialize (Hmin m p Hm Fm). lia.
        -- exists [], (before ++ m' :: after). split; [reflexivity|].
           intros m [].
    + apply priority_hit_None in Er. injection H as <- <-.
      split; [now left|]. split; [exact Ek|]. split.
      * intros m p [<-|Hm] Fm.
        -- rewrite Ek in Fm. injection Fm as <-. lia.
        -- assert (Hx : In (p, m) (search_markers r data))
             by (apply In_search_markers; auto).
           rewrite Er in Hx. destruct Hx.
      * exists [], r. split; [reflexivity|]. intros m [].
  - destruct (IH pos marker H) as (Hin & Hf & Hmin & before & after & -> & Hb).
    split; [now right|]. split; [exact Hf|]. split.
    + intros m p [<-|Hm] Fm; [congruence | now apply (Hmin m)].
    + exists (k :: before), after. split; [reflexivity|].
      intros m [<-|Hm]; [congruence | now apply Hb].
Qed.

(** C6.  When the structural attempt is rejected and some configured marker
    occurs in the data, [parse_data] splits at the hit the specification
    selects ([priority_hit] on the first occurrences of the markers, in
    configured order): its offset is the smallest of the markers' first
    offsets, its marker is the first in the configured list among those
    found at that offset, and the header is everything before the offset. *)
Theorem marker_scan_selects_earliest
        (markers : list bytes) (data : bytes) (m0 : bytes) (p0 : N) :
  structural_attempt data = None ->
  In m0 markers -> find data m0 = Some p0 ->
  exists pos marker,
    priority_hit (search_markers markers data) = Some (pos, marker)
    /\ In marker markers /\ find data marker = Some pos
    /\ (forall m p, In m markers -> find data m = Some p -> pos <= p)
    /\ (exists before after,
          markers = before ++ marker :: after
          /\ forall m, In m before -> find data m <> Some pos)
    /\ parse_data markers data = Ok (take pos data, drop pos data).
Proof.
  intros Hs Hin Hf.
  destruct (select_marker_least_hit markers data m0 Hs Hin Hf)
    as (pos' & marker' & _ & Hparse & Hin' & Hf' & Hmin').
  destruct (priority_hit (search_markers markers data)) as [[pos marker]|] eqn:E.
  - destruct (priority_hit_search data markers E) as (Hi & Hfm & Hmin & Hfirst).
    exists pos, marker. split; [reflexivity|].
    split; [exact Hi|]. split; [exact Hfm|]. split; [exact Hmin|].
    split; [exact Hfirst|].
    assert (pos' = pos) as <-.
    { pose proof (proj1 (Hmin' marker pos Hi Hfm)).
      pose proof (Hmin marker' pos' Hin' Hf'). lia. }
    exact Hparse.
  - apply priority_hit_None in E.
    assert (Hx : In (p0, m0) (search_markers markers data))
      by (apply In_search_markers; auto).
    rewrite E in Hx. destruct Hx.
Qed.

(** Marker [82 21] at offset 5 and marker [80 01], configured first, at
    offset 2: the split is at offset 2.  And a tie: both markers of
    [tie_markers] occur at offset 0, the hit selected is the one of the marker
    configured first, and the split is at offset 0. *)
Lemma marker_scan_selects_earliest_witness :
  (find two_marker_example [x82; x21] = Some 5
   /\ find two_marker_example [x80; x01] = Some 2
   /\ priority_hit (search_markers default_markers two_marker_example)
      = Some (2, [x80; x01])
   /\ parse_data default_markers two_marker_example
      = Ok ([x00; x00], [x80; x01; x00; x82; x21; x00]))
  /\ (find tie_example [x80; x01; x00; x01] = Some 0
      /\ find tie_example [x80; x01] = Some 0
      /\ priority_hit (search_markers tie_markers tie_example)
         = Some (0, [x80; x01; x00; x01])
      /\ parse_data tie_markers tie_example = Ok ([], tie_example)).
Proof.
  split.
  - split; [reflexivity|]. split; [reflexivity|]. split; [reflexivity|].
    destruct (@marker_scan_selects_earliest default_markers two_marker_example
                [x82; x21] 5) as (pos & marker & Hsel & _ & _ & _ & _ & Hparse).
    + reflexivity.
    + simpl; auto.
    + reflexivity.
    + rewrite Hparse. vm_compute in Hsel. injection Hsel as <- <-. reflexivity.
  - split; [reflexivity|]. split; [reflexivity|]. split; [reflexivity|].
    destruct (@marker_scan_selects_earliest tie_markers tie_example
                [x80; x01] 0) as (pos & marker & Hsel & _ & _ & _ & _ & Hparse).
    + reflexivity.
    + simpl; auto.
    + reflexivity.
    + rewrite Hparse. vm_compute in Hsel. injection Hsel as <- <-. reflexivity.
Defined.

(** On a tie the tuple that [marker_positions.sort()] puts first is the one
    of the least marker in byte order, here [80 01], which is configured
    second.  The marker of that tuple is bound to a local the program never
    reads, so the split is the one of the marker configured first all the
    same. *)
Lemma unused_marker_on_tie :
  structural_attempt tie_example = None
  /\ select_marker tie_markers tie_example = Ok (0, [x80; x01])
  /\ parse_data tie_markers tie_example = Ok ([], tie_example).
Proof. vm_compute. repeat split. Qed.

End LocatorProperties.

(** ** Results of [bind] *)

Lemma bind_Ok {A B} (m : result A) (k : A -> result B) (b : B) :
  bind m k = Ok b -> exists a, m = Ok a /\ k a = Ok b.
Proof. destruct m; simpl; intros H; try discriminate. eauto. Qed.

Lemma bind_fuel {A B} (m : result A) (k : A -> result B) :
  m <> OutOfFuel -> (forall a, m = Ok a -> k a <> OutOfFuel) ->
  bind m k <> OutOfFuel.
Proof. destruct m; simpl; auto; congruence. Qed.

(** ** EnvelopeCodec *)

Section EnvelopeProperties.

Import EnvelopeCodec.

Lemma len_slice {A} (a b : N) (l : list A) :
  len (slice a b l) = N.min (b - a) (len l - a).
Proof. unfold slice. now rewrite len_take, len_drop. Qed.


Lemma unpack_u32_short (o : N) (mb : bytes) :
  len mb < o + 4 -> unpack_u32 (slice o (o + 4) mb) = Raise StructError.
Proof.
  intros H. unfold unpack_u32. rewrite len_slice.
  destruct (N.eqb_spec (N.min (o + 4 - o) (len mb - o)) 4); [lia | reflexivity].
Qed.



Lemma utf8_decode_no_fuel (b : bytes) : utf8_decode b <> OutOfFuel.
Proof.
  remember (List.length b) as n eqn:E.
  revert b E. induction n as [n IH] using lt_wf_ind. intros b E.
  assert (step : forall r (c : N), (List.length r < n)%nat ->
            (s <- utf8_decode r ;; Ok (c :: s)) <> OutOfFuel).
  { intros r c Hr. apply bind_fuel; [now apply (IH _ Hr r) | discriminate]. }
  destruct b as [|b0 r0]; [discriminate|]. simpl in E. cbn [utf8_decode].
  destruct (b2n b0 <? 128); [apply step; lia|].
  destruct (b2n b0 <? 192); [discriminate|].
  destruct (b2n b0 <? 224).
  { destruct r0 as [|b1 r1]; [discriminate|]. simpl in E.
    match goal with |- (if ?c then _ else _) <> _ => destruct c end;
      [apply step; lia | discriminate]. }
  destruct (b2n b0 <? 240).
  { destruct r0 as [|b1 [|b2 r2]]; try discriminate. simpl in E.
    match goal with |- (if ?c then _ else _) <> _ => destruct c end;
      [apply step; lia | discriminate]. }
  destruct (b2n b0 <? 248); [|discriminate].
  destruct r0 as [|b1 [|b2 [|b3 r3]]]; try discriminate. simpl in E.
  match goal with |- (if ?c then _ else _) <> _ => destruct c end;
    [apply step; lia | discriminate].
Qed.

(** The header loop, one iteration unfolded. *)
Lemma headers_loop_unfold fuel mb data_length offset headers :
  headers_loop fuel mb data_length offset headers =
  if offset <? data_length then
    key_length <- unpack_u32 (slice offset (offset + 4) mb) ;;
    key <- utf8_decode (slice (offset + 4) (offset + 4 + key_length) mb) ;;
    value_length <- unpack_u32 (slice (offset + 4 + key_length)
                                      (offset + 4 + key_length + 4) mb) ;;
    value <- utf8_decode (slice (offset + 4 + key_length + 4)
                                (offset + 4 + key_length + 4 + value_length) mb) ;;
    match fuel with
    | O => OutOfFuel
    | S fuel' =>
      headers_loop fuel' mb data_length
                   (offset + 4 + key_length + 4 + value_length)
                   (dict_set headers key (PStr value))
    end
  else Ok headers.
Proof. destruct fuel; reflexivity. Qed.



(** C8, as amended.  At any iteration of the header loop, a key length that
    runs past the end of the buffer makes the decoding fail: the key is cut
    at the end of the buffer and the read of the value length that follows
    finds no four bytes. *)
Theorem key_length_overrun_fails
        (fuel : nat) (mb : bytes) (data_length offset key_length : N)
        (headers : pydict) :
  offset < data_length ->
  unpack_u32 (slice offset (offset + 4) mb) = Ok key_length ->
  len mb < offset + 4 + key_length ->
  exists e, headers_loop fuel mb data_length offset headers = Raise e.
Proof.
  intros Ho Hk Hover. rewrite headers_loop_unfold.
  apply N.ltb_lt in Ho. rewrite Ho, Hk. cbn [bind].
  destruct (utf8_decode (slice (offset + 4) (offset + 4 + key_length) mb))
    as [key|e|] eqn:Ek.
  - cbn [bind]. rewrite unpack_u32_short by lia. cbn [bind]. eauto.
  - cbn [bind]. eauto.
  - now apply utf8_decode_no_fuel in Ek.
Qed.

Lemma key_length_overrun_fails_witness :
  exists e, headers_loop 14 key_overrun_example 20 9 [] = Raise e.
Proof.
  apply (@key_length_overrun_fails 14 key_overrun_example 20 9 9 []);
    reflexivity.
Defined.

(** C8, as stated, fails for a value length: here the value length at
    offset 14 is 5 and one byte is left; the value is cut to that byte and
    the headers are returned. *)
Lemma value_length_overrun_returns :
  len value_overrun_example = 19
  /\ unpack_u32 (slice 14 18 value_overrun_example) = Ok 5
  /\ decode_headers value_overrun_example
     = Ok [ (u "metadata", PDict [ (u "message_length", PInt 31);
                                   (u "version", PInt 0);
                                   (u "header_length", PInt 10) ]);
            (u "headers", PDict [ (u "a", PStr (u "b")) ]) ].
Proof. repeat split. Qed.

(** The round trip is lost on [{"a": ""}]: the block is nine bytes long, the loop compares
    the offset 9 with the header length 9 and reads no pair. *)
Lemma header_roundtrip_loses_pair :
  encode_headers [ (u "a", PStr []) ]
  = Ok [x00; x00; x00; x01; x61; x00; x00; x00; x00]
  /\ (prefix <- frame_prefix 31 9 ;;
      block <- encode_headers [ (u "a", PStr []) ] ;;
      message <- decode_headers (prefix ++ block) ;;
      Ok (dict_get message (u "headers")))
     = Ok (Some (PDict [])).
Proof. split; reflexivity. Qed.

(** The round trip is lost on a key outside ASCII too: the length written for ["é"] is 1,
    its number of code points, for two bytes of UTF-8. *)
Lemma header_length_counts_code_points :
  encode_headers [ ([233], PStr (u "x")) ]
  = Ok [x00; x00; x00; x01; xc3; xa9; x00; x00; x00; x01; x78]
  /\ (prefix <- frame_prefix 31 11 ;;
      block <- encode_headers [ ([233], PStr (u "x")) ] ;;
      decode_headers (prefix ++ block))
     = Raise UnicodeDecodeError.
Proof. split; reflexivity. Qed.

End EnvelopeProperties.

(** ** The Thrift readers: what they consume, and that they need no fuel *)

Section ReaderProperties.

Import Thrift.

Lemma readAll_Ok (k : N) (p buf p' : bytes) :
  readAll k p = Ok (buf, p') -> len p' + k = len p /\ buf = take k p /\ p' = drop k p.
Proof.
  unfold readAll. destruct (N.leb_spec k (len p)) as [Hk|Hk]; intros E; [|discriminate].
  injection E as <- <-. rewrite len_drop. repeat split. lia.
Qed.

Lemma read_signed_Ok (k : N) (p : bytes) (v : Z) (p' : bytes) :
  read_signed k p = Ok (v, p') -> len p' + k = len p.
Proof.
  unfold read_signed. intros H. apply bind_Ok in H as ([buf q] & Ha & H).
  injection H as <- <-. now apply readAll_Ok in Ha.
Qed.

Lemma readBool_Ok (p : bytes) (v : bool) (p' : bytes) :
  readBool p = Ok (v, p') -> len p' + 1 = len p.
Proof.
  unfold readBool. intros H. apply bind_Ok in H as ([b q] & Ha & H).
  injection H as <- <-. now apply read_signed_Ok in Ha.
Qed.

Lemma readDouble_Ok (p : bytes) (v : N) (p' : bytes) :
  readDouble p = Ok (v, p') -> len p' + 8 = len p.
Proof.
  unfold readDouble. intros H. apply bind_Ok in H as ([b q] & Ha & H).
  injection H as <- <-. now apply readAll_Ok in Ha.
Qed.

Lemma readBinary_Ok (p b p' : bytes) :
  readBinary p = Ok (b, p') -> len p' + 4 <= len p.
Proof.
  unfold readBinary. intros H. apply bind_Ok in H as ([size q] & Ha & H).
  apply read_signed_Ok in Ha.
  apply bind_Ok in H as (_ & _ & H). apply readAll_Ok in H. lia.
Qed.

Lemma readString_Ok (p : bytes) (s : pystr) (p' : bytes) :
  readString p = Ok (s, p') -> len p' + 4 <= len p.
Proof.
  unfold readString. intros H. apply bind_Ok in H as ([b q] & Ha & H).
  apply readBinary_Ok in Ha. apply bind_Ok in H as (s' & _ & H).
  injection H as <- <-. exact Ha.
Qed.

Lemma readFieldBegin_Ok (p : bytes) (t id : Z) (p' : bytes) :
  readFieldBegin p = Ok (t, id, p') ->
  (t = TType.STOP /\ len p' + 1 = len p) \/ (t <> TType.STOP /\ len p' + 3 = len p).
Proof.
  unfold readFieldBegin. intros H. apply bind_Ok in H as ([ty q] & Ha & H).
  apply read_signed_Ok in Ha. destruct (Z.eqb_spec ty TType.STOP).
  - injection H as <- <- <-. left. auto.
  - apply bind_Ok in H as ([i q'] & Hb & H). apply read_signed_Ok in Hb.
    injection H as <- <- <-. right. split; [auto | lia].
Qed.

Lemma readListBegin_Ok (p : bytes) (t size : Z) (p' : bytes) :
  readListBegin p = Ok (t, size, p') -> len p' + 5 = len p.
Proof.
  unfold readListBegin. intros H. apply bind_Ok in H as ([ty q] & Ha & H).
  apply read_signed_Ok in Ha. apply bind_Ok in H as ([sz q'] & Hb & H).
  apply read_signed_Ok in Hb. apply bind_Ok in H as (_ & _ & H).
  injection H as <- <- <-. lia.
Qed.

Lemma readMapBegin_Ok (p : bytes) (k v size : Z) (p' : bytes) :
  readMapBegin p = Ok (k, v, size, p') -> len p' + 6 = len p.
Proof.
  unfold readMapBegin. intros H. apply bind_Ok in H as ([kt q] & Ha & H).
  apply read_signed_Ok in Ha. apply bind_Ok in H as ([vt q'] & Hb & H).
  apply read_signed_Ok in Hb. apply bind_Ok in H as ([sz q''] & Hc & H).
  apply read_signed_Ok in Hc. apply bind_Ok in H as (_ & _ & H).
  injection H as <- <- <- <-. lia.
Qed.

Lemma readAll_no_fuel (k : N) (p : bytes) : readAll k p <> OutOfFuel.
Proof. unfold readAll. destruct (k <=? len p); discriminate. Qed.

Lemma read_signed_no_fuel (k : N) (p : bytes) : read_signed k p <> OutOfFuel.
Proof.
  unfold read_signed. apply bind_fuel; [apply readAll_no_fuel|].
  intros [b q] _. discriminate.
Qed.

Lemma readBool_no_fuel (p : bytes) : readBool p <> OutOfFuel.
Proof.
  unfold readBool. apply bind_fuel; [apply read_signed_no_fuel|].
  intros [b q] _. discriminate.
Qed.

Lemma readDouble_no_fuel (p : bytes) : readDouble p <> OutOfFuel.
Proof.
  unfold readDouble. apply bind_fuel; [apply readAll_no_fuel|].
  intros [b q] _. discriminate.
Qed.

Lemma check_length_no_fuel (size : Z) : check_length size <> OutOfFuel.
Proof. unfold check_length. destruct (size <? 0)%Z; discriminate. Qed.

Lemma readBinary_no_fuel (p : bytes) : readBinary p <> OutOfFuel.
Proof.
  unfold readBinary. apply bind_fuel; [apply read_signed_no_fuel|].
  intros [b q] _. apply bind_fuel; [apply check_length_no_fuel|].
  intros _ _. apply readAll_no_fuel.
Qed.

Lemma readString_no_fuel (p : bytes) : readString p <> OutOfFuel.
Proof.
  unfold readString. apply bind_fuel; [apply readBinary_no_fuel|].
  intros [b q] _. apply bind_fuel; [apply utf8_decode_no_fuel|]. discriminate.
Qed.

Lemma readFieldBegin_no_fuel (p : bytes) : readFieldBegin p <> OutOfFuel.
Proof.
  unfold readFieldBegin. apply bind_fuel; [apply read_signed_no_fuel|].
  intros [t q] _. destruct (t =? TType.STOP)%Z; [discriminate|].
  apply bind_fuel; [apply read_signed_no_fuel|]. intros [i q'] _. discriminate.
Qed.

Lemma readListBegin_no_fuel (p : bytes) : readListBegin p <> OutOfFuel.
Proof.
  unfold readListBegin. apply bind_fuel; [apply read_signed_no_fuel|].
  intros [t q] _. apply bind_fuel; [apply read_signed_no_fuel|].
  intros [s q'] _. apply bind_fuel; [apply check_length_no_fuel|]. discriminate.
Qed.

Lemma readMapBegin_no_fuel (p : bytes) : readMapBegin p <> OutOfFuel.
Proof.
  unfold readMapBegin. apply bind_fuel; [apply read_signed_no_fuel|].
  intros [t q] _. apply bind_fuel; [apply read_signed_no_fuel|].
  intros [t' q'] _. apply bind_fuel; [apply read_signed_no_fuel|].
  intros [s q''] _. apply bind_fuel; [apply check_length_no_fuel|]. discriminate.
Qed.


Lemma drop_value_Ok {A} (r : result (A * bytes)) (p' : bytes) :
  drop_value r = Ok p' -> exists a, r = Ok (a, p').
Proof.
  unfold drop_value. intros H. apply bind_Ok in H as ([a q] & Ha & H).
  injection H as <-. eauto.
Qed.

Lemma drop_value_no_fuel {A} (r : result (A * bytes)) :
  r <> OutOfFuel -> drop_value r <> OutOfFuel.
Proof. intros H. apply bind_fuel; [exact H|]. intros [a q] _. discriminate. Qed.

End ReaderProperties.

Section SkipProperties.

Import Thrift.

(** [skip] returns without reading on a type tag that is none of the
    eleven. *)
Lemma skip_unknown (t : Z) (fuel : nat) (p : bytes) :
  supported_type t = false -> skip (S fuel) t p = Ok p.
Proof.
  unfold supported_type. intros H.
  repeat (apply orb_false_iff in H as [H ?]).
  cbn [skip]. rewrite H. rewrite_tests. now destruct (t =? TType.STOP)%Z.
Qed.

(** The loops over a function that does not give bytes back. *)
Lemma skip_elems_shrinks (sk : Z -> bytes -> result bytes) (et : Z) :
  (forall q q', sk et q = Ok q' -> len q' <= len q) ->
  forall n p p', skip_elems sk et n p = Ok p' -> len p' <= len p.
Proof.
  intros Hs. induction n as [|n IH]; intros p p' H; cbn [skip_elems] in H.
  - injection H as <-. lia.
  - apply bind_Ok in H as (q & Ha & H). apply Hs in Ha. apply IH in H. lia.
Qed.

Lemma skip_entries_shrinks (sk : Z -> bytes -> result bytes) (kt vt : Z) :
  (forall t q q', sk t q = Ok q' -> len q' <= len q) ->
  forall n p p', skip_entries sk kt vt n p = Ok p' -> len p' <= len p.
Proof.
  intros Hs. induction n as [|n IH]; intros p p' H; cbn [skip_entries] in H.
  - injection H as <-. lia.
  - apply bind_Ok in H as (q & Ha & H). apply Hs in Ha.
    apply bind_Ok in H as (q' & Hb & H). apply Hs in Hb. apply IH in H. lia.
Qed.

Lemma skip_elems_no_fuel (sk : Z -> bytes -> result bytes) (et : Z) (bound : N) :
  (forall q q', sk et q = Ok q' -> len q' <= len q) ->
  (forall q, len q <= bound -> sk et q <> OutOfFuel) ->
  forall n p, len p <= bound -> skip_elems sk et n p <> OutOfFuel.
Proof.
  intros Hs Hf. induction n as [|n IH]; intros p Hp; cbn [skip_elems];
    [discriminate|].
  apply bind_fuel; [now apply Hf|]. intros q Ha. apply Hs in Ha. apply IH. lia.
Qed.

Lemma skip_entries_no_fuel (sk : Z -> bytes -> result bytes) (kt vt : Z) (bound : N) :
  (forall t q q', sk t q = Ok q' -> len q' <= len q) ->
  (forall t q, len q <= bound -> sk t q <> OutOfFuel) ->
  forall n p, len p <= bound -> skip_entries sk kt vt n p <> OutOfFuel.
Proof.
  intros Hs Hf. induction n as [|n IH]; intros p Hp; cbn [skip_entries];
    [discriminate|].
  apply bind_fuel; [now apply Hf|]. intros q Ha. apply Hs in Ha.
  apply bind_fuel; [apply Hf; lia|]. intros q' Hb. apply Hs in Hb.
  apply IH. lia.
Qed.

(** [skip] never gives bytes back. *)
Lemma skip_shrinks (fuel : nat) :
  (forall t p p', skip fuel t p = Ok p' -> len p' <= len p)
  /\ (forall p p', skip_fields fuel p = Ok p' -> len p' < len p).
Proof.
  induction fuel as [|fuel (IHs & IHf)];
    [repeat split; intros; discriminate|].
  split.
  - intros t p p' H. cbn [skip] in H. split_ifs H; try discriminate;
      try (injection H as <-; lia);
      try (apply drop_value_Ok in H as (a & H);
           first [ apply readBool_Ok in H | apply read_signed_Ok in H
                 | apply readDouble_Ok in H | apply readString_Ok in H ]; lia).
    + apply IHf in H. lia.
    + apply bind_Ok in H as ([[[kt vt] sz] q] & Ha & H).
      apply readMapBegin_Ok in Ha.
      apply (@skip_entries_shrinks (skip fuel) kt vt IHs) in H. lia.
    + apply bind_Ok in H as ([[et sz] q] & Ha & H).
      apply readListBegin_Ok in Ha.
      apply (@skip_elems_shrinks (skip fuel) et (IHs et)) in H. lia.
    + apply bind_Ok in H as ([[et sz] q] & Ha & H).
      apply readListBegin_Ok in Ha.
      apply (@skip_elems_shrinks (skip fuel) et (IHs et)) in H. lia.
  - intros p p' H. cbn [skip_fields] in H.
    apply bind_Ok in H as ([[t id] q] & Ha & H).
    apply readFieldBegin_Ok in Ha as [[Ht Ha]|[Ht Ha]].
    + subst t. cbn in H. injection H as <-. lia.
    + destruct (t =? TType.STOP)%Z; [injection H as <-; lia|].
      apply bind_Ok in H as (q' & Hb & H). apply IHs in Hb. apply IHf in H. lia.
Qed.

(** [skip] given more steps than its input has bytes (plus a constant) does
    not run out of them, whatever sizes the input announces. *)
Lemma skip_fuel (fuel : nat) :
  (forall t p, len p + 2 <= N.of_nat fuel -> skip fuel t p <> OutOfFuel)
  /\ (forall p, len p + 1 <= N.of_nat fuel -> skip_fields fuel p <> OutOfFuel).
Proof.
  induction fuel as [|fuel (IHs & IHf)];
    [repeat split; intros; lia|].
  destruct (skip_shrinks fuel) as (Ss & Sf).
  split.
  - intros t p H. cbn [skip].
    repeat match goal with
           | |- (if ?c then _ else _) <> _ => destruct c
           end;
      try discriminate;
      try (apply drop_value_no_fuel;
           first [ apply readBool_no_fuel | apply read_signed_no_fuel
                 | apply readDouble_no_fuel | apply readString_no_fuel ]).
    + apply IHf. lia.
    + apply bind_fuel; [apply readMapBegin_no_fuel|].
      intros [[[kt vt] sz] q] Ha. apply readMapBegin_Ok in Ha.
      apply (@skip_entries_no_fuel (skip fuel) kt vt (len q) Ss); [|lia].
      intros t' q' Hq. apply IHs. lia.
    + apply bind_fuel; [apply readListBegin_no_fuel|].
      intros [[et sz] q] Ha. apply readListBegin_Ok in Ha.
      apply (@skip_elems_no_fuel (skip fuel) et (len q) (Ss et)); [|lia].
      intros q' Hq. apply IHs. lia.
    + apply bind_fuel; [apply readListBegin_no_fuel|].
      intros [[et sz] q] Ha. apply readListBegin_Ok in Ha.
      apply (@skip_elems_no_fuel (skip fuel) et (len q) (Ss et)); [|lia].
      intros q' Hq. apply IHs. lia.
  - intros p H. cbn [skip_fields].
    apply bind_fuel; [apply readFieldBegin_no_fuel|].
    intros [[t id] q] Ha. destruct (Z.eqb_spec t TType.STOP) as [Ht|Ht];
      [discriminate|].
    apply readFieldBegin_Ok in Ha as [[Ht' Ha]|[_ Ha]]; [contradiction|].
    apply bind_fuel; [apply IHs; lia|].
    intros q' Hb. apply Ss in Hb. apply IHf. lia.
Qed.

End SkipProperties.

Section CustomReaderProperties.

Import Thrift CustomResponseMessage.

Lemma with_value_Ok {A} (g : A -> pyval) (r : result (A * bytes)) ov p' :
  with_value g r = Ok (ov, p') -> exists a, r = Ok (a, p') /\ ov = Some (g a).
Proof.
  unfold with_value. intros H. apply bind_Ok in H as ([a q] & Ha & H).
  injection H as <- <-. eauto.
Qed.

Lemma with_value_no_fuel {A} (g : A -> pyval) (r : result (A * bytes)) :
  r <> OutOfFuel -> with_value g r <> OutOfFuel.
Proof. intros H. apply bind_fuel; [exact H|]. intros [a q] _. discriminate. Qed.

Lemma read_key_shrinks (sk : Z -> bytes -> result bytes) (kt i : Z) (p : bytes)
      (k : pystr) (p' : bytes) :
  (forall q q', sk kt q = Ok q' -> len q' <= len q) ->
  read_key sk kt i p = Ok (k, p') -> len p' <= len p.
Proof.
  unfold read_key. intros Hs H. split_ifs H;
    try (apply bind_Ok in H as ([a q] & Ha & H); injection H as <- <-;
         first [ apply readBool_Ok in Ha | apply read_signed_Ok in Ha ]; lia).
  - apply readString_Ok in H. lia.
  - apply bind_Ok in H as (q & Ha & H). injection H as <- <-. now apply Hs in Ha.
Qed.

Lemma read_key_no_fuel (sk : Z -> bytes -> result bytes) (kt i : Z) (p : bytes) :
  sk kt p <> OutOfFuel -> read_key sk kt i p <> OutOfFuel.
Proof.
  intros H. unfold read_key.
  repeat match goal with
         | |- (if ?c then _ else _) <> _ => destruct c
         end;
    try (apply bind_fuel;
         [first [ apply readBool_no_fuel | apply read_signed_no_fuel ]
         | intros [a q] _; discriminate]).
  - apply readString_no_fuel.
  - apply bind_fuel; [exact H|]. discriminate.
Qed.

(** The loops over a reader and a [skip] that do not give bytes back. *)
Lemma read_elems_shrinks (rd : Z -> bytes -> result (option pyval * bytes))
      (sk : Z -> bytes -> result bytes) (et : Z) :
  (forall q ov q', rd et q = Ok (ov, q') -> len q' <= len q) ->
  (forall q q', sk et q = Ok q' -> len q' <= len q) ->
  forall n p acc v p', read_elems rd sk et n p acc = Ok (v, p') -> len p' <= len p.
Proof.
  intros Hr Hs. induction n as [|n IH]; intros p acc v p' H; cbn [read_elems] in H.
  - injection H as <- <-. lia.
  - apply bind_Ok in H as ([ov q] & Ha & H). apply Hr in Ha.
    destruct ov as [x|].
    + apply IH in H. lia.
    + apply bind_Ok in H as (q' & Hc & H). apply Hs in Hc. apply IH in H. lia.
Qed.

Lemma read_entries_shrinks (rd : Z -> bytes -> result (option pyval * bytes))
      (sk : Z -> bytes -> result bytes) (kt vt : Z) :
  (forall q ov q', rd vt q = Ok (ov, q') -> len q' <= len q) ->
  (forall t q q', sk t q = Ok q' -> len q' <= len q) ->
  forall n i p acc v p',
    read_entries rd sk kt vt i n p acc = Ok (v, p') -> len p' <= len p.
Proof.
  intros Hr Hs. induction n as [|n IH]; intros i p acc v p' H;
    cbn [read_entries] in H.
  - injection H as <- <-. lia.
  - apply bind_Ok in H as ([k q] & Ha & H).
    apply read_key_shrinks in Ha; [|apply Hs].
    apply bind_Ok in H as ([ov q'] & Hb & H). apply Hr in Hb.
    destruct ov as [x|].
    + apply IH in H. lia.
    + apply bind_Ok in H as (q'' & Hc & H). apply Hs in Hc. apply IH in H. lia.
Qed.

Lemma read_elems_no_fuel (rd : Z -> bytes -> result (option pyval * bytes))
      (sk : Z -> bytes -> result bytes) (et : Z) (bound : N) :
  (forall q ov q', rd et q = Ok (ov, q') -> len q' <= len q) ->
  (forall q q', sk et q = Ok q' -> len q' <= len q) ->
  (forall q, len q <= bound -> rd et q <> OutOfFuel) ->
  (forall q, len q <= bound -> sk et q <> OutOfFuel) ->
  forall n p acc, len p <= bound -> read_elems rd sk et n p acc <> OutOfFuel.
Proof.
  intros Hr Hs Fr Fs. induction n as [|n IH]; intros p acc Hp; cbn [read_elems];
    [discriminate|].
  apply bind_fuel; [now apply Fr|]. intros [[x|] q] Ha; apply Hr in Ha.
  - apply IH. lia.
  - apply bind_fuel; [apply Fs; lia|]. intros q' Hc. apply Hs in Hc.
    apply IH. lia.
Qed.

Lemma read_entries_no_fuel (rd : Z -> bytes -> result (option pyval * bytes))
      (sk : Z -> bytes -> result bytes) (kt vt : Z) (bound : N) :
  (forall q ov q', rd vt q = Ok (ov, q') -> len q' <= len q) ->
  (forall t q q', sk t q = Ok q' -> len q' <= len q) ->
  (forall q, len q <= bound -> rd vt q <> OutOfFuel) ->
  (forall t q, len q <= bound -> sk t q <> OutOfFuel) ->
  forall n i p acc, len p <= bound ->
                    read_entries rd sk kt vt i n p acc <> OutOfFuel.
Proof.
  intros Hr Hs Fr Fs. induction n as [|n IH]; intros i p acc Hp;
    cbn [read_entries]; [discriminate|].
  apply bind_fuel; [apply read_key_no_fuel; now apply Fs|].
  intros [k q] Ha. apply read_key_shrinks in Ha; [|apply Hs].
  apply bind_fuel; [apply Fr; lia|]. intros [[x|] q'] Hb; apply Hr in Hb.
  - apply IH. lia.
  - apply bind_fuel; [apply Fs; lia|]. intros q'' Hc. apply Hs in Hc.
    apply IH. lia.
Qed.

(** What the readers consume: a value read takes at least one byte, and the
    only result without a value is the unread input with a type tag that is
    none of the eleven. *)
Lemma readers_shrink (fuel : nat) :
  (forall t p ov p', read_typed fuel t p = Ok (ov, p') ->
     match ov with
     | Some _ => len p' < len p
     | None => p' = p /\ supported_type t = false
     end)
  /\ (forall p acc v p', read_fields fuel p acc = Ok (v, p') -> len p' < len p).
Proof.
  induction fuel as [|fuel (IHt & IHf)];
    [repeat split; intros; discriminate|].
  assert (Ht : forall t q ov q', read_typed fuel t q = Ok (ov, q') ->
                                 len q' <= len q).
  { intros t q [x|] q' H; apply IHt in H; [lia|]. destruct H as [-> _]. lia. }
  pose proof (proj1 (skip_shrinks fuel)) as Hs.
  split.
  - intros t p ov p' H. cbn [read_typed] in H. split_ifs H;
      try (apply with_value_Ok in H as (a & H & ->);
           first [ apply readBool_Ok in H | apply read_signed_Ok in H
                 | apply readDouble_Ok in H | apply readString_Ok in H ]; lia).
    + apply with_value_Ok in H as (a & H & ->). now apply IHf in H.
    + apply bind_Ok in H as ([[et sz] q] & Ha & H). apply readListBegin_Ok in Ha.
      apply with_value_Ok in H as (a & H & ->).
      apply (@read_elems_shrinks (read_typed fuel) (skip fuel) et (Ht et) (Hs et)) in H. lia.
    + apply bind_Ok in H as ([[et sz] q] & Ha & H). apply readListBegin_Ok in Ha.
      apply with_value_Ok in H as (a & H & ->).
      apply (@read_elems_shrinks (read_typed fuel) (skip fuel) et (Ht et) (Hs et)) in H. lia.
    + apply bind_Ok in H as ([[[kt vt] sz] q] & Ha & H). apply readMapBegin_Ok in Ha.
      apply with_value_Ok in H as (a & H & ->).
      apply (@read_entries_shrinks (read_typed fuel) (skip fuel) kt vt (Ht vt) Hs) in H. lia.
    + injection H as <- <-. split; [reflexivity|].
      unfold supported_type. rewrite_tests. reflexivity.
  - intros p acc v p' H. cbn [read_fields] in H.
    apply bind_Ok in H as ([[t id] q] & Ha & H).
    apply readFieldBegin_Ok in Ha as [[Ht' Ha]|[Ht' Ha]].
    + subst t. cbn in H. injection H as <- <-. lia.
    + destruct (t =? TType.STOP)%Z; [injection H as <- <-; lia|].
      apply bind_Ok in H as ([ov q'] & Hb & H). apply Ht in Hb.
      destruct ov as [x|].
      * apply IHf in H. lia.
      * apply bind_Ok in H as (q'' & Hc & H).
        apply IHf in H. apply Hs in Hc. lia.
Qed.

Lemma read_typed_shrinks (fuel : nat) (t : Z) (p : bytes) ov (p' : bytes) :
  read_typed fuel t p = Ok (ov, p') -> len p' <= len p.
Proof.
  intros H. apply (readers_shrink fuel) in H. destruct ov as [x|]; [lia|].
  destruct H as [-> _]. lia.
Qed.

(** A reader given more steps than its input has bytes (plus a constant)
    does not run out of them, whatever sizes the input announces: the loops
    over the elements of a container take no step of their own. *)
Lemma readers_fuel (fuel : nat) :
  (forall t p, len p + 2 <= N.of_nat fuel -> read_typed fuel t p <> OutOfFuel)
  /\ (forall p acc, len p + 1 <= N.of_nat fuel ->
                   read_fields fuel p acc <> OutOfFuel).
Proof.
  induction fuel as [|fuel (IHt & IHf)];
    [repeat split; intros; lia|].
  pose proof (proj1 (skip_shrinks fuel)) as Hs.
  pose proof (proj1 (skip_fuel fuel)) as Fs.
  pose proof (@read_typed_shrinks fuel) as Ht.
  split.
  - intros t p H. cbn [read_typed].
    repeat match goal with
           | |- (if ?c then _ else _) <> _ => destruct c
           end;
      try discriminate;
      try (apply with_value_no_fuel;
           first [ apply readBool_no_fuel | apply read_signed_no_fuel
                 | apply readDouble_no_fuel | apply readString_no_fuel ]).
    + apply with_value_no_fuel. apply IHf. lia.
    + apply bind_fuel; [apply readListBegin_no_fuel|].
      intros [[et sz] q] Ha. apply readListBegin_Ok in Ha.
      apply with_value_no_fuel.
      apply (@read_elems_no_fuel (read_typed fuel) (skip fuel) et (len q)
               (Ht et) (Hs et)); [| |lia];
        intros q' Hq; [apply IHt | apply Fs]; lia.
    + apply bind_fuel; [apply readListBegin_no_fuel|].
      intros [[et sz] q] Ha. apply readListBegin_Ok in Ha.
      apply with_value_no_fuel.
      apply (@read_elems_no_fuel (read_typed fuel) (skip fuel) et (len q)
               (Ht et) (Hs et)); [| |lia];
        intros q' Hq; [apply IHt | apply Fs]; lia.
    + apply bind_fuel; [apply readMapBegin_no_fuel|].
      intros [[[kt vt] sz] q] Ha. apply readMapBegin_Ok in Ha.
      apply with_value_no_fuel.
      apply (@read_entries_no_fuel (read_typed fuel) (skip fuel) kt vt (len q)
               (Ht vt) Hs); [| |lia].
      * intros q' Hq. apply IHt. lia.
      * intros t' q' Hq. apply Fs. lia.
  - intros p acc H. cbn [read_fields].
    apply bind_fuel; [apply readFieldBegin_no_fuel|].
    intros [[t id] q] Ha. destruct (Z.eqb_spec t TType.STOP) as [Ht'|Ht'];
      [discriminate|].
    apply readFieldBegin_Ok in Ha as [[Ht'' Ha]|[_ Ha]]; [contradiction|].
    apply bind_fuel; [apply IHt; lia|].
    intros [[x|] q'] Hb; apply Ht in Hb.
    + apply IHf. lia.
    + apply bind_fuel; [apply Fs; lia|]. intros q'' Hc. apply Hs in Hc.
      apply IHf. lia.
Qed.

End CustomReaderProperties.

Section ReplyProperties.

Import Thrift CustomResponseMessage.

Lemma extract_fields_shape (fuel : nat) : forall p acc v p',
  extract_fields fuel p acc = Ok (v, p') ->
  exists fields, v = PDict [ (u "fields", PList fields) ].
Proof.
  induction fuel as [|fuel IH]; intros p acc v p' H; [discriminate|].
  cbn [extract_fields] in H.
  apply bind_Ok in H as ([[t id] q] & _ & H).
  destruct (t =? TType.STOP)%Z; [injection H as <- <-; eauto|].
  apply bind_Ok in H as ([[x|] q'] & _ & H).
  - now apply IH in H.
  - apply bind_Ok in H as (q'' & _ & H). now apply IH in H.
Qed.

Lemma extract_fields_fuel (fuel : nat) : forall p acc,
  len p + 1 <= N.of_nat fuel -> extract_fields fuel p acc <> OutOfFuel.
Proof.
  induction fuel as [|fuel IH]; intros p acc H; [lia|].
  cbn [extract_fields].
  apply bind_fuel; [apply readFieldBegin_no_fuel|].
  intros [[t id] q] Ha. destruct (Z.eqb_spec t TType.STOP) as [Ht|Ht];
    [discriminate|].
  apply readFieldBegin_Ok in Ha as [[Ht' Ha]|[_ Ha]]; [contradiction|].
  apply bind_fuel; [apply (readers_fuel fuel); lia|].
  intros [[x|] q'] Hb; apply (readers_shrink fuel) in Hb.
  - apply IH. lia.
  - destruct Hb as [-> Hb]. destruct fuel as [|f]; [lia|].
    rewrite skip_unknown by exact Hb. cbn [bind]. apply IH. lia.
Qed.

Lemma extract_reply_total (fuel : nat) (p : bytes) :
  len p + 1 <= N.of_nat fuel ->
  exists v, _extract_reply fuel p = Ok v
    /\ ((exists fields, v = PDict [ (u "fields", PList fields) ])
        \/ (exists e, v = PDict [ (u "error", PExcStr [] e) ])).
Proof.
  intros H. unfold _extract_reply.
  destruct (extract_fields fuel p []) as [[v q]|e|] eqn:E.
  - exists v. split; [reflexivity|]. left. eapply extract_fields_shape; eauto.
  - eexists. split; [reflexivity|]. right. eauto.
  - now apply extract_fields_fuel in E.
Qed.

Lemma read_typed_unknown (fuel : nat) (t : Z) (p : bytes) :
  supported_type t = false -> read_typed (S fuel) t p = Ok (None, p).
Proof.
  unfold supported_type. intros H.
  repeat (apply orb_false_iff in H as [H ?]).
  cbn [read_typed]. rewrite H. rewrite_tests. reflexivity.
Qed.

Lemma get_type_name_unknown (t : Z) :
  supported_type t = false -> _get_type_name t = (u "unknown-" ++ str_of_Z t)%list.
Proof.
  unfold supported_type. intros H.
  repeat (apply orb_false_iff in H as [H ?]).
  unfold _get_type_name. rewrite H. rewrite_tests. reflexivity.
Qed.

(** C3, as amended.  Of the two kinds of bad field only the unrecognised
    type tag becomes a placeholder.  [_extract_reply] returns for every
    input, with [{"fields": ...}] or with [{"error": str(e)}], so that
    nothing reaches its caller.  A field whose type tag is none of the eleven
    is kept, with its id, the type name ["unknown-<tag>"] and a note as its
    value; [skip] reads nothing for such a tag, and the loop goes on with the
    bytes that follow the field header, in [_extract_reply] as in the nested
    [_read_struct].  An exception raised while the value of a field is read
    is not turned into a placeholder: it leaves the field loop, the fields
    read so far being dropped, and becomes the whole body. *)
Theorem reply_is_all_or_nothing :
  (forall (p : bytes) (k : nat),
     exists v, _extract_reply (S (List.length p) + k) p = Ok v
       /\ ((exists fields, v = PDict [ (u "fields", PList fields) ])
           \/ (exists e, v = PDict [ (u "error", PExcStr [] e) ])))
  /\ (forall fuel p fields t id q,
        readFieldBegin p = Ok (t, id, q) -> t <> TType.STOP ->
        supported_type t = false ->
        let placeholder text :=
          PDict [ (u "field_id", PInt id);
                  (u "field_type", PStr (u "unknown-" ++ str_of_Z t)%list);
                  (u "value", PDict [ (u "note", PStr text) ]) ] in
        skip (S fuel) t q = Ok q
        /\ extract_fields (S (S fuel)) p fields
           = extract_fields (S fuel) q
               (fields ++ [ placeholder (u "Unknown type " ++ str_of_Z t
                                           ++ u " (skipped)")%list ])
        /\ read_fields (S (S fuel)) p fields
           = read_fields (S fuel) q
               (fields ++ [ placeholder (u "Unknown type " ++ str_of_Z t)%list ]))
  /\ (forall fuel p fields t id q e,
        readFieldBegin p = Ok (t, id, q) -> t <> TType.STOP ->
        read_typed fuel t q = Raise e ->
        extract_fields (S fuel) p fields = Raise e
        /\ read_fields (S fuel) p fields = Raise e
        /\ (fields = [] ->
            _extract_reply (S fuel) p = Ok (PDict [ (u "error", PExcStr [] e) ]))).
Proof.
  split; [|split].
  - intros p k. apply extract_reply_total. unfold len. lia.
  - intros fuel p fields t id q Hb Ht Hu placeholder.
    apply Z.eqb_neq in Ht.
    split; [now apply skip_unknown|]. split.
    + cbn [extract_fields]. rewrite Hb; cbn [bind]; rewrite Ht.
      rewrite read_typed_unknown by exact Hu. cbn [bind].
      rewrite skip_unknown by exact Hu. cbn [bind].
      rewrite get_type_name_unknown by exact Hu. reflexivity.
    + cbn [read_fields]. rewrite Hb; cbn [bind]; rewrite Ht.
      rewrite read_typed_unknown by exact Hu. cbn [bind].
      rewrite skip_unknown by exact Hu. cbn [bind].
      rewrite get_type_name_unknown by exact Hu. reflexivity.
  - intros fuel p fields t id q e Hb Ht Hr.
    apply Z.eqb_neq in Ht.
    assert (E : extract_fields (S fuel) p fields = Raise e).
    { cbn [extract_fields]. now rewrite Hb; cbn [bind]; rewrite Ht, Hr. }
    split; [exact E|]. split.
    + cbn [read_fields]. now rewrite Hb; cbn [bind]; rewrite Ht, Hr.
    + intros ->. unfold _extract_reply. now rewrite E.
Qed.

(** The two kinds of bad field at work.  In [unknown_tag_body] the first
    field has the type tag 1: it is kept as a placeholder and the field that
    follows is decoded.  In [truncated_body] the value of the second field is
    cut short: reading it fails, the failure leaves both field loops and
    becomes the whole body. *)
Lemma reply_is_all_or_nothing_witness :
  (readFieldBegin unknown_tag_body
   = Ok (1%Z, 5%Z, [x08; x00; x01; x00; x00; x00; x2a; x00])
   /\ _extract_reply 20 unknown_tag_body
      = Ok (PDict [ (u "fields",
                     PList [ PDict [ (u "field_id", PInt 5);
                                     (u "field_type", PStr (u "unknown-1"));
                                     (u "value",
                                      PDict [ (u "note",
                                               PStr (u "Unknown type 1 (skipped)")) ]) ];
                             PDict [ (u "field_id", PInt 1);
                                     (u "field_type", PStr (u "i32"));
                                     (u "value", PInt 42) ] ]) ]))
  /\ readFieldBegin (skipn 7 truncated_body) = Ok (8%Z, 2%Z, [x00; x00])
  /\ read_typed 3 8 [x00; x00] = Raise EOFError
  /\ extract_fields 4 (skipn 7 truncated_body) [] = Raise EOFError
  /\ read_fields 4 (skipn 7 truncated_body) [] = Raise EOFError
  /\ _extract_reply 4 (skipn 7 truncated_body)
     = Ok (PDict [ (u "error", PExcStr [] EOFError) ]).
Proof.
  split.
  - split; [reflexivity|].
    destruct (proj1 (proj2 reply_is_all_or_nothing) 18%nat unknown_tag_body []
                    1%Z 5%Z [x08; x00; x01; x00; x00; x00; x2a; x00])
      as (_ & E & _); [reflexivity | discriminate | reflexivity |].
    unfold _extract_reply. rewrite E. reflexivity.
  - split; [reflexivity|]. split; [reflexivity|].
    destruct (proj2 (proj2 reply_is_all_or_nothing) 3%nat
                    (skipn 7 truncated_body) []
                    8%Z 2%Z [x00; x00] EOFError) as (E1 & E2 & E3);
      [reflexivity | discriminate | reflexivity |].
    split; [exact E1|]. split; [exact E2 | exact (E3 eq_refl)].
Defined.

(** C3, as stated, fails: the first field is well formed and the second is
    cut short; the body that comes out holds the error text alone, with
    neither the first field nor a placeholder for the second.  Without the
    second field the first is decoded. *)
Lemma bad_field_drops_the_struct :
  _extract_reply 20 truncated_body = Ok (PDict [ (u "error", PExcStr [] EOFError) ])
  /\ _extract_reply 20 (firstn 7 truncated_body ++ [x00])
     = Ok (PDict [ (u "fields",
                    PList [ PDict [ (u "field_id", PInt 1);
                                    (u "field_type", PStr (u "i32"));
                                    (u "value", PInt 42) ] ]) ]).
Proof. repeat split. Qed.



(** The bound does not depend on the sizes a frame announces: for
    [announcing_frame] it is 30 steps, and the 64 elements of the list, for
    which [skip] reads nothing, are decoded as 64 notes. *)
Lemma announced_size_beyond_bound :
  enough_fuel announcing_frame = 30%nat
  /\ init announcing_frame
     = Ok [ (u "method", PStr (u "m"));
            (u "type", PStr (u "reply"));
            (u "seqid", PInt 1);
            (u "header", PNone);
            (u "reply",
             PDict [ (u "fields",
                      PList [ PDict [ (u "field_id", PInt 1);
                                      (u "field_type", PStr (u "list"));
                                      (u "value",
                                       PList
                                         (repeat
                                            (note (u "Unknown element type unknown-1"))
                                            64)) ] ]) ]);
            (u "length", PInt 22) ].
Proof. split; reflexivity. Qed.

(** The message header of a strict binary frame: the kind byte is read and
    handed back, the rest does not depend on it. *)
Lemma readMessageBegin_strict (kind : byte) (rest : bytes) :
  readMessageBegin (x80 :: x01 :: x00 :: kind :: rest)
  = (' (name, p) <- readString rest ;;
     ' (seqid, p) <- readI32 p ;;
     Ok (PStr name, Z.of_N (b2n kind), seqid, p)).
Proof.
  unfold readMessageBegin, readI32 at 1, read_signed at 1, readAll at 1.
  replace (4 <=? len (x80 :: x01 :: x00 :: kind :: rest)) with true
    by (symmetry; apply N.leb_le; unfold len; simpl List.length; lia).
  replace (take 4 (x80 :: x01 :: x00 :: kind :: rest)) with [x80; x01; x00; kind]
    by (destruct rest; reflexivity).
  replace (drop 4 (x80 :: x01 :: x00 :: kind :: rest)) with rest
    by (destruct rest; reflexivity).
  destruct kind; reflexivity.
Qed.

End ReplyProperties.

Section DecodeProperties.

Import FrameLocator EnvelopeCodec MessageCodec.

Variable ThriftMessage_read : bytes -> library_outcome.

Lemma serializable_dict_set (d : pydict) (k : pystr) (v : pyval) :
  serializable_items d = true -> json_serializable v = true ->
  serializable_items (dict_set d k v) = true.
Proof.
  unfold serializable_items. intros Hd Hv.
  induction d as [|[k' v'] r IH]; simpl in *; [now rewrite Hv|].
  apply andb_true_iff in Hd as [H1 H2].
  destruct (pystr_eqb k' k); simpl; rewrite ?Hv, ?H1, ?H2, ?IH; auto.
Qed.

Lemma headers_loop_serializable (mb : bytes) (dl : N) : forall fuel offset hs r,
  serializable_items hs = true ->
  headers_loop fuel mb dl offset hs = Ok r -> serializable_items r = true.
Proof.
  induction fuel as [|fuel IH]; intros offset hs r Hs H;
    rewrite headers_loop_unfold in H;
    (destruct (offset <? dl); [|now injection H as <-]);
    apply bind_Ok in H as (kl & _ & H); apply bind_Ok in H as (key & _ & H);
    apply bind_Ok in H as (vl & _ & H); apply bind_Ok in H as (value & _ & H).
  - discriminate.
  - eapply IH; [|exact H]. now apply serializable_dict_set.
Qed.

(** The header document holds numbers and strs only. *)
Lemma decode_headers_serializable (header : bytes) (message : pydict) :
  decode_headers header = Ok message -> serializable_items message = true.
Proof.
  unfold decode_headers. intros H.
  apply bind_Ok in H as (ml & _ & H). apply bind_Ok in H as (v & _ & H).
  apply bind_Ok in H as (hl & _ & H). apply bind_Ok in H as (hs & Hl & H).
  injection H as <-. apply headers_loop_serializable in Hl; [|reflexivity].
  unfold serializable_items in *. simpl. now rewrite Hl.
Qed.







End DecodeProperties.

Section HandlerProperties.

Import Thrift CustomResponseMessage MessageCodec.

Lemma custom_Ok (frame : bytes) (m : message_object) :
  custom frame = Ok m -> exists d, m = CustomObject d /\ init frame = Ok d.
Proof.
  unfold custom. destruct (init frame) as [d|e|]; try discriminate.
  intros H. injection H as <-. eauto.
Qed.

Lemma try_candidates_custom lib (cs : list bytes) (thrift_frame : bytes) (d : pydict) :
  try_candidates lib cs thrift_frame = Ok (CustomObject d) ->
  exists idx, init (drop idx thrift_frame) = Ok d.
Proof.
  induction cs as [|c rest IH]; cbn [try_candidates]; [discriminate|].
  destruct (find thrift_frame c) as [idx|]; [|exact IH].
  destruct (bytes_eqb c reply_marker || bytes_eqb c variant_reply_marker).
  - destruct (custom (drop idx thrift_frame)) as [m|e|] eqn:E;
      [|exact IH|discriminate].
    intros H. injection H as ->. apply custom_Ok in E as (d' & E1 & E2).
    injection E1 as <-. eauto.
  - destruct (lib (drop idx thrift_frame)); try exact IH; [discriminate|].
    destruct (custom (drop idx thrift_frame)) as [m|e|] eqn:E;
      [|exact IH|discriminate].
    intros H. injection H as ->. apply custom_Ok in E as (d' & E1 & E2).
    injection E1 as <-. eauto.
Qed.

(** The document of the handler is made of the name and the sequence id of
    the message header and of what [_extract_reply] reads behind it. *)
Lemma init_document (thrift_frame : bytes) (d : pydict) :
  init thrift_frame = Ok d ->
  exists name kind seqid p body,
    readMessageBegin thrift_frame = Ok (name, kind, seqid, p)
    /\ _extract_reply (enough_fuel thrift_frame) p = Ok body
    /\ d = [ (u "method", name);
             (u "type", PStr (u "reply"));
             (u "seqid", PInt seqid);
             (u "header", PNone);
             (u "reply", body);
             (u "length", PInt (Z.of_N (len thrift_frame))) ].
Proof.
  intros H. unfold init in H.
  apply bind_Ok in H as ([[[name t] s] p] & Hm & H).
  apply bind_Ok in H as (reply & Hr & H). injection H as <-.
  exists name, t, s, p, reply. auto.
Qed.

(** C10. Whatever frame the custom handler decodes, its document has the
    name and the sequence id of the message header, the type ["reply"]
    whatever message kind was read, and under ["reply"] the body that
    [_extract_reply] reads from the bytes behind the header (there is no
    ["args"]); two strict binary frames that differ in the message-kind byte
    alone give the same document; and every document of the handler that
    [decode_thrift_message] returns, by the direct attempt, by a reply marker
    or after the library's unhashable-struct error, is this document for the
    frame from some offset on. *)
Theorem custom_handler_always_reply :
  (forall (thrift_frame : bytes) (d : pydict),
     init thrift_frame = Ok d ->
     exists name kind seqid p body,
       readMessageBegin thrift_frame = Ok (name, kind, seqid, p)
       /\ _extract_reply (enough_fuel thrift_frame) p = Ok body
       /\ d = [ (u "method", name);
                (u "type", PStr (u "reply"));
                (u "seqid", PInt seqid);
                (u "header", PNone);
                (u "reply", body);
                (u "length", PInt (Z.of_N (len thrift_frame))) ])
  /\ (forall (kind kind' : byte) (rest : bytes),
        init (x80 :: x01 :: x00 :: kind :: rest)
        = init (x80 :: x01 :: x00 :: kind' :: rest))
  /\ (forall (ThriftMessage_read : bytes -> library_outcome)
             (thrift_frame : bytes) (d : pydict),
        decode_thrift_message ThriftMessage_read thrift_frame
        = Ok (CustomObject d) ->
        exists idx name kind seqid p body,
          readMessageBegin (drop idx thrift_frame) = Ok (name, kind, seqid, p)
          /\ _extract_reply (enough_fuel (drop idx thrift_frame)) p = Ok body
          /\ d = [ (u "method", name);
                   (u "type", PStr (u "reply"));
                   (u "seqid", PInt seqid);
                   (u "header", PNone);
                   (u "reply", body);
                   (u "length", PInt (Z.of_N (len (drop idx thrift_frame)))) ]).
Proof.
  split; [exact init_document|]. split.
  - intros kind kind' rest. unfold init.
    rewrite !readMessageBegin_strict.
    destruct (readString rest) as [[name p]|e|]; try reflexivity. cbn [bind].
    destruct (readI32 p) as [[seqid q]|e|]; reflexivity.
  - intros lib frame d H. unfold decode_thrift_message in H.
    assert (Hc : try_candidates lib candidates frame = Ok (CustomObject d) ->
                 exists idx, init (drop idx frame) = Ok d)
      by apply try_candidates_custom.
    assert (Hd : exists idx, init (drop idx frame) = Ok d).
    { destruct (_ && _); [|exact (Hc H)].
      destruct (custom frame) as [m|e|] eqn:E; [|exact (Hc H)|discriminate].
      injection H as ->. apply custom_Ok in E as (d' & E1 & E2).
      injection E1 as <-. exists 0%N. rewrite drop_skipn. exact E2. }
    destruct Hd as (idx & Hd). exists idx. now apply init_document.
Qed.

(** A call frame is decoded by the handler as a reply that holds the field
    of the call's struct, also when it reaches the handler through
    [decode_thrift_message] after the library's unhashable-struct error. *)
Lemma custom_handler_always_reply_witness :
  init call_frame_with_field = Ok call_frame_with_field_document
  /\ decode_thrift_message (fun _ => LibUnhashable) call_frame_with_field
     = Ok (CustomObject call_frame_with_field_document)
  /\ readMessageBegin call_frame_with_field
     = Ok (PStr (u "m"), TMessageType.CALL, 1%Z, call_frame_body)
  /\ _extract_reply (enough_fuel call_frame_with_field) call_frame_body
     = Ok (PDict [ (u "fields",
                    PList [ PDict [ (u "field_id", PInt 1);
                                    (u "field_type", PStr (u "i32"));
                                    (u "value", PInt 42) ] ]) ])
  /\ exists name kind seqid p body,
       readMessageBegin call_frame_with_field = Ok (name, kind, seqid, p)
       /\ _extract_reply (enough_fuel call_frame_with_field) p = Ok body
       /\ call_frame_with_field_document
          = [ (u "method", name);
              (u "type", PStr (u "reply"));
              (u "seqid", PInt seqid);
              (u "header", PNone);
              (u "reply", body);
              (u "length", PInt (Z.of_N (len call_frame_with_field))) ].
Proof.
  split; [reflexivity|]. split; [reflexivity|].
  split; [reflexivity|]. split; [reflexivity|].
  apply (proj1 custom_handler_always_reply call_frame_with_field). reflexivity.
Defined.

End HandlerProperties.

Section InferenceProperties.

Import Thrift Encoder.

Variable py : builtins.
Variable P : TProtocol.

Lemma for_each_map {A B} (f : A -> B) (body : B -> pstate P -> result (pstate P))
      (l : list A) : forall s,
  for_each P (map f l) body s = for_each P l (fun x => body (f x)) s.
Proof.
  induction l as [|x r IH]; intros s; cbn [map for_each]; [reflexivity|].
  destruct (body (f x) s); cbn [bind]; auto.
Qed.

Lemma infer_list_cases (items : list pyval) :
  (items <> [] -> forallb is_bool items = true ->
   infer_list_element_type items = TType.BOOL)
  /\ (items <> [] -> forallb is_bool items = false ->
      forallb is_int items = true ->
      infer_list_element_type items = TType.I32)
  /\ (items <> [] -> forallb is_float items = true ->
      infer_list_element_type items = TType.DOUBLE)
  /\ (items <> [] -> forallb is_scalar items = true ->
      forallb is_int items = false -> forallb is_float items = false ->
      infer_list_element_type items = TType.STRING)
  /\ (items = [] -> infer_list_element_type items = TType.STRUCT)
  /\ (forallb is_scalar items = false ->
      infer_list_element_type items = TType.STRUCT).
Proof.
  assert (Hb : forall l, forallb is_bool l = true -> forallb is_int l = true).
  { induction l as [|[] r IH]; simpl; auto; discriminate. }
  assert (Hi : forall l, forallb is_int l = true -> forallb is_scalar l = true).
  { induction l as [|[] r IH]; simpl; auto; discriminate. }
  assert (Hf : forall l, forallb is_float l = true -> forallb is_scalar l = true).
  { induction l as [|[] r IH]; simpl; auto; discriminate. }
  assert (Hfb : forall l, l <> [] -> forallb is_float l = true ->
                          forallb is_int l = false).
  { intros [|[] r]; simpl; intros; congruence. }
  unfold infer_list_element_type. repeat split.
  - intros Hn H. destruct items; [congruence|].
    rewrite (Hi _ (Hb _ H)), H. reflexivity.
  - intros Hn H H'. destruct items; [congruence|].
    rewrite (Hi _ H'), H, H'. reflexivity.
  - intros Hn H. destruct items as [|x r]; [congruence|].
    rewrite (Hf _ H), H.
    assert (E : forallb is_int (x :: r) = false) by (apply Hfb; congruence).
    rewrite E. destruct (forallb is_bool (x :: r)) eqn:Eb; [|reflexivity].
    apply Hb in Eb. congruence.
  - intros Hn H H1 H2. destruct items as [|x r]; [congruence|].
    rewrite H, H1, H2. destruct (forallb is_bool (x :: r)) eqn:Eb; [|reflexivity].
    apply Hb in Eb. congruence.
  - intros ->. reflexivity.
  - intros H. rewrite H. now rewrite andb_false_r.
Qed.

(** C7, as amended.  A list field that names no element type announces the
    type inferred from its items and writes them as that type: Bool, I32,
    Double or String for a non-empty list of booleans, integers, floats or
    other scalars, and Struct for an empty list or one with a non-scalar
    item.  A set field announces String when all its items are scalars (an
    empty set included) and Struct otherwise, whatever [element_type] says.
    A map field that names no key or value type announces String for
    both. *)
Theorem container_type_inference :
  (forall fuel field items s,
     truthy (get field (u "element_type")) = false ->
     get field (u "value") = PList items ->
     write_value py P (S fuel) TType.LIST field s
     = (let element_type := infer_list_element_type items in
        s <- writeListBegin P element_type (len items) s ;;
        s <- for_each P items (write_list_item py P fuel element_type) s ;;
        writeListEnd P s))
  /\ (forall fuel field items s,
        get field (u "value") = PList items ->
        write_value py P (S fuel) TType.SET field s
        = (let element_type := infer_set_element_type items in
           s <- writeSetBegin P element_type (len items) s ;;
           s <- for_each P items (write_set_item py P fuel element_type) s ;;
           writeSetEnd P s))
  /\ (forall fuel field d s,
        truthy (get field (u "key_type")) = false ->
        truthy (get field (u "value_type")) = false ->
        get field (u "value") = PDict d ->
        write_value py P (S fuel) TType.MAP field s
        = (s <- writeMapBegin P (Some TType.STRING) (Some TType.STRING) (len d) s ;;
           s <- for_each P d (fun kv s =>
                  s <- write_field_value py P fuel TType.STRING (PStr (fst kv)) s ;;
                  write_field_value py P fuel TType.STRING (snd kv) s) s ;;
           writeMapEnd P s))
  /\ (forall items,
        (items <> [] -> forallb is_bool items = true ->
         infer_list_element_type items = TType.BOOL)
        /\ (items <> [] -> forallb is_bool items = false ->
            forallb is_int items = true ->
            infer_list_element_type items = TType.I32)
        /\ (items <> [] -> forallb is_float items = true ->
            infer_list_element_type items = TType.DOUBLE)
        /\ (items <> [] -> forallb is_scalar items = true ->
            forallb is_int items = false -> forallb is_float items = false ->
            infer_list_element_type items = TType.STRING)
        /\ (items = [] -> infer_list_element_type items = TType.STRUCT)
        /\ (forallb is_scalar items = false ->
            infer_list_element_type items = TType.STRUCT))
  /\ (forall items,
        (forallb is_scalar items = true ->
         infer_set_element_type items = TType.STRING)
        /\ (forallb is_scalar items = false ->
            infer_set_element_type items = TType.STRUCT)).
Proof.
  split; [|split; [|split; [|split]]].
  - intros fuel field items s He Hv.
    cbn [write_value]. rewrite Hv, He.
    change (TType.LIST =? TType.BOOL)%Z with false.
    cbn -[infer_list_element_type len for_each write_field_value write_struct].
    destruct items; reflexivity.
  - intros fuel field items s Hv.
    cbn [write_value]. rewrite Hv.
    cbn -[infer_set_element_type len for_each write_field_value write_struct].
    destruct items; reflexivity.
  - intros fuel field d s Hk Hv Hd.
    cbn [write_value]. rewrite Hd. unfold or_string. rewrite Hk, Hv.
    cbn -[len for_each write_field_value write_struct].
    unfold len. rewrite length_map.
    destruct (writeMapBegin P (Some TType.STRING) (Some TType.STRING) _ s)
      as [s1| |]; try reflexivity.
    cbn [bind]. rewrite for_each_map. reflexivity.
  - apply infer_list_cases.
  - intros items. unfold infer_set_element_type.
    split; intros ->; reflexivity.
Qed.

End InferenceProperties.

Section EncoderExamples.

Import Thrift Encoder.

(** C7, as stated, fails: the same two integers are announced as I32 in a
    list and as String in a set (and written as the strs "1" and "2"), and an
    empty list is announced as Struct. *)
Lemma set_and_list_infer_differently :
  (fun py => write_value py TBinaryProtocol.protocol 3 TType.LIST
               [ (u "value", PList [PInt 1; PInt 2]) ] [])
  = (fun _ => Ok [x08; x00; x00; x00; x02;
                  x00; x00; x00; x01; x00; x00; x00; x02])
  /\ (fun py => write_value py TBinaryProtocol.protocol 3 TType.SET
                  [ (u "value", PList [PInt 1; PInt 2]) ] [])
     = (fun _ => Ok [x0b; x00; x00; x00; x02;
                     x00; x00; x00; x01; x31; x00; x00; x00; x01; x32])
  /\ (fun py => write_value py TBinaryProtocol.protocol 3 TType.LIST
                  [ (u "value", PList []) ] [])
     = (fun _ => Ok [x0c; x00; x00; x00; x00]).
Proof. repeat split. Qed.

(** C1, as stated, fails: the set of the integers 1 and 2 comes back as the
    set of the strs "1" and "2". *)
Lemma set_of_integers_comes_back_as_strings :
  (fun py compact_protocol =>
     write_thrift_message py compact_protocol false set_message)
  = (fun _ _ => Ok set_message_frame)
  /\ (fun lib => MessageCodec.decode_thrift_message lib set_message_frame)
     = (fun _ => Ok (CustomObject
          [ (u "method", PStr (u "m"));
            (u "type", PStr (u "reply"));
            (u "seqid", PInt 1);
            (u "header", PNone);
            (u "reply", PDict [ (u "fields", PList [
               PDict [ (u "field_id", PInt 1);
                       (u "field_type", PStr (u "set"));
                       (u "value", PList [PStr (u "1"); PStr (u "2")]) ] ]) ]);
            (u "length", PInt 32) ]))
  /\ PList [PStr (u "1"); PStr (u "2")] <> PList [PInt 1; PInt 2].
Proof. repeat split. discriminate. Qed.

End EncoderExamples.

(** ** Packing and unpacking *)

Section PackingProperties.

Lemma b2n_bound (b : byte) : b2n b < 256.
Proof. unfold b2n. pose proof (Byte.to_N_bounded b). lia. Qed.

Lemma b2n_n2b (n : N) : n < 256 -> b2n (n2b n) = n.
Proof.
  intros H. unfold b2n, n2b. rewrite N.mod_small by exact H.
  destruct (Byte.of_N n) as [b|] eqn:E.
  - now apply Byte.to_of_N.
  - apply Byte.of_N_None_iff in E. lia.
Qed.

Lemma b2n_n2b_mod (n : N) : b2n (n2b n) = n mod 256.
Proof.
  unfold n2b. rewrite <- (N.Div0.mod_mod n 256) at 1.
  fold (n2b (n mod 256)). apply b2n_n2b. apply N.mod_lt. discriminate.
Qed.

Lemma be_value_acc_app (a b : bytes) : forall acc,
  be_value_acc acc (a ++ b) = be_value_acc (be_value_acc acc a) b.
Proof. induction a as [|x a IH]; intros acc; simpl; auto. Qed.

Lemma length_be_bytes (k : nat) : forall n, List.length (be_bytes k n) = k.
Proof.
  induction k as [|k IH]; intros n; simpl; [reflexivity|].
  rewrite length_app, IH. simpl. lia.
Qed.

Lemma len_be_bytes (k : nat) (n : N) : len (be_bytes k n) = N.of_nat k.
Proof. unfold len. now rewrite length_be_bytes. Qed.

Lemma be_value_acc_be_bytes (k : nat) : forall acc n,
  be_value_acc acc (be_bytes k n) = acc * 256 ^ N.of_nat k + n mod 256 ^ N.of_nat k.
Proof.
  induction k as [|k IH]; intros acc n.
  - simpl. rewrite N.mod_1_r. lia.
  - cbn [be_bytes]. rewrite be_value_acc_app, IH. cbn [be_value_acc].
    rewrite b2n_n2b_mod.
    replace (N.of_nat (S k)) with (N.succ (N.of_nat k)) by lia.
    rewrite N.pow_succ_r'.
    rewrite (N.Div0.mod_mul_r n 256 (256 ^ N.of_nat k)). lia.
Qed.

Lemma be_value_be_bytes (k : nat) (n : N) :
  n < 256 ^ N.of_nat k -> be_value (be_bytes k n) = n.
Proof.
  intros H. unfold be_value. rewrite be_value_acc_be_bytes.
  rewrite N.mod_small by exact H. lia.
Qed.

Lemma pow256 (k : nat) : 256 ^ N.of_nat k = 2 ^ (8 * N.of_nat k).
Proof. rewrite N.pow_mul_r. reflexivity. Qed.

Lemma to_signed_of_signed (w : N) (z : Z) :
  0 < w -> in_signed_range w z = true -> to_signed w (of_signed w z) = z.
Proof.
  intros Hw H. unfold in_signed_range in H.
  apply andb_true_iff in H as [H1 H2].
  apply Z.leb_le in H1. apply Z.ltb_lt in H2.
  assert (E : (2 ^ Z.of_N w = 2 * 2 ^ (Z.of_N w - 1))%Z).
  { rewrite <- Z.pow_succ_r by lia. f_equal. lia. }
  assert (Hp : (0 < 2 ^ (Z.of_N w - 1))%Z) by (apply Z.pow_pos_nonneg; lia).
  assert (E' : Z.of_N (2 ^ (w - 1)) = (2 ^ (Z.of_N w - 1))%Z).
  { rewrite N2Z.inj_pow. f_equal. lia. }
  unfold to_signed, of_signed.
  destruct (Z.neg_nonneg_cases z) as [Hz|Hz].
  - assert (Em : (z mod 2 ^ Z.of_N w = z + 2 ^ Z.of_N w)%Z).
    { symmetry. apply Z.mod_unique with (q := (-1)%Z); lia. }
    rewrite Em.
    destruct (N.ltb_spec (Z.to_N (z + 2 ^ Z.of_N w)) (2 ^ (w - 1))); lia.
  - rewrite Z.mod_small by lia.
    destruct (N.ltb_spec (Z.to_N z) (2 ^ (w - 1))); lia.
Qed.

Lemma of_signed_bound (w : N) (z : Z) : of_signed w z < 2 ^ w.
Proof.
  unfold of_signed.
  assert (Hp : (0 < 2 ^ Z.of_N w)%Z) by (apply Z.pow_pos_nonneg; lia).
  pose proof (Z.mod_pos_bound z (2 ^ Z.of_N w) Hp) as Hb.
  assert (E : Z.of_N (2 ^ w) = (2 ^ Z.of_N w)%Z) by (now rewrite N2Z.inj_pow).
  lia.
Qed.

Lemma pack_signed_Ok (k : nat) (z : Z) (b : bytes) :
  pack_signed k z = Ok b ->
  in_signed_range (8 * N.of_nat k) z = true
  /\ b = be_bytes k (of_signed (8 * N.of_nat k) z) /\ len b = N.of_nat k.
Proof.
  unfold pack_signed. destruct (in_signed_range _ z); [|discriminate].
  intros H. injection H as <-. repeat split. apply len_be_bytes.
Qed.

Lemma readAll_app (b rest : bytes) :
  Thrift.readAll (len b) (b ++ rest) = Ok (b, rest).
Proof.
  unfold Thrift.readAll. rewrite len_app.
  destruct (N.leb_spec (len b) (len b + len rest)); [|lia].
  now rewrite take_app_exact, drop_app_exact.
Qed.

(** Reading back a packed integer. *)
Lemma read_signed_pack (k : nat) (z : Z) (b rest : bytes) :
  (0 < k)%nat -> pack_signed k z = Ok b ->
  Thrift.read_signed (N.of_nat k) (b ++ rest) = Ok (z, rest).
Proof.
  intros Hk H. apply pack_signed_Ok in H as (Hr & -> & Hl).
  unfold Thrift.read_signed. rewrite <- Hl at 1. rewrite readAll_app.
  cbn [bind]. rewrite be_value_be_bytes.
  - rewrite to_signed_of_signed; [reflexivity | lia | exact Hr].
  - rewrite pow256. apply of_signed_bound.
Qed.

End PackingProperties.

(** ** UTF-8 *)

Section Utf8Properties.

Lemma Ok_inj {A} (a b : A) : Ok a = Ok b -> b = a.
Proof. congruence. Qed.

Lemma utf8_decode_cons (b0 : byte) (r0 : bytes) :
  utf8_decode (b0 :: r0) =
    let c0 := b2n b0 in
    if c0 <? 128 then
      s <- utf8_decode r0 ;; Ok (c0 :: s)
    else if c0 <? 192 then Raise UnicodeDecodeError
    else if c0 <? 224 then
      match r0 with
      | b1 :: r1 =>
        let c := (c0 - 192) * 64 + (b2n b1 - 128) in
        if is_cont (b2n b1) && (128 <=? c)
        then s <- utf8_decode r1 ;; Ok (c :: s)
        else Raise UnicodeDecodeError
      | _ => Raise UnicodeDecodeError
      end
    else if c0 <? 240 then
      match r0 with
      | b1 :: b2 :: r2 =>
        let c := (c0 - 224) * 4096 + (b2n b1 - 128) * 64 + (b2n b2 - 128) in
        if is_cont (b2n b1) && is_cont (b2n b2) && (2048 <=? c)
           && negb (is_surrogate c)
        then s <- utf8_decode r2 ;; Ok (c :: s)
        else Raise UnicodeDecodeError
      | _ => Raise UnicodeDecodeError
      end
    else if c0 <? 248 then
      match r0 with
      | b1 :: b2 :: b3 :: r3 =>
        let c := (c0 - 240) * 262144 + (b2n b1 - 128) * 4096
                 + (b2n b2 - 128) * 64 + (b2n b3 - 128) in
        if is_cont (b2n b1) && is_cont (b2n b2) && is_cont (b2n b3)
           && (65536 <=? c) && (c <? 1114112)
        then s <- utf8_decode r3 ;; Ok (c :: s)
        else Raise UnicodeDecodeError
      | _ => Raise UnicodeDecodeError
      end
    else Raise UnicodeDecodeError.
Proof. reflexivity. Qed.

Lemma is_cont_low (x : N) : x < 64 -> is_cont (128 + x) = true.
Proof.
  intros H. unfold is_cont. apply andb_true_iff. split; apply N.leb_le; lia.
Qed.

Lemma utf8_char_roundtrip (c : N) (h : bytes) (rest : bytes) :
  utf8_encode_char c = Ok h ->
  utf8_decode (h ++ rest) = (s <- utf8_decode rest ;; Ok (c :: s)).
Proof.
  unfold utf8_encode_char.
  destruct (N.ltb_spec c 128) as [H1|H1].
  { intros H; apply Ok_inj in H; subst h. cbn [app].
    rewrite utf8_decode_cons. cbv zeta. rewrite b2n_n2b by lia.
    decide_test. reflexivity. }
  destruct (N.ltb_spec c 2048) as [H2|H2].
  { intros H; apply Ok_inj in H; subst h. cbn [app].
    assert (c / 64 < 32) by (apply N.Div0.div_lt_upper_bound; lia).
    assert (c mod 64 < 64) by (apply N.mod_lt; lia).
    pose proof (N.div_mod c 64 ltac:(lia)).
    remember (c / 64) as q. remember (c mod 64) as r.
    rewrite utf8_decode_cons. cbv beta iota zeta.
    rewrite !b2n_n2b by lia. rewrite is_cont_low by lia.
    replace ((192 + q - 192) * 64 + (128 + r - 128)) with c by lia.
    repeat decide_test. reflexivity. }
  destruct (N.ltb_spec c 65536) as [H3|H3].
  { destruct (is_surrogate c) eqn:Es; [discriminate|].
    intros H; apply Ok_inj in H; subst h. cbn [app].
    assert (c / 4096 < 16) by (apply N.Div0.div_lt_upper_bound; lia).
    assert ((c / 64) mod 64 < 64) by (apply N.mod_lt; lia).
    assert (c mod 64 < 64) by (apply N.mod_lt; lia).
    pose proof (N.div_mod c 64 ltac:(lia)).
    pose proof (N.div_mod (c / 64) 64 ltac:(lia)).
    assert (c / 64 / 64 = c / 4096) by (rewrite N.Div0.div_div; reflexivity).
    remember ((c / 64) mod 64) as r1. remember (c mod 64) as r0.
    remember (c / 64 / 64) as m'. remember (c / 4096) as q.
    remember (c / 64) as m.
    rewrite utf8_decode_cons. cbv beta iota zeta.
    rewrite !b2n_n2b by lia. rewrite !is_cont_low by lia.
    replace ((224 + q - 224) * 4096 + (128 + r1 - 128) * 64
             + (128 + r0 - 128)) with c by lia.
    rewrite Es. repeat decide_test. reflexivity. }
  destruct (N.ltb_spec c 1114112) as [H4|H4]; [|discriminate].
  intros H; apply Ok_inj in H; subst h. cbn [app].
  assert (c / 262144 < 5) by (apply N.Div0.div_lt_upper_bound; lia).
  assert ((c / 4096) mod 64 < 64) by (apply N.mod_lt; lia).
  assert ((c / 64) mod 64 < 64) by (apply N.mod_lt; lia).
  assert (c mod 64 < 64) by (apply N.mod_lt; lia).
  pose proof (N.div_mod c 64 ltac:(lia)).
  pose proof (N.div_mod (c / 64) 64 ltac:(lia)).
  pose proof (N.div_mod (c / 4096) 64 ltac:(lia)).
  assert (c / 64 / 64 = c / 4096) by (rewrite N.Div0.div_div; reflexivity).
  assert (c / 4096 / 64 = c / 262144) by (rewrite N.Div0.div_div; reflexivity).
  remember ((c / 4096) mod 64) as r2. remember ((c / 64) mod 64) as r1.
  remember (c mod 64) as r0.
  remember (c / 64 / 64) as m'. remember (c / 4096 / 64) as n'.
  remember (c / 262144) as q. remember (c / 4096) as n. remember (c / 64) as m.
  rewrite utf8_decode_cons. cbv beta iota zeta.
  rewrite !b2n_n2b by lia. rewrite !is_cont_low by lia.
  replace ((240 + q - 240) * 262144 + (128 + r2 - 128) * 4096
           + (128 + r1 - 128) * 64 + (128 + r0 - 128))
    with c by lia.
  repeat decide_test. reflexivity.
Qed.

(** What [str.encode] produces, [bytes.decode] reads back. *)
Lemma utf8_roundtrip (s : pystr) : forall b,
  utf8_encode s = Ok b -> utf8_decode b = Ok s.
Proof.
  induction s as [|c r IH]; intros b H; cbn [utf8_encode] in H.
  - now injection H as <-.
  - apply bind_Ok in H as (h & Hh & H). apply bind_Ok in H as (t & Ht & H).
    injection H as <-. erewrite utf8_char_roundtrip by exact Hh.
    erewrite IH by exact Ht. reflexivity.
Qed.

End Utf8Properties.

Section HeaderRoundTrip.

Import EnvelopeCodec.

Lemma pystr_eqb_eq (a : pystr) : forall b, pystr_eqb a b = true <-> a = b.
Proof.
  induction a as [|x a IH]; intros [|y b]; simpl; split; try congruence.
  - intros H. apply andb_true_iff in H as [H1 H2].
    apply N.eqb_eq in H1. apply IH in H2. congruence.
  - intros H. injection H as -> ->. rewrite N.eqb_refl. now apply IH.
Qed.

Lemma dict_set_new (d : pydict) (k : pystr) (v : pyval) :
  ~ In k (map fst d) -> dict_set d k v = d ++ [(k, v)].
Proof.
  induction d as [|[k' v'] r IH]; simpl; intros H; [reflexivity|].
  destruct (pystr_eqb k' k) eqn:E.
  - apply pystr_eqb_eq in E. tauto.
  - rewrite IH; tauto.
Qed.

Lemma ascii_encode (s : pystr) :
  ascii_str s = true -> utf8_encode s = Ok (map n2b s).
Proof.
  induction s as [|c r IH]; simpl; intros H; [reflexivity|].
  apply andb_true_iff in H as [H1 H2]. rewrite IH by exact H2.
  unfold utf8_encode_char. now rewrite H1.
Qed.

Lemma len_map {A B} (f : A -> B) (l : list A) : len (map f l) = len l.
Proof. unfold len. now rewrite length_map. Qed.

Lemma slice_at {A} (a b c : list A) (o n : N) :
  o = len a -> n = o + len b -> slice o n (a ++ b ++ c) = b.
Proof.
  intros -> ->. unfold slice. rewrite drop_app_exact.
  replace (len a + len b - len a) with (len b) by lia.
  apply take_app_exact.
Qed.

Lemma unpack_u32_be (n : N) : n < 2 ^ 32 -> unpack_u32 (be_bytes 4 n) = Ok n.
Proof.
  intros H. unfold unpack_u32. rewrite len_be_bytes. cbn [N.of_nat N.eqb Pos.eqb Pos.of_succ_nat Pos.succ].
  now rewrite be_value_be_bytes.
Qed.

Lemma encode_header_plain (k v : pystr) :
  ascii_str k = true -> ascii_str v = true -> len k < 2 ^ 32 -> len v < 2 ^ 32 ->
  encode_header k (PStr v) = Ok (wire_pair k v).
Proof.
  intros Hk Hv Lk Lv. unfold encode_header, pack_u32.
  apply N.ltb_lt in Lk, Lv. rewrite Lk, Lv.
  now rewrite !ascii_encode by assumption.
Qed.

Lemma len_wire_pair (k v : pystr) : len (wire_pair k v) = 8 + len k + len v.
Proof.
  unfold wire_pair. rewrite !len_app, !len_be_bytes, !len_map. lia.
Qed.

(** One iteration of the header loop over the bytes of a plain pair. *)
Lemma headers_loop_pair fuel (pre tail : bytes) (k v : pystr) L offset acc :
  ascii_str k = true -> ascii_str v = true -> len k < 2 ^ 32 -> len v < 2 ^ 32 ->
  offset = len pre -> offset < L ->
  headers_loop (S fuel) (pre ++ wire_pair k v ++ tail) L offset acc
  = headers_loop fuel (pre ++ wire_pair k v ++ tail) L
                 (offset + len (wire_pair k v)) (dict_set acc k (PStr v)).
Proof.
  intros Hk Hv Lk Lv Ho Hlt. rewrite (headers_loop_unfold (S fuel)).
  apply N.ltb_lt in Hlt. rewrite Hlt. unfold wire_pair at 1 2 3 4.
  set (K4 := be_bytes 4 (len k)). set (V4 := be_bytes 4 (len v)).
  set (KB := map n2b k). set (VB := map n2b v).
  assert (E1 : slice offset (offset + 4) (pre ++ (K4 ++ KB ++ V4 ++ VB) ++ tail) = K4).
  { rewrite <- !app_assoc. apply slice_at; [exact Ho|].
    unfold K4. now rewrite len_be_bytes. }
  rewrite E1. unfold K4 at 1. rewrite unpack_u32_be by exact Lk. cbn [bind].
  assert (E2 : slice (offset + 4) (offset + 4 + len k)
                     (pre ++ (K4 ++ KB ++ V4 ++ VB) ++ tail) = KB).
  { rewrite <- !app_assoc. rewrite (app_assoc pre K4).
    apply slice_at; [|unfold KB; now rewrite len_map].
    rewrite len_app. unfold K4. rewrite len_be_bytes. lia. }
  rewrite E2. unfold KB at 1.
  rewrite (utf8_roundtrip k (ascii_encode k Hk)). cbn [bind].
  assert (E3 : slice (offset + 4 + len k) (offset + 4 + len k + 4)
                     (pre ++ (K4 ++ KB ++ V4 ++ VB) ++ tail) = V4).
  { rewrite <- !app_assoc. rewrite (app_assoc pre K4), (app_assoc _ KB).
    apply slice_at; [|unfold V4; now rewrite len_be_bytes].
    rewrite !len_app. unfold K4, KB. rewrite len_be_bytes, len_map. lia. }
  rewrite E3. unfold V4 at 1. rewrite unpack_u32_be by exact Lv. cbn [bind].
  assert (E4 : slice (offset + 4 + len k + 4) (offset + 4 + len k + 4 + len v)
                     (pre ++ (K4 ++ KB ++ V4 ++ VB) ++ tail) = VB).
  { rewrite <- !app_assoc.
    rewrite (app_assoc pre K4), (app_assoc _ KB), (app_assoc _ V4).
    apply slice_at; [|unfold VB; now rewrite len_map].
    rewrite !len_app. unfold K4, KB, V4. rewrite !len_be_bytes, !len_map. lia. }
  rewrite E4. unfold VB at 1.
  rewrite (utf8_roundtrip v (ascii_encode v Hv)). cbn [bind].
  f_equal. fold K4 V4 KB VB. 
  change (len (K4 ++ KB ++ V4 ++ VB)) with (len (wire_pair k v)).
  rewrite len_wire_pair. lia.
Qed.

Lemma encode_headers_plain (hs : pydict) :
  Forall plain_pair hs -> len (wire hs) < 2 ^ 32 ->
  encode_headers hs = Ok (wire hs).
Proof.
  induction hs as [|[k x] r IH]; intros Hp Hl; [reflexivity|].
  inversion Hp as [|? ? (v & Ex & _ & _ & Ak & Av) Hr]; subst.
  simpl in Ex, Ak. subst x. cbn [wire] in *.
  rewrite len_app, len_wire_pair in Hl.
  cbn [encode_headers]. rewrite encode_header_plain by (auto; lia).
  cbn [bind]. rewrite IH by (auto; lia). reflexivity.
Qed.

Lemma headers_loop_plain (todo : pydict) : forall fuel pre L offset acc,
  Forall plain_pair todo -> len (wire todo) < 2 ^ 32 ->
  NoDup (map fst acc ++ map fst todo) ->
  (List.length todo <= fuel)%nat ->
  offset = len pre -> L + 9 = offset + len (wire todo) ->
  headers_loop fuel (pre ++ wire todo) L offset acc = Ok (acc ++ todo).
Proof.
  induction todo as [|[k x] r IH]; intros fuel pre L offset acc Hp Hl Hn Hf Ho HL.
  - rewrite headers_loop_unfold. cbn [wire] in HL.
    replace (len (@nil byte)) with 0 in HL by reflexivity.
    destruct (N.ltb_spec offset L); [lia|]. now rewrite app_nil_r.
  - inversion Hp as [|? ? (v & Ex & Nk & Nv & Ak & Av) Hr]; subst.
    simpl in Ex, Nk, Ak. subst x. cbn [wire] in *.
    rewrite len_app, len_wire_pair in Hl, HL.
    assert (0 < len k) by (destruct k; [congruence | unfold len; simpl; lia]).
    assert (0 < len v) by (destruct v; [congruence | unfold len; simpl; lia]).
    destruct fuel as [|fuel]; [simpl in Hf; lia|].
    rewrite headers_loop_pair by (auto; lia).
    rewrite dict_set_new.
    2:{ apply NoDup_remove_2 in Hn. intros Hi. apply Hn.
        apply in_or_app. now left. }
    rewrite (app_assoc pre).
    rewrite IH with (pre := pre ++ wire_pair k v).
    + now rewrite <- app_assoc.
    + exact Hr.
    + lia.
    + rewrite map_app, <- app_assoc. exact Hn.
    + simpl in Hf. lia.
    + now rewrite len_app.
    + rewrite len_wire_pair. lia.
Qed.

Lemma length_wire_plain (hs : pydict) :
  Forall plain_pair hs -> (List.length hs <= List.length (wire hs))%nat.
Proof.
  induction 1 as [|[k x] r (v & Ex & _) Hr IH]; [simpl; lia|].
  simpl in Ex. subst x. cbn [wire]. rewrite length_app. simpl List.length.
  pose proof (len_wire_pair k v) as E. unfold len in E. lia.
Qed.

Lemma frame_prefix_Ok (frame_size header_length : N) :
  frame_size < 2 ^ 32 -> header_length < 2 ^ 32 ->
  frame_prefix frame_size header_length
  = Ok (be_bytes 4 frame_size ++ [x00] ++ be_bytes 4 header_length).
Proof.
  intros H1 H2. unfold frame_prefix, pack_u32.
  apply N.ltb_lt in H1, H2. now rewrite H1, H2.
Qed.

(** C5, as amended.  [{"user-agent": "test"}] encodes to
    [0000000A "user-agent" 00000004 "test"].  For headers whose keys and
    values are non-empty ASCII strs, the keys distinct: the encoding is, pair
    after pair in the order given, the 4-byte length, the key, the 4-byte
    length and the value; and behind the nine-byte prefix whose header length
    is the length of these bytes, it decodes to the same headers. *)
Theorem header_roundtrip_plain (hs : pydict) (frame_size : N) :
  Forall plain_pair hs -> NoDup (map fst hs) ->
  frame_size < 2 ^ 32 -> len (wire hs) < 2 ^ 32 ->
  encode_headers [ (u "user-agent", PStr (u "test")) ]
  = Ok ([x00; x00; x00; x0a] ++ [x75; x73; x65; x72; x2d; x61; x67; x65; x6e; x74]
        ++ [x00; x00; x00; x04] ++ [x74; x65; x73; x74])
  /\ encode_headers hs = Ok (wire hs)
  /\ exists prefix,
       frame_prefix frame_size (len (wire hs)) = Ok prefix
       /\ decode_headers (prefix ++ wire hs)
          = Ok [ (u "metadata",
                  PDict [ (u "message_length", PInt (Z.of_N frame_size));
                          (u "version", PInt 0);
                          (u "header_length", PInt (Z.of_N (len (wire hs)))) ]);
                 (u "headers", PDict hs) ].
Proof.
  intros Hp Hn Hf Hl. split; [reflexivity|].
  split; [now apply encode_headers_plain|].
  eexists. split; [now apply frame_prefix_Ok|].
  unfold decode_headers.
  set (F := be_bytes 4 frame_size). set (H := be_bytes 4 (len (wire hs))).
  assert (E1 : slice 0 4 (F ++ [x00] ++ H ++ wire hs) = F).
  { apply (@slice_at _ [] F); [reflexivity | unfold F; now rewrite len_be_bytes]. }
  assert (E2 : slice 4 5 (F ++ [x00] ++ H ++ wire hs) = [x00]).
  { rewrite app_assoc.
    apply (@slice_at _ F [x00]); unfold F; rewrite ?len_be_bytes; reflexivity. }
  assert (E3 : slice 5 9 (F ++ [x00] ++ H ++ wire hs) = H).
  { rewrite app_assoc, (app_assoc _ H).
    rewrite <- (app_assoc F).
    apply (@slice_at _ (F ++ [x00]) H);
      rewrite ?len_app; unfold F, H; rewrite !len_be_bytes; reflexivity. }
  rewrite <- !app_assoc. rewrite E1, E2, E3. unfold F at 1, H at 1.
  rewrite !unpack_u32_be by assumption. cbn [bind].
  change (unpack_u8 [x00]) with (@Ok N 0). cbn [bind].
  rewrite (app_assoc F), (app_assoc _ H).
  rewrite headers_loop_plain with (acc := @nil (pystr * pyval)); auto.
  - rewrite !length_app. pose proof (length_wire_plain Hp). lia.
  - lia.
Qed.

Lemma header_roundtrip_plain_witness :
  encode_headers [ (u "user-agent", PStr (u "test")) ]
  = Ok (wire [ (u "user-agent", PStr (u "test")) ])
  /\ exists prefix,
       frame_prefix 31 (len (wire [ (u "user-agent", PStr (u "test")) ])) = Ok prefix
       /\ decode_headers (prefix ++ wire [ (u "user-agent", PStr (u "test")) ])
          = Ok [ (u "metadata",
                  PDict [ (u "message_length", PInt 31);
                          (u "version", PInt 0);
                          (u "header_length", PInt 22) ]);
                 (u "headers", PDict [ (u "user-agent", PStr (u "test")) ]) ].
Proof.
  apply (@header_roundtrip_plain [ (u "user-agent", PStr (u "test")) ] 31).
  - constructor; [|constructor].
    exists (u "test"). repeat split; discriminate.
  - constructor; [simpl; tauto | constructor].
  - reflexivity.
  - reflexivity.
Defined.

(** C5, as stated, fails on its own example: the length written before
    ["user-agent"] is 10, not 9. *)
Lemma user_agent_length_is_ten :
  encode_headers [ (u "user-agent", PStr (u "test")) ]
  <> Ok ([x00; x00; x00; x09] ++ [x75; x73; x65; x72; x2d; x61; x67; x65; x6e; x74]
         ++ [x00; x00; x00; x04] ++ [x74; x65; x73; x74]).
Proof. discriminate. Qed.

End HeaderRoundTrip.

Section MessageRoundTrip.

Import Thrift TBinaryProtocol Encoder CustomResponseMessage.

Lemma pack_signed_in_range (k : nat) (z : Z) :
  in_signed_range (8 * N.of_nat k) z = true ->
  exists b, pack_signed k z = Ok b /\ len b = N.of_nat k.
Proof.
  intros H. unfold pack_signed. rewrite H. eexists. split; [reflexivity|].
  apply len_be_bytes.
Qed.

Lemma readByte_pack (z : Z) (b rest : bytes) :
  pack_signed 1 z = Ok b -> readByte (b ++ rest) = Ok (z, rest).
Proof. apply (@read_signed_pack 1). lia. Qed.

Lemma readI16_pack (z : Z) (b rest : bytes) :
  pack_signed 2 z = Ok b -> readI16 (b ++ rest) = Ok (z, rest).
Proof. apply (@read_signed_pack 2). lia. Qed.

Lemma readI32_pack (z : Z) (b rest : bytes) :
  pack_signed 4 z = Ok b -> readI32 (b ++ rest) = Ok (z, rest).
Proof. apply (@read_signed_pack 4). lia. Qed.

Lemma readI64_pack (z : Z) (b rest : bytes) :
  pack_signed 8 z = Ok b -> readI64 (b ++ rest) = Ok (z, rest).
Proof. apply (@read_signed_pack 8). lia. Qed.

Lemma readBinary_app (b lb rest : bytes) :
  pack_signed 4 (Z.of_N (len b)) = Ok lb ->
  readBinary (lb ++ b ++ rest) = Ok (b, rest).
Proof.
  intros H. unfold readBinary.
  erewrite readI32_pack by exact H. cbn [bind].
  unfold check_length. destruct (Z.ltb_spec (Z.of_N (len b)) 0); [lia|].
  cbn [bind]. rewrite N2Z.id. apply readAll_app.
Qed.

Lemma readString_app (s : pystr) (b lb rest : bytes) :
  utf8_encode s = Ok b -> pack_signed 4 (Z.of_N (len b)) = Ok lb ->
  readString (lb ++ b ++ rest) = Ok (s, rest).
Proof.
  intros Hs Hl. unfold readString. erewrite readBinary_app by exact Hl. cbn [bind].
  erewrite utf8_roundtrip by exact Hs. reflexivity.
Qed.

Lemma w_string_app (s : pystr) (b lb buf : bytes) :
  utf8_encode s = Ok b -> pack_signed 4 (Z.of_N (len b)) = Ok lb ->
  w_string s buf = Ok (buf ++ lb ++ b).
Proof.
  intros Hs Hl. unfold w_string, w_binary, w_i32, emit. rewrite Hs. cbn [bind].
  rewrite Hl. cbn [bind]. now rewrite <- app_assoc.
Qed.

Lemma len_in_range (b : bytes) :
  len b < 2 ^ 31 -> in_signed_range 32 (Z.of_N (len b)) = true.
Proof.
  intros H. unfold in_signed_range. apply andb_true_iff.
  split; [apply Z.leb_le | apply Z.ltb_lt].
  - change (- 2 ^ (Z.of_N 32 - 1))%Z with (-2147483648)%Z. lia.
  - change (2 ^ (Z.of_N 32 - 1))%Z with (2147483648)%Z.
    change (2 ^ 31) with 2147483648 in H. lia.
Qed.

(** Writing then reading one value of a scalar type. *)
Lemma value_codec (py : builtins) (name : pystr) (v : pyval) :
  scalar_value name v ->
  exists t vb,
    FIELD_TYPE_MAP name = Some t /\ t <> TType.STOP
    /\ in_signed_range 8 t = true /\ _get_type_name t = name
    /\ 1 <= len vb
    /\ (forall fuel d buf,
          get d (u "value") = v ->
          write_value py protocol (S fuel) t d buf = Ok (buf ++ vb))
    /\ (forall fuel rest,
          read_typed (S fuel) t (vb ++ rest) = Ok (Some v, rest)).
Proof.
  intros H. destruct H as [b|z Hz|z Hz|z Hz|z Hz|bits Hb|s b Hs Hl].
  - exists TType.BOOL, [if b then x01 else x00].
    repeat split; try discriminate.
    + intros fuel d buf Hv. cbn [write_value]. rewrite Hv. destruct b; reflexivity.
    + intros fuel rest. cbn [read_typed].
      change (TType.BOOL =? TType.BOOL)%Z with true. cbv iota. unfold readBool.
      destruct b;
        [rewrite (@readByte_pack 1 [x01] rest eq_refl)
        |rewrite (@readByte_pack 0 [x00] rest eq_refl)]; reflexivity.
  - destruct (@pack_signed_in_range 1 z Hz) as (vb & Hp & Hlen).
    exists TType.BYTE, vb. repeat split; try discriminate.
    + rewrite Hlen. lia.
    + intros fuel d buf Hv. cbn [write_value]. rewrite Hv.
      change (writeByte protocol) with w_byte. cbn [py_int bind TType.BYTE].
      unfold w_byte. rewrite Hp. reflexivity.
    + intros fuel rest. cbn [read_typed].
      change (TType.BYTE =? TType.BOOL)%Z with false.
      change (TType.BYTE =? TType.BYTE)%Z with true. cbv iota.
      erewrite readByte_pack by exact Hp. reflexivity.
  - destruct (@pack_signed_in_range 2 z Hz) as (vb & Hp & Hlen).
    exists TType.I16, vb. repeat split; try discriminate.
    + rewrite Hlen. lia.
    + intros fuel d buf Hv. cbn [write_value]. rewrite Hv.
      change (writeI16 protocol) with w_i16. cbn [py_int bind].
      unfold w_i16. rewrite Hp. reflexivity.
    + intros fuel rest. cbn [read_typed]. unfold readI16.
      change (TType.I16 =? TType.BOOL)%Z with false.
      change (TType.I16 =? TType.BYTE)%Z with false.
      change (TType.I16 =? TType.I16)%Z with true. cbv iota.
      erewrite readI16_pack by exact Hp. reflexivity.
  - destruct (@pack_signed_in_range 4 z Hz) as (vb & Hp & Hlen).
    exists TType.I32, vb. repeat split; try discriminate.
    + rewrite Hlen. lia.
    + intros fuel d buf Hv. cbn [write_value]. rewrite Hv.
      change (writeI32 protocol) with w_i32. cbn [py_int bind].
      unfold w_i32. rewrite Hp. reflexivity.
    + intros fuel rest. cbn [read_typed]. unfold readI32.
      change (TType.I32 =? TType.BOOL)%Z with false.
      change (TType.I32 =? TType.BYTE)%Z with false.
      change (TType.I32 =? TType.I16)%Z with false.
      change (TType.I32 =? TType.I32)%Z with true. cbv iota.
      erewrite readI32_pack by exact Hp. reflexivity.
  - destruct (@pack_signed_in_range 8 z Hz) as (vb & Hp & Hlen).
    exists TType.I64, vb. repeat split; try discriminate.
    + rewrite Hlen. lia.
    + intros fuel d buf Hv. cbn [write_value]. rewrite Hv.
      change (writeI64 protocol) with w_i64. cbn [py_int bind].
      unfold w_i64. rewrite Hp. reflexivity.
    + intros fuel rest. cbn [read_typed]. unfold readI64.
      change (TType.I64 =? TType.BOOL)%Z with false.
      change (TType.I64 =? TType.BYTE)%Z with false.
      change (TType.I64 =? TType.I16)%Z with false.
      change (TType.I64 =? TType.I32)%Z with false.
      change (TType.I64 =? TType.I64)%Z with true. cbv iota.
      erewrite readI64_pack by exact Hp. reflexivity.
  - exists TType.DOUBLE, (be_bytes 8 bits). repeat split; try discriminate.
    + intros fuel d buf Hv. cbn [write_value]. rewrite Hv. reflexivity.
    + intros fuel rest. cbn [read_typed].
      change (TType.DOUBLE =? TType.BOOL)%Z with false.
      change (TType.DOUBLE =? TType.BYTE)%Z with false.
      change (TType.DOUBLE =? TType.I16)%Z with false.
      change (TType.DOUBLE =? TType.I32)%Z with false.
      change (TType.DOUBLE =? TType.I64)%Z with false.
      change (TType.DOUBLE =? TType.DOUBLE)%Z with true. cbv iota.
      unfold readDouble.
      replace 8 with (len (be_bytes 8 bits)) by (now rewrite len_be_bytes).
      rewrite readAll_app. cbn [bind with_value].
      rewrite be_value_be_bytes; [reflexivity|]. exact Hb.
  - destruct (@pack_signed_in_range 4 (Z.of_N (len b)) (len_in_range b Hl))
      as (lb & Hp & Hlen).
    exists TType.STRING, (lb ++ b). repeat split; try discriminate.
    + rewrite len_app, Hlen. change (N.of_nat 4) with 4. lia.
    + intros fuel d buf Hv. cbn [write_value]. rewrite Hv.
      change (writeString protocol) with w_string. cbn [as_string bind].
      change ((TType.STRING =? TType.BOOL)%Z) with false.
      cbv iota. now apply w_string_app.
    + intros fuel rest. cbn [read_typed].
      change (TType.STRING =? TType.BOOL)%Z with false.
      change (TType.STRING =? TType.BYTE)%Z with false.
      change (TType.STRING =? TType.I16)%Z with false.
      change (TType.STRING =? TType.I32)%Z with false.
      change (TType.STRING =? TType.I64)%Z with false.
      change (TType.STRING =? TType.DOUBLE)%Z with false.
      change (TType.STRING =? TType.STRING)%Z with true. cbv iota.
      rewrite <- app_assoc. erewrite readString_app by eassumption. reflexivity.
Qed.

Lemma write_struct_unfold (py : builtins) (fuel : nat) (fields : list pyval)
      (buf : bytes) :
  write_struct py protocol (S fuel) (PList fields) buf
  = (s <- for_each protocol fields (write_field py fuel) buf ;;
     w_byte TType.STOP s).
Proof.
  cbn [write_struct]. unfold write_field.
  change (writeStructBegin protocol buf) with (Ok buf).
  cbn [bind py_iter].
  destruct (for_each protocol fields _ buf) as [s| |]; reflexivity.
Qed.

(** Writing then reading one scalar field. *)
Lemma field_codec (py : builtins) (f : pyval) :
  scalar_field f ->
  exists fb,
    1 <= len fb
    /\ (forall fuel buf, write_field py (S fuel) f buf = Ok (buf ++ fb))
    /\ (forall fuel rest acc,
          extract_fields (S (S fuel)) (fb ++ rest) acc
          = extract_fields (S fuel) rest (acc ++ [f])).
Proof.
  intros (id & name & v & -> & Hid & Hv).
  destruct (value_codec py Hv) as (t & vb & Ht & Hstop & Hrange & Hname & Hlen & Hw & Hr).
  destruct (@pack_signed_in_range 1 t Hrange) as (tb & Htb & Ltb).
  destruct (@pack_signed_in_range 2 id Hid) as (idb & Hidb & Lidb).
  exists (tb ++ idb ++ vb). split; [|split].
  - rewrite !len_app. lia.
  - intros fuel buf. unfold write_field, field_doc.
    change (py_getitem (PDict _) (u "field_id")) with (Ok (PInt id)).
    change (py_getitem (PDict _) (u "field_type")) with (Ok (PStr name)).
    cbn [bind]. unfold type_map_getitem. cbn [type_map_get bind]. rewrite Ht.
    cbn [bind]. unfold w_field_begin, w_byte, w_i16, emit, nop. rewrite Htb. cbn [bind struct_int].
    rewrite Hidb. cbn [bind]. rewrite Hw by reflexivity. cbn [bind].
    now rewrite <- !app_assoc.
  - intros fuel rest acc. cbn [extract_fields]. unfold readFieldBegin.
    rewrite <- !app_assoc. erewrite readByte_pack by exact Htb. cbn [bind].
    apply Z.eqb_neq in Hstop. rewrite Hstop.
    erewrite readI16_pack by exact Hidb. cbn [bind]. rewrite Hstop.
    rewrite Hr. cbn [bind]. rewrite Hname. reflexivity.
Qed.

Lemma fields_codec (py : builtins) (fields : list pyval) :
  Forall scalar_field fields ->
  exists B,
    (List.length fields <= List.length B)%nat
    /\ (forall fuel buf,
          for_each protocol fields (write_field py (S fuel)) buf = Ok (buf ++ B))
    /\ (forall fuel rest acc,
          (List.length fields < fuel)%nat ->
          extract_fields fuel (B ++ x00 :: rest) acc
          = Ok (PDict [ (u "fields", PList (acc ++ fields)) ], rest)).
Proof.
  induction 1 as [|f r Hf Hr (B & HL & HW & HR)].
  - exists []. split; [simpl; lia|]. split.
    + intros fuel buf. cbn [for_each]. now rewrite app_nil_r.
    + intros fuel rest acc Hfuel. destruct fuel as [|fuel]; [lia|].
      cbn [extract_fields app]. unfold readFieldBegin.
      change (x00 :: rest) with ([x00] ++ rest).
      rewrite (@readByte_pack 0 [x00] rest eq_refl). cbn [bind].
      change (0 =? TType.STOP)%Z with true. cbv iota. now rewrite app_nil_r.
  - destruct (field_codec py Hf) as (fb & Lfb & Wf & Rf).
    exists (fb ++ B). split; [|split].
    + rewrite length_app. simpl. unfold len in Lfb. lia.
    + intros fuel buf. cbn [for_each]. rewrite Wf. cbn [bind].
      rewrite HW. now rewrite <- app_assoc.
    + intros fuel rest acc Hfuel. simpl in Hfuel.
      destruct fuel as [|[|fuel]]; try lia.
      rewrite <- app_assoc. rewrite Rf. rewrite HR by lia.
      now rewrite <- app_assoc.
Qed.

Lemma take4 (a b c d : byte) (rest : bytes) :
  take 4 (a :: b :: c :: d :: rest) = [a; b; c; d].
Proof. destruct rest; reflexivity. Qed.

(** C1, as amended.  A reply message whose body fields all have a scalar
    type (bool, i8, i16, i32, i64, double, string) with a value of that type
    in range is encoded by the binary protocol to a frame that decodes to the
    same method, sequence id and fields; the document that comes back has
    type ["reply"] and holds the body under ["reply"]. *)
Theorem reply_roundtrip
        (py : builtins) (compact_protocol : TProtocol)
        (ThriftMessage_read : bytes -> library_outcome)
        (name : pystr) (nameb : bytes) (seqid : Z) (fields : list pyval) :
  utf8_encode name = Ok nameb -> len nameb < 2 ^ 31 ->
  in_signed_range 32 seqid = true ->
  Forall scalar_field fields ->
  exists frame,
    write_thrift_message py compact_protocol false
                         (reply_message name seqid fields) = Ok frame
    /\ MessageCodec.decode_thrift_message ThriftMessage_read frame
       = Ok (CustomObject
               [ (u "method", PStr name);
                 (u "type", PStr (u "reply"));
                 (u "seqid", PInt seqid);
                 (u "header", PNone);
                 (u "reply", PDict [ (u "fields", PList fields) ]);
                 (u "length", PInt (Z.of_N (len frame))) ]).
Proof.
  intros Hname Hlen Hseq Hfields.
  destruct (fields_codec py Hfields) as (B & HL & HW & HR).
  destruct (@pack_signed_in_range 4 (Z.of_N (len nameb)) (len_in_range nameb Hlen))
    as (lb & Hlb & _).
  destruct (@pack_signed_in_range 4 seqid Hseq) as (sb & Hsb & _).
  exists ([x80; x01; x00; x02] ++ lb ++ nameb ++ sb ++ B ++ [x00]).
  split.
  - unfold write_thrift_message, reply_message.
    change (py_getitem (PDict _) (u "method")) with (Ok (PStr name)).
    change (py_getitem (PDict _) (u "type")) with (Ok (PStr (u "reply"))).
    change (py_getitem (PDict _) (u "seqid")) with (Ok (PInt seqid)).
    change (py_getitem (PDict _) (u "args"))
      with (Ok (PDict [ (u "fields", PList fields) ])).
    cbn [bind]. change (msg_type_map (PStr (u "reply"))) with (Ok TMessageType.REPLY).
    cbn [bind].
    change (writeMessageBegin protocol) with w_message_begin.
    change (fresh protocol) with (@nil byte).
    unfold w_message_begin.
    change (w_i32 (Z.lor VERSION_1 TMessageType.REPLY) [])
      with (Ok [x80; x01; x00; x02]).
    cbn [bind]. erewrite w_string_app by eassumption. cbn [bind struct_int].
    unfold w_i32 at 1, emit. rewrite Hsb. cbn [bind truthy].
    change (py_getitem (PDict [ (u "fields", PList fields) ]) (u "fields"))
      with (Ok (PList fields)).
    cbn [bind].
    destruct (2 * depth (PDict [ (u "method", PStr name);
                                 (u "type", PStr (u "reply"));
                                 (u "seqid", PInt seqid);
                                 (u "args", PDict [ (u "fields", PList fields) ]) ]))%nat
      as [|[|fuel]] eqn:Efuel; [simpl in Efuel; lia | simpl in Efuel; lia |].
    rewrite write_struct_unfold, HW. cbn [bind].
    change (w_byte TType.STOP ?s) with (Ok (s ++ [x00])).
    cbn [bind]. change (writeMessageEnd protocol) with nop. unfold nop.
    cbn [bind]. change (getvalue protocol) with (fun b : bytes => b).
    cbv beta. now rewrite <- !app_assoc.
  - unfold MessageCodec.decode_thrift_message.
    set (body := lb ++ nameb ++ sb ++ B ++ [x00]).
    change ([x80; x01; x00; x02] ++ body) with (x80 :: x01 :: x00 :: x02 :: body).
    rewrite take4.
    replace (4 <=? len (x80 :: x01 :: x00 :: x02 :: body)) with true
      by (symmetry; apply N.leb_le; unfold len; simpl List.length; lia).
    change (bytes_eqb [x80; x01; x00; x02] MessageCodec.reply_marker) with true.
    cbn [andb orb]. unfold MessageCodec.custom, init.
    rewrite readMessageBegin_strict. unfold body.
    erewrite readString_app by eassumption. cbn [bind].
    erewrite readI32_pack by exact Hsb. cbn [bind].
    unfold _extract_reply.
    change (B ++ [x00]) with (B ++ x00 :: []).
    rewrite HR.
    + reflexivity.
    + unfold enough_fuel. simpl List.length. rewrite !length_app. lia.
Qed.

Lemma reply_roundtrip_witness :
  exists frame,
    write_thrift_message refusing_builtins protocol false
                         (reply_message (u "m") 1 scalar_fields_example) = Ok frame
    /\ MessageCodec.decode_thrift_message no_library frame
       = Ok (CustomObject
               [ (u "method", PStr (u "m"));
                 (u "type", PStr (u "reply"));
                 (u "seqid", PInt 1);
                 (u "header", PNone);
                 (u "reply", PDict [ (u "fields", PList scalar_fields_example) ]);
                 (u "length", PInt (Z.of_N (len frame))) ]).
Proof.
  apply (@reply_roundtrip refusing_builtins protocol no_library
                          (u "m") [x6d] 1 scalar_fields_example);
    [reflexivity | reflexivity | reflexivity |].
  repeat constructor.
  - exists 1%Z, (u "bool"), (PBool true). repeat split. constructor.
  - exists 2%Z, (u "i32"), (PInt 42). repeat split. now constructor.
  - exists 3%Z, (u "string"), (PStr (u "ok")). repeat split.
    now apply sv_string with (b := [x6f; x6b]).
Defined.

End MessageRoundTrip.

(* ===================================================================== *)
(** ** Further properties of the frame locator *)
(* ===================================================================== *)

Section SliceFacts.

Context {A : Type}.

Lemma take_drop_id (l : list A) : forall n, take n l ++ drop n l = l.
Proof.
  intros n. rewrite take_firstn, drop_skipn. apply firstn_skipn.
Qed.

Lemma drop_drop (l : list A) (a b : N) : drop a (drop b l) = drop (b + a) l.
Proof.
  rewrite !drop_skipn, skipn_skipn. f_equal. lia.
Qed.

Lemma drop_take (l : list A) (q n : N) :
  drop q (take n l) = take (n - q) (drop q l).
Proof.
  rewrite !drop_skipn, !take_firstn, skipn_firstn_comm. f_equal. lia.
Qed.

Lemma drop_zero (l : list A) : drop 0 l = l.
Proof. destruct l; reflexivity. Qed.

Lemma drop_cons_succ (x : A) (l : list A) (n : N) : drop (N.succ n) (x :: l) = drop n l.
Proof.
  cbn [drop]. destruct (N.eqb_spec (N.succ n) 0); [lia|]. now rewrite N.pred_succ.
Qed.

Lemma drop_past (l : list A) (n : N) : len l <= n -> drop n l = [].
Proof.
  intros H. rewrite drop_skipn. apply skipn_all2. unfold len in H. lia.
Qed.

End SliceFacts.

Section FindFacts.

Lemma starts_with_nil_r (m : bytes) : starts_with m [] = true -> m = [].
Proof. destruct m; [reflexivity | discriminate]. Qed.

Lemma starts_with_take (m d : bytes) : forall n,
  starts_with m (take n d) = true -> starts_with m d = true /\ len m <= n.
Proof.
  revert d. induction m as [|x m IH]; intros d n H.
  - split; [reflexivity | unfold len; simpl; lia].
  - destruct d as [|y d]; [discriminate|]. cbn [take] in H.
    destruct (n =? 0) eqn:Hn; [discriminate|]. apply N.eqb_neq in Hn.
    cbn [starts_with] in *. apply andb_true_iff in H as [H1 H2].
    apply IH in H2 as [H2 H3]. rewrite H1, H2. split; [reflexivity|].
    unfold len in *. simpl List.length. lia.
Qed.

(** The first occurrence, as [find_from] reports it. *)
Lemma find_from_Some (m : bytes) : forall d i p,
  find_from m d i = Some p ->
  i <= p /\ starts_with m (drop (p - i) d) = true
  /\ forall q, q < p - i -> starts_with m (drop q d) = false.
Proof.
  induction d as [|y d IH]; intros i p H; cbn [find_from] in H.
  - destruct (starts_with m []) eqn:E; [|discriminate]. injection H as <-.
    rewrite N.sub_diag. repeat split; [lia | exact E | intros q Hq; lia].
  - destruct (starts_with m (y :: d)) eqn:E.
    + injection H as <-. rewrite N.sub_diag, drop_zero.
      repeat split; [lia | exact E | intros q Hq; lia].
    + apply IH in H as (H1 & H2 & H3).
      replace (p - i) with (N.succ (p - N.succ i)) by lia.
      rewrite drop_cons_succ. repeat split; [lia | exact H2 |].
      intros q Hq. destruct (N.eqb_spec q 0) as [->|Hq0].
      * now rewrite drop_zero.
      * replace q with (N.succ (N.pred q)) by lia. rewrite drop_cons_succ.
        apply H3. lia.
Qed.

Lemma find_from_None (m : bytes) : forall d i,
  find_from m d i = None -> forall q, starts_with m (drop q d) = false.
Proof.
  induction d as [|y d IH]; intros i H q; cbn [find_from] in H.
  - destruct (starts_with m []) eqn:E; [discriminate|].
    now replace (drop q (@nil byte)) with (@nil byte) by (destruct q; reflexivity).
  - destruct (starts_with m (y :: d)) eqn:E; [discriminate|].
    destruct (N.eqb_spec q 0) as [->|Hq0].
    + now rewrite drop_zero.
    + replace q with (N.succ (N.pred q)) by lia. rewrite drop_cons_succ.
      now apply IH with (i := N.succ i).
Qed.

Lemma find_Some (d m : bytes) (p : N) :
  find d m = Some p ->
  starts_with m (drop p d) = true
  /\ forall q, q < p -> starts_with m (drop q d) = false.
Proof.
  unfold find. intros H. apply find_from_Some in H as (_ & H2 & H3).
  rewrite N.sub_0_r in *. split; assumption.
Qed.

Lemma find_None (d m : bytes) :
  find d m = None -> forall q, starts_with m (drop q d) = false.
Proof. unfold find. apply find_from_None. Qed.

(** An occurrence at [q] puts the first occurrence at or before [q]. *)
Lemma find_le (d m : bytes) (q : N) :
  starts_with m (drop q d) = true -> exists p, find d m = Some p /\ p <= q.
Proof.
  intros H. destruct (find d m) as [p|] eqn:E.
  - exists p. split; [reflexivity|].
    destruct (N.le_gt_cases p q) as [Hle|Hgt]; [exact Hle|].
    apply find_Some in E as [_ E]. rewrite (E q Hgt) in H. discriminate.
  - rewrite (find_None _ _ E q) in H. discriminate.
Qed.

Lemma starts_with_app (m x d : bytes) :
  starts_with (m ++ x) d = true -> starts_with m d = true.
Proof.
  revert d. induction m as [|a m IH]; intros d H; [reflexivity|].
  destruct d as [|y d]; [discriminate|]. cbn [app starts_with] in *.
  apply andb_true_iff in H as [H1 H2]. now rewrite H1, (IH _ H2).
Qed.

(** A marker that extends another is not found where the shorter one is
    not. *)
Lemma find_None_app (d m x : bytes) : find d m = None -> find d (m ++ x) = None.
Proof.
  intros H. destruct (find d (m ++ x)) as [p|] eqn:E; [|reflexivity].
  apply find_Some in E as [E _]. apply starts_with_app in E.
  now rewrite (find_None _ _ H p) in E.
Qed.

Lemma starts_with_len (m d : bytes) : starts_with m d = true -> len m <= len d.
Proof.
  revert d. induction m as [|a m IH]; intros d H.
  - unfold len. simpl. lia.
  - destruct d as [|y d]; [discriminate|]. cbn [starts_with] in H.
    apply andb_true_iff in H as [_ H]. apply IH in H. unfold len in *.
    simpl List.length. lia.
Qed.

Lemma byte_eqb_eq (a b : byte) : byte_eqb a b = true -> a = b.
Proof. unfold byte_eqb. apply Byte.byte_dec_bl. Qed.

Lemma starts_with_split (m d : bytes) :
  starts_with m d = true -> d = m ++ drop (len m) d.
Proof.
  revert d. induction m as [|a m IH]; intros d H.
  - now rewrite drop_zero.
  - destruct d as [|y d]; [discriminate|]. cbn [starts_with] in H.
    apply andb_true_iff in H as [H1 H2]. apply byte_eqb_eq in H1 as <-.
    replace (len (a :: m)) with (N.succ (len m)) by (unfold len; simpl List.length; lia).
    rewrite drop_cons_succ. cbn [app]. f_equal. now apply IH.
Qed.

End FindFacts.

Section LocatorInvariants.

Import FrameLocator.

Lemma select_marker_Ok (markers : list bytes) (data : bytes) (pos : N) (marker : bytes) :
  select_marker markers data = Ok (pos, marker) ->
  In (pos, marker) (search_markers markers data)
  \/ (search_markers markers data = [] /\ In (pos, marker) (byte_scan data 0)).
Proof.
  unfold select_marker. intros H.
  destruct (search_markers markers data) as [|h0 t0] eqn:Es.
  - right. split; [reflexivity|].
    destruct (sort_hits (byte_scan data 0)) as [|first t] eqn:E; [discriminate|].
    injection H as ->. apply In_sort_hits. rewrite E. now left.
  - left. destruct (sort_hits (h0 :: t0)) as [|first t] eqn:E; [discriminate|].
    injection H as ->. apply In_sort_hits. rewrite E. now left.
Qed.

(** X1.  The split loses nothing: header and frame put together are the input. *)
Theorem parse_data_lossless (markers : list bytes) (data header_data thrift_frame : bytes) :
  parse_data markers data = Ok (header_data, thrift_frame) ->
  header_data ++ thrift_frame = data.
Proof.
  unfold parse_data, structural_attempt. intros H.
  destruct (9 <? len data); [destruct (frugal_sane data)|].
  1: { injection H as <- <-. apply take_drop_id. }
  all: apply bind_Ok in H as ([pos marker] & _ & H); injection H as <- <-;
    apply take_drop_id.
Qed.

Lemma parse_data_lossless_witness :
  parse_data default_markers two_marker_example
  = Ok ([x00; x00], [x80; x01; x00; x82; x21; x00])
  /\ [x00; x00] ++ [x80; x01; x00; x82; x21; x00] = two_marker_example.
Proof.
  split; [reflexivity|].
  apply (@parse_data_lossless default_markers). reflexivity.
Defined.

Lemma byte_scan_In (pos : N) (marker : bytes) : forall data i,
  In (pos, marker) (byte_scan data i) ->
  i <= pos /\ starts_with marker (drop (pos - i) data) = true
  /\ (marker = [x80; x01] \/ marker = [x82; x21]).
Proof.
  induction data as [|b0 r IH]; intros i H; [destruct H|].
  cbn [byte_scan] in H. destruct r as [|b1 [|b2 r']]; try destruct H.
  assert (Hrec : In (pos, marker) (byte_scan (b1 :: b2 :: r') (N.succ i)) ->
                 i <= pos /\ starts_with marker (drop (pos - i) (b0 :: b1 :: b2 :: r')) = true
                 /\ (marker = [x80; x01] \/ marker = [x82; x21])).
  { intros Hin. apply IH in Hin as (H1 & H2 & H3).
    replace (pos - i) with (N.succ (pos - N.succ i)) by lia.
    rewrite drop_cons_succ. repeat split; [lia | exact H2 | exact H3]. }
  destruct (is_protocol_pair b0 b1) eqn:E; [|now apply Hrec].
  destruct H as [H|H]; [|now apply Hrec].
  injection H as <- <-. rewrite N.sub_diag, drop_zero.
  unfold is_protocol_pair in E.
  split; [lia|].
  apply orb_true_iff in E as [E|E]; apply andb_true_iff in E as [E1 E2];
    pose proof (byte_eqb_eq _ _ E1) as ->; pose proof (byte_eqb_eq _ _ E2) as ->;
    (split; [reflexivity | auto]).
Qed.

(** An occurrence inside a prefix of the data is an occurrence in the data. *)
Lemma find_in_take (data m : bytes) (pos q : N) :
  m <> [] -> find (take pos data) m = Some q ->
  q < pos /\ exists p, find data m = Some p /\ p <= q.
Proof.
  intros Hm H. apply find_Some in H as [H _].
  rewrite drop_take in H. apply starts_with_take in H as [H1 H2].
  assert (0 < len m) by (destruct m; [congruence | unfold len; simpl; lia]).
  split; [lia|]. now apply find_le.
Qed.

(** X2.  When the structural attempt does not apply, the frame that comes out
    begins with a marker (a configured one, or one of the two protocol pairs
    when the byte scan found it), and no configured marker lies within the
    header. *)
Theorem marker_split_frame_and_header
        (markers : list bytes) (data header_data thrift_frame : bytes) :
  structural_attempt data = None ->
  parse_data markers data = Ok (header_data, thrift_frame) ->
  (exists marker,
     starts_with marker thrift_frame = true
     /\ (In marker markers
         \/ (search_markers markers data = []
             /\ (marker = [x80; x01] \/ marker = [x82; x21]))))
  /\ (forall m, In m markers -> m <> [] -> find header_data m = None).
Proof.
  intros Hs H. unfold parse_data in H. rewrite Hs in H.
  apply bind_Ok in H as ([pos marker] & Hsel & H). injection H as <- <-.
  unfold select_marker in Hsel.
  destruct (search_markers markers data) as [|h0 t0] eqn:Es.
  - destruct (sort_hits (byte_scan data 0)) as [|first t] eqn:E; [discriminate|].
    injection Hsel as ->.
    assert (Hin : In (pos, marker) (byte_scan data 0))
      by (apply In_sort_hits; rewrite E; now left).
    apply byte_scan_In in Hin as (_ & H2 & H3). rewrite N.sub_0_r in H2.
    split; [exists marker; auto|].
    intros m Hm Hne. destruct (find (take pos data) m) as [q|] eqn:Ef; [|reflexivity].
    apply find_in_take in Ef as (_ & p & Ep & _); [|exact Hne].
    assert (Hi : In (p, m) (search_markers markers data))
      by (apply In_search_markers; auto).
    rewrite Es in Hi. destruct Hi.
  - destruct (sort_hits (h0 :: t0)) as [|first t] eqn:E; [discriminate|].
    injection Hsel as ->. rewrite <- Es in E.
    assert (Hin : In (pos, marker) (search_markers markers data))
      by (apply In_sort_hits; rewrite E; now left).
    apply In_search_markers in Hin as [Hm Hf].
    split; [exists marker; split; [now apply find_Some in Hf | now left]|].
    intros m Hm' Hne. destruct (find (take pos data) m) as [q|] eqn:Ef; [|reflexivity].
    apply find_in_take in Ef as (Hq & p & Ep & Hp); [|exact Hne].
    assert (Hi : In (p, m) (search_markers markers data))
      by (apply In_search_markers; auto).
    pose proof (sort_hits_head _ E _ Hi) as Hl.
    apply hit_leb_spec in Hl as [Hl _]. lia.
Qed.

Lemma marker_split_frame_and_header_witness :
  (exists marker,
     starts_with marker [x80; x01; x00; x82; x21; x00] = true
     /\ (In marker default_markers
         \/ (search_markers default_markers two_marker_example = []
             /\ (marker = [x80; x01] \/ marker = [x82; x21]))))
  /\ (forall m, In m default_markers -> m <> [] -> find [x00; x00] m = None).
Proof.
  apply (@marker_split_frame_and_header default_markers two_marker_example);
    reflexivity.
Defined.

Lemma search_default_found (data : bytes) :
  find data [x80; x01] = None -> find data [x82; x21] = None ->
  search_markers default_markers data = [].
Proof.
  intros H1 H2. unfold default_markers. cbn [search_markers].
  rewrite H1, H2.
  pose proof (find_None_app data [x80; x01] [x00; x01] H1) as E1.
  pose proof (find_None_app data [x80; x01] [x00; x02] H1) as E2.
  pose proof (find_None_app data [x80; x01] [x00; x03] H1) as E3.
  pose proof (find_None_app data [x80; x01] [x00; x04] H1) as E4.
  cbn [app] in E1, E2, E3, E4. now rewrite E1, E2, E3, E4.
Qed.

Lemma sort_hits_nil (l : list (N * bytes)) : sort_hits l = [] -> l = [].
Proof.
  destruct l as [|h r]; [reflexivity|]. intros H.
  assert (Hin : In h (sort_hits (h :: r))) by (apply In_sort_hits; now left).
  rewrite H in Hin. destruct Hin.
Qed.

(** X3.  With the default markers, [parse_data] fails exactly when the structural
    attempt does not apply and neither [80 01] nor [82 21] occurs in the
    data, and the only exception it raises is the no-marker [ValueError]. *)
Theorem parse_data_failure (data : bytes) :
  (parse_data default_markers data = Raise no_marker_error
   <-> structural_attempt data = None
       /\ find data [x80; x01] = None /\ find data [x82; x21] = None)
  /\ (forall e, parse_data default_markers data = Raise e -> e = no_marker_error).
Proof.
  assert (Hraise : forall e, parse_data default_markers data = Raise e ->
            e = no_marker_error /\ structural_attempt data = None
            /\ search_markers default_markers data = []).
  { intros e H. unfold parse_data in H.
    destruct (structural_attempt data); [discriminate|].
    unfold select_marker in H.
    destruct (search_markers default_markers data) as [|h0 t0] eqn:Es.
    - destruct (sort_hits (byte_scan data 0)) as [|[p m] t]; [|discriminate].
      cbn [bind] in H. injection H as <-. auto.
    - destruct (sort_hits (h0 :: t0)) as [|[p m] t] eqn:E; [|discriminate].
      apply sort_hits_nil in E. discriminate. }
  split; [split|].
  - intros H. apply Hraise in H as (_ & Hs & Hn).
    apply search_default_nil in Hn as [H1 H2]. auto.
  - intros (Hs & H1 & H2). unfold parse_data. rewrite Hs.
    unfold select_marker.
    pose proof (search_default_found data H1 H2) as Hn.
    rewrite Hn, (byte_scan_redundant data Hn). reflexivity.
  - intros e H. now apply Hraise in H.
Qed.

End LocatorInvariants.

(* ===================================================================== *)
(** ** Further properties of [decode_headers] *)
(* ===================================================================== *)

Section HeaderInvariants.

Import EnvelopeCodec.

Lemma unpack_u32_len (b : bytes) (n : N) : unpack_u32 b = Ok n -> len b = 4 /\ n = be_value b.
Proof.
  unfold unpack_u32. destruct (N.eqb_spec (len b) 4); [|discriminate].
  intros H. injection H as <-. auto.
Qed.

Lemma unpack_u8_len (b : bytes) (n : N) : unpack_u8 b = Ok n -> len b = 1 /\ n = be_value b.
Proof.
  unfold unpack_u8. destruct (N.eqb_spec (len b) 1); [|discriminate].
  intros H. injection H as <-. auto.
Qed.

Lemma decode_headers_short_raises (header : bytes) :
  len header < 9 -> decode_headers header = Raise StructError.
Proof.
  intros H. unfold decode_headers, unpack_u32, unpack_u8.
  rewrite !len_slice.
  destruct (N.eqb_spec (N.min (4 - 0) (len header - 0)) 4) as [E1|E1]; [|reflexivity].
  cbn [bind].
  destruct (N.eqb_spec (N.min (5 - 4) (len header - 4)) 1) as [E2|E2]; [|reflexivity].
  cbn [bind].
  destruct (N.eqb_spec (N.min (9 - 5) (len header - 5)) 4) as [E3|E3]; [|reflexivity].
  lia.
Qed.

(** X4.  A header shorter than the nine bytes of the metadata cannot be decoded:
    [struct.error] is raised. *)
Theorem decode_headers_short (header : bytes) :
  len header < 9 -> decode_headers header = Raise StructError.
Proof. apply decode_headers_short_raises. Qed.

Lemma decode_headers_short_witness :
  decode_headers [x00; x00; x00; x05; x00; x00; x00; x00] = Raise StructError.
Proof. apply decode_headers_short. reflexivity. Defined.

Lemma be_value_acc_bound (bs : bytes) : forall acc,
  be_value_acc acc bs < (acc + 1) * 256 ^ len bs.
Proof.
  induction bs as [|b r IH]; intros acc.
  - cbn [be_value_acc]. change (len (@nil byte)) with 0. rewrite N.pow_0_r. lia.
  - cbn [be_value_acc].
    replace (len (b :: r)) with (N.succ (len r)) by (unfold len; simpl List.length; lia).
    rewrite N.pow_succ_r'. specialize (IH (acc * 256 + b2n b)).
    pose proof (b2n_bound b).
    assert ((acc * 256 + b2n b + 1) * 256 ^ len r <= (acc + 1) * (256 * 256 ^ len r)); [|lia].
    replace ((acc + 1) * (256 * 256 ^ len r)) with (((acc + 1) * 256) * 256 ^ len r) by lia.
    apply N.mul_le_mono_r. lia.
Qed.

Lemma be_value_bound (bs : bytes) : be_value bs < 256 ^ len bs.
Proof.
  unfold be_value. pose proof (be_value_acc_bound bs 0) as H. lia.
Qed.

Lemma decode_headers_metadata (header : bytes) :
  9 <= len header ->
  decode_headers header
  = (headers <- headers_loop (List.length header) header
                             (FrameLocator.header_length header) 9 [] ;;
     Ok [ (u "metadata",
           PDict [ (u "message_length", PInt (Z.of_N (FrameLocator.frame_size header)));
                   (u "version", PInt (Z.of_N (FrameLocator.version header)));
                   (u "header_length",
                    PInt (Z.of_N (FrameLocator.header_length header))) ]);
          (u "headers", PDict headers) ]).
Proof.
  intros H. unfold decode_headers, unpack_u32, unpack_u8.
  rewrite !len_slice.
  destruct (N.eqb_spec (N.min (4 - 0) (len header - 0)) 4) as [E1|E1]; [|lia].
  destruct (N.eqb_spec (N.min (5 - 4) (len header - 4)) 1) as [E2|E2]; [|lia].
  destruct (N.eqb_spec (N.min (9 - 5) (len header - 5)) 4) as [E3|E3]; [|lia].
  reflexivity.
Qed.

(** X5.  The header loop compares its offset, which starts at 9, with the header
    length: when the header length is at most 9 no pair is read, whatever
    bytes follow the metadata. *)
Theorem small_header_length_reads_no_pair (header : bytes) :
  9 <= len header -> FrameLocator.header_length header <= 9 ->
  decode_headers header
  = Ok [ (u "metadata",
          PDict [ (u "message_length", PInt (Z.of_N (FrameLocator.frame_size header)));
                  (u "version", PInt (Z.of_N (FrameLocator.version header)));
                  (u "header_length",
                   PInt (Z.of_N (FrameLocator.header_length header))) ]);
         (u "headers", PDict []) ].
Proof.
  intros H1 H2. rewrite decode_headers_metadata by exact H1.
  rewrite headers_loop_unfold.
  destruct (N.ltb_spec 9 (FrameLocator.header_length header)); [lia | reflexivity].
Qed.

End HeaderInvariants.

Section HeaderShape.

Import EnvelopeCodec.

Lemma small_header_length_reads_no_pair_witness :
  decode_headers [x00; x00; x00; x1f; x01; x00; x00; x00; x05;
                  x00; x00; x00; x01; x61; x00; x00; x00; x01; x62]
  = Ok [ (u "metadata", PDict [ (u "message_length", PInt 31);
                                (u "version", PInt 1);
                                (u "header_length", PInt 5) ]);
         (u "headers", PDict []) ].
Proof.
  apply (@small_header_length_reads_no_pair
           [x00; x00; x00; x1f; x01; x00; x00; x00; x05;
            x00; x00; x00; x01; x61; x00; x00; x00; x01; x62]).
  - unfold len. simpl. lia.
  - unfold FrameLocator.header_length, be_value. simpl. lia.
Defined.

Lemma dict_set_keys (d : pydict) (k : pystr) (v : pyval) (x : pystr) :
  In x (map fst (dict_set d k v)) <-> In x (map fst d) \/ x = k.
Proof.
  induction d as [|[k' v'] r IH]; cbn [dict_set map fst In].
  - intuition.
  - destruct (pystr_eqb k' k) eqn:E; cbn [map fst In].
    + apply pystr_eqb_eq in E. subst. intuition.
    + rewrite IH. intuition.
Qed.

Lemma dict_set_NoDup (d : pydict) (k : pystr) (v : pyval) :
  NoDup (map fst d) -> NoDup (map fst (dict_set d k v)).
Proof.
  induction d as [|[k' v'] r IH]; cbn [dict_set map fst]; intros H.
  - constructor; [intros []|constructor].
  - inversion H as [|? ? Hn Hr]; subst.
    destruct (pystr_eqb k' k) eqn:E; cbn [map fst].
    + now constructor.
    + constructor; [|now apply IH].
      rewrite dict_set_keys. intros [Hi|He]; [now apply Hn|].
      subst. assert (pystr_eqb k k = true) by now apply pystr_eqb_eq.
      congruence.
Qed.

Lemma dict_set_str_valued (d : pydict) (k s : pystr) :
  str_valued d -> str_valued (dict_set d k (PStr s)).
Proof.
  unfold str_valued.
  induction d as [|[k' v'] r IH]; cbn [dict_set]; intros H.
  - constructor; [now exists s | constructor].
  - inversion H as [|? ? Hv Hr]; subst.
    destruct (pystr_eqb k' k); constructor; auto. now exists s.
Qed.

Lemma headers_loop_keeps (mb : bytes) (dl : N) : forall fuel offset hs r,
  NoDup (map fst hs) -> str_valued hs ->
  headers_loop fuel mb dl offset hs = Ok r ->
  NoDup (map fst r) /\ str_valued r.
Proof.
  induction fuel as [|fuel IH]; intros offset hs r Hn Hv H;
    rewrite headers_loop_unfold in H;
    (destruct (offset <? dl); [|injection H as <-; auto]);
    apply bind_Ok in H as (kl & _ & H);
    apply bind_Ok in H as (key & _ & H);
    apply bind_Ok in H as (vl & _ & H);
    apply bind_Ok in H as (value & _ & H).
  - discriminate.
  - eapply IH; [| |exact H].
    + now apply dict_set_NoDup.
    + now apply dict_set_str_valued.
Qed.

(** X6.  Whatever [decode_headers] returns has the same shape: at least nine bytes
    were given, the metadata are the three fields of the first nine bytes
    (each within the range of its width), and the headers form a mapping with
    distinct keys whose values are strs. *)
Theorem decode_headers_shape (header : bytes) (message : pydict) :
  decode_headers header = Ok message ->
  9 <= len header
  /\ FrameLocator.frame_size header < 2 ^ 32
  /\ FrameLocator.version header < 256
  /\ FrameLocator.header_length header < 2 ^ 32
  /\ exists headers,
       message
       = [ (u "metadata",
            PDict [ (u "message_length", PInt (Z.of_N (FrameLocator.frame_size header)));
                    (u "version", PInt (Z.of_N (FrameLocator.version header)));
                    (u "header_length",
                     PInt (Z.of_N (FrameLocator.header_length header))) ]);
           (u "headers", PDict headers) ]
       /\ NoDup (map fst headers)
       /\ Forall (fun kv => exists s, snd kv = PStr s) headers.
Proof.
  intros H.
  assert (H9 : 9 <= len header).
  { destruct (N.le_gt_cases 9 (len header)) as [Hle|Hgt]; [exact Hle|].
    rewrite decode_headers_short_raises in H by exact Hgt. discriminate. }
  split; [exact H9|].
  assert (B : forall a b, len (slice a b header) = b - a ->
                          be_value (slice a b header) < 256 ^ (b - a)).
  { intros a b E. rewrite <- E. apply be_value_bound. }
  unfold FrameLocator.frame_size, FrameLocator.version, FrameLocator.header_length.
  split; [apply (B 0 4); rewrite len_slice; lia|].
  split; [apply (B 4 5); rewrite len_slice; lia|].
  split; [apply (B 5 9); rewrite len_slice; lia|].
  rewrite decode_headers_metadata in H by exact H9.
  apply bind_Ok in H as (hs & Hl & H). injection H as <-.
  exists hs. split; [reflexivity|].
  apply headers_loop_keeps in Hl; [exact Hl | constructor | constructor].
Qed.

Lemma decode_headers_shape_witness :
  9 <= len value_overrun_example
  /\ FrameLocator.frame_size value_overrun_example < 2 ^ 32
  /\ FrameLocator.version value_overrun_example < 256
  /\ FrameLocator.header_length value_overrun_example < 2 ^ 32
  /\ exists headers,
       [ (u "metadata", PDict [ (u "message_length", PInt 31);
                                (u "version", PInt 0);
                                (u "header_length", PInt 10) ]);
         (u "headers", PDict [ (u "a", PStr (u "b")) ]) ]
       = [ (u "metadata",
            PDict [ (u "message_length",
                     PInt (Z.of_N (FrameLocator.frame_size value_overrun_example)));
                    (u "version",
                     PInt (Z.of_N (FrameLocator.version value_overrun_example)));
                    (u "header_length",
                     PInt (Z.of_N (FrameLocator.header_length value_overrun_example))) ]);
           (u "headers", PDict headers) ]
       /\ NoDup (map fst headers)
       /\ Forall (fun kv => exists s, snd kv = PStr s) headers.
Proof.
  apply (@decode_headers_shape value_overrun_example). reflexivity.
Defined.

(** The header loop over the bytes of plain pairs, keys repeated or not: each
    pair is stored with [headers[key] = value]. *)
Lemma headers_loop_wire (todo : pydict) : forall fuel pre L offset acc,
  Forall plain_pair todo -> len (wire todo) < 2 ^ 32 ->
  (List.length todo <= fuel)%nat ->
  offset = len pre -> L + 9 = offset + len (wire todo) ->
  headers_loop fuel (pre ++ wire todo) L offset acc
  = Ok (fold_left (fun d kv => dict_set d (fst kv) (snd kv)) todo acc).
Proof.
  induction todo as [|[k x] r IH]; intros fuel pre L offset acc Hp Hl Hf Ho HL.
  - rewrite headers_loop_unfold. cbn [wire] in HL.
    replace (len (@nil byte)) with 0 in HL by reflexivity.
    destruct (N.ltb_spec offset L); [lia|]. reflexivity.
  - inversion Hp as [|? ? (v & Ex & Nk & Nv & Ak & Av) Hr]; subst.
    simpl in Ex, Nk, Ak. subst x. cbn [wire] in *.
    rewrite len_app, len_wire_pair in Hl, HL.
    assert (0 < len k) by (destruct k; [congruence | unfold len; simpl; lia]).
    assert (0 < len v) by (destruct v; [congruence | unfold len; simpl; lia]).
    destruct fuel as [|fuel]; [simpl in Hf; lia|].
    rewrite headers_loop_pair by (auto; lia).
    rewrite (app_assoc pre).
    rewrite IH with (pre := pre ++ wire_pair k v).
    + reflexivity.
    + exact Hr.
    + lia.
    + simpl in Hf. lia.
    + now rewrite len_app.
    + rewrite len_wire_pair. lia.
Qed.

Lemma dict_get_set_same (d : pydict) (k : pystr) (v : pyval) :
  dict_get (dict_set d k v) k = Some v.
Proof.
  assert (R : pystr_eqb k k = true) by now apply pystr_eqb_eq.
  induction d as [|[k' v'] r IH]; cbn [dict_set dict_get].
  - now rewrite R.
  - destruct (pystr_eqb k' k) eqn:E; cbn [dict_get]; now rewrite E.
Qed.

Lemma dict_get_set_other (d : pydict) (k k' : pystr) (v : pyval) :
  k' <> k -> dict_get (dict_set d k v) k' = dict_get d k'.
Proof.
  intros Hne.
  assert (R : pystr_eqb k k' = false).
  { destruct (pystr_eqb k k') eqn:E; [|reflexivity].
    apply pystr_eqb_eq in E. congruence. }
  induction d as [|[k0 v0] r IH]; cbn [dict_set dict_get].
  - now rewrite R.
  - destruct (pystr_eqb k0 k) eqn:E; cbn [dict_get].
    + apply pystr_eqb_eq in E. subst k0. now rewrite R.
    + now rewrite IH.
Qed.

Lemma fold_set_get_absent (l : pydict) (k : pystr) : forall acc,
  ~ In k (map fst l) ->
  dict_get (fold_left (fun d kv => dict_set d (fst kv) (snd kv)) l acc) k
  = dict_get acc k.
Proof.
  induction l as [|[k0 v0] r IH]; intros acc Hn; [reflexivity|].
  cbn [fold_left fst snd]. rewrite IH.
  - apply dict_get_set_other. intros ->. apply Hn. now left.
  - intros Hi. apply Hn. now right.
Qed.

(** The metadata prefix followed by the bytes of plain pairs, decoded. *)
Lemma decode_headers_wire (hs : pydict) (frame_size : N) :
  Forall plain_pair hs -> frame_size < 2 ^ 32 -> len (wire hs) < 2 ^ 32 ->
  decode_headers ((be_bytes 4 frame_size ++ [x00] ++ be_bytes 4 (len (wire hs)))
                  ++ wire hs)
  = Ok [ (u "metadata",
          PDict [ (u "message_length", PInt (Z.of_N frame_size));
                  (u "version", PInt 0);
                  (u "header_length", PInt (Z.of_N (len (wire hs)))) ]);
         (u "headers",
          PDict (fold_left (fun d kv => dict_set d (fst kv) (snd kv)) hs [])) ].
Proof.
  intros Hp Hf Hl.
  set (F := be_bytes 4 frame_size). set (H := be_bytes 4 (len (wire hs))).
  assert (E1 : slice 0 4 (F ++ [x00] ++ H ++ wire hs) = F).
  { apply (@slice_at _ [] F); [reflexivity | unfold F; now rewrite len_be_bytes]. }
  assert (E2 : slice 4 5 (F ++ [x00] ++ H ++ wire hs) = [x00]).
  { rewrite app_assoc.
    apply (@slice_at _ F [x00]); unfold F; rewrite ?len_be_bytes; reflexivity. }
  assert (E3 : slice 5 9 (F ++ [x00] ++ H ++ wire hs) = H).
  { rewrite app_assoc, (app_assoc _ H).
    rewrite <- (app_assoc F).
    apply (@slice_at _ (F ++ [x00]) H);
      rewrite ?len_app; unfold F, H; rewrite !len_be_bytes; reflexivity. }
  unfold decode_headers.
  rewrite <- !app_assoc. rewrite E1, E2, E3. unfold F at 1, H at 1.
  rewrite !unpack_u32_be by assumption. cbn [bind].
  change (unpack_u8 [x00]) with (@Ok N 0). cbn [bind].
  rewrite (app_assoc F), (app_assoc _ H).
  rewrite headers_loop_wire; [reflexivity | exact Hp | exact Hl | | | ].
  - rewrite !length_app. pose proof (length_wire_plain Hp). lia.
  - rewrite !len_app. unfold F, H. rewrite !len_be_bytes. reflexivity.
  - lia.
Qed.

Lemma fold_set_distinct (l : pydict) : forall acc,
  NoDup (map fst acc ++ map fst l) ->
  fold_left (fun d kv => dict_set d (fst kv) (snd kv)) l acc = acc ++ l.
Proof.
  induction l as [|[k v] r IH]; intros acc Hn; cbn [fold_left fst snd].
  - now rewrite app_nil_r.
  - rewrite dict_set_new.
    + rewrite IH; [now rewrite <- app_assoc|].
      cbn [map fst] in Hn. now rewrite map_app, <- app_assoc.
    + cbn [map fst] in Hn. apply NoDup_remove_2 in Hn. intros Hi. apply Hn.
      apply in_or_app. now left.
Qed.

(** X7.  When a key occurs more than once in a header block, the value that
    [decode_headers] keeps for it is the one of its last occurrence. *)
Theorem repeated_header_key_last_wins
        (before after : pydict) (k v : pystr) (frame_size : N) :
  let hs := before ++ (k, PStr v) :: after in
  Forall plain_pair hs -> ~ In k (map fst after) ->
  frame_size < 2 ^ 32 -> len (wire hs) < 2 ^ 32 ->
  exists prefix message headers,
    frame_prefix frame_size (len (wire hs)) = Ok prefix
    /\ decode_headers (prefix ++ wire hs) = Ok message
    /\ dict_get message (u "headers") = Some (PDict headers)
    /\ headers = fold_left (fun d kv => dict_set d (fst kv) (snd kv)) hs []
    /\ dict_get headers k = Some (PStr v).
Proof.
  intros hs Hp Hn Hf Hl.
  eexists. eexists. eexists. split; [now apply frame_prefix_Ok|].
  split; [now apply decode_headers_wire|].
  split; [reflexivity|]. split; [reflexivity|].
  unfold hs. rewrite fold_left_app. cbn [fold_left fst snd].
  rewrite fold_set_get_absent by exact Hn. apply dict_get_set_same.
Qed.

Lemma repeated_header_key_last_wins_witness :
  exists prefix message headers,
    frame_prefix 31 (len (wire ([ (u "k", PStr (u "old")) ]
                                ++ (u "k", PStr (u "new")) :: []))) = Ok prefix
    /\ decode_headers (prefix ++ wire ([ (u "k", PStr (u "old")) ]
                                       ++ (u "k", PStr (u "new")) :: []))
       = Ok message
    /\ dict_get message (u "headers") = Some (PDict headers)
    /\ headers = fold_left (fun d kv => dict_set d (fst kv) (snd kv))
                           ([ (u "k", PStr (u "old")) ]
                            ++ (u "k", PStr (u "new")) :: []) []
    /\ dict_get headers (u "k") = Some (PStr (u "new")).
Proof.
  apply (@repeated_header_key_last_wins
           [ (u "k", PStr (u "old")) ] [] (u "k") (u "new") 31).
  - repeat constructor.
    + exists (u "old"). repeat split; discriminate.
    + exists (u "new"). repeat split; discriminate.
  - intros [].
  - reflexivity.
  - reflexivity.
Defined.

End HeaderShape.

(* ===================================================================== *)
(** ** The message [encode_data] builds *)
(* ===================================================================== *)

Section EncodedMessage.

Import FrameLocator EnvelopeCodec Encoder.

Variable py : builtins.
Variable TCompactProtocol : TProtocol.

Lemma pack_u32_Ok (n : N) (b : bytes) :
  pack_u32 n = Ok b -> n < 2 ^ 32 /\ b = be_bytes 4 n.
Proof.
  unfold pack_u32. destruct (N.ltb_spec n (2 ^ 32)) as [Hn|Hn]; [|discriminate].
  intros H. injection H as <-. auto.
Qed.

Lemma frame_prefix_inv (frame_size header_length : N) (prefix : bytes) :
  frame_prefix frame_size header_length = Ok prefix ->
  frame_size < 2 ^ 32 /\ header_length < 2 ^ 32
  /\ prefix = be_bytes 4 frame_size ++ [x00] ++ be_bytes 4 header_length.
Proof.
  unfold frame_prefix. intros H.
  apply bind_Ok in H as (a & Ha & H). apply bind_Ok in H as (c & Hc & H).
  apply pack_u32_Ok in Ha as [Ha ->]. apply pack_u32_Ok in Hc as [Hc ->].
  injection H as <-. auto.
Qed.

(** The parts [encode_data] puts together. *)
Lemma encode_data_parts (compact : bool) (x : pyval) (message : bytes) :
  encode_data py TCompactProtocol compact x = Ok message ->
  exists hs thrift_data headers thrift_message,
    py_getitem x (u "headers") = Ok hs
    /\ ((exists d, hs = PDict d /\ encode_headers d = Ok headers)
        \/ ((forall d, hs <> PDict d) /\ headers = []))
    /\ py_getitem x (u "thrift") = Ok thrift_data
    /\ write_thrift_message py TCompactProtocol compact thrift_data = Ok thrift_message
    /\ len headers + len thrift_message + 5 < 2 ^ 32
    /\ message = be_bytes 4 (len headers + len thrift_message + 5) ++ [x00]
                 ++ be_bytes 4 (len headers) ++ headers ++ thrift_message.
Proof.
  unfold encode_data. intros H.
  apply bind_Ok in H as (hs & Hhs & H).
  apply bind_Ok in H as (headers & Hh & H).
  apply bind_Ok in H as (thrift_data & Ht & H).
  apply bind_Ok in H as (thrift_message & Hw & H).
  apply bind_Ok in H as (prefix & Hp & H).
  apply frame_prefix_inv in Hp as (H1 & H2 & ->). injection H as <-.
  exists hs, thrift_data, headers, thrift_message.
  split; [exact Hhs|]. split.
  { destruct hs as [| | | | | | | |d];
      try (right; split; [discriminate|];
           apply bind_Ok in Hh as (keys & _ & Hh);
           destruct keys as [|[] ?]; now inversion Hh).
    left. eauto. }
  repeat split; try assumption; try now rewrite <- !app_assoc.
Qed.

Lemma encode_data_fields (compact : bool) (x : pyval) (message : bytes) :
  encode_data py TCompactProtocol compact x = Ok message ->
  exists thrift_data headers thrift_message,
    py_getitem x (u "thrift") = Ok thrift_data
    /\ write_thrift_message py TCompactProtocol compact thrift_data = Ok thrift_message
    /\ len headers + len thrift_message + 5 < 2 ^ 32
    /\ message = (be_bytes 4 (len headers + len thrift_message + 5) ++ [x00]
                  ++ be_bytes 4 (len headers)) ++ headers ++ thrift_message
    /\ len message = 9 + len headers + len thrift_message
    /\ frame_size message = len headers + len thrift_message + 5
    /\ version message = 0
    /\ header_length message = len headers.
Proof.
  intros H. apply encode_data_parts in H
    as (hs & thrift_data & headers & thrift_message & _ & _ & Hg & Hw & Hb & ->).
  exists thrift_data, headers, thrift_message.
  set (F := be_bytes 4 (len headers + len thrift_message + 5)).
  set (L := be_bytes 4 (len headers)).
  assert (El : len (F ++ [x00] ++ L ++ headers ++ thrift_message)
               = 9 + len headers + len thrift_message).
  { rewrite !len_app. unfold F, L. rewrite !len_be_bytes.
    change (len [x00]) with 1. change (N.of_nat 4) with 4. lia. }
  assert (E1 : slice 0 4 (F ++ [x00] ++ L ++ headers ++ thrift_message) = F).
  { apply (@slice_at _ [] F); [reflexivity | unfold F; now rewrite len_be_bytes]. }
  assert (E2 : slice 4 5 (F ++ [x00] ++ L ++ headers ++ thrift_message) = [x00]).
  { rewrite app_assoc.
    apply (@slice_at _ F [x00]); unfold F; rewrite ?len_be_bytes; reflexivity. }
  assert (E3 : slice 5 9 (F ++ [x00] ++ L ++ headers ++ thrift_message) = L).
  { rewrite app_assoc, (app_assoc _ L). rewrite <- (app_assoc F).
    apply (@slice_at _ (F ++ [x00]) L);
      rewrite ?len_app; unfold F, L; rewrite !len_be_bytes; reflexivity. }
  unfold frame_size, version, header_length. rewrite E1, E2, E3.
  assert (B1 : be_value F = len headers + len thrift_message + 5)
    by (unfold F; apply be_value_be_bytes; exact Hb).
  assert (B2 : be_value L = len headers)
    by (unfold L; apply be_value_be_bytes;
        change (256 ^ N.of_nat 4) with (2 ^ 32); lia).
  repeat split; try assumption; try (now rewrite <- !app_assoc).
Qed.

(** The bytes of a frame put together as [encode_data] does. *)
Lemma framed_message_fields (headers thrift_message : bytes) :
  len headers + len thrift_message + 5 < 2 ^ 32 ->
  let message := be_bytes 4 (len headers + len thrift_message + 5) ++ [x00]
                 ++ be_bytes 4 (len headers) ++ headers ++ thrift_message in
  len message = 9 + len headers + len thrift_message
  /\ frame_size message = len headers + len thrift_message + 5
  /\ version message = 0
  /\ header_length message = len headers.
Proof.
  intros Hb message. subst message.
  set (F := be_bytes 4 (len headers + len thrift_message + 5)).
  set (L := be_bytes 4 (len headers)).
  assert (El : len (F ++ [x00] ++ L ++ headers ++ thrift_message)
               = 9 + len headers + len thrift_message).
  { rewrite !len_app. unfold F, L. rewrite !len_be_bytes.
    change (len [x00]) with 1. change (N.of_nat 4) with 4. lia. }
  assert (E1 : slice 0 4 (F ++ [x00] ++ L ++ headers ++ thrift_message) = F).
  { apply (@slice_at _ [] F); [reflexivity | unfold F; now rewrite len_be_bytes]. }
  assert (E2 : slice 4 5 (F ++ [x00] ++ L ++ headers ++ thrift_message) = [x00]).
  { rewrite app_assoc.
    apply (@slice_at _ F [x00]); unfold F; rewrite ?len_be_bytes; reflexivity. }
  assert (E3 : slice 5 9 (F ++ [x00] ++ L ++ headers ++ thrift_message) = L).
  { rewrite app_assoc, (app_assoc _ L). rewrite <- (app_assoc F).
    apply (@slice_at _ (F ++ [x00]) L);
      rewrite ?len_app; unfold F, L; rewrite !len_be_bytes; reflexivity. }
  unfold frame_size, version, header_length. rewrite E1, E2, E3.
  assert (B1 : be_value F = len headers + len thrift_message + 5)
    by (unfold F; apply be_value_be_bytes; exact Hb).
  assert (B2 : be_value L = len headers)
    by (unfold L; apply be_value_be_bytes;
        change (256 ^ N.of_nat 4) with (2 ^ 32); lia).
  repeat split; assumption.
Qed.

(** X8.  An encoded message is made of the two parts the encoder computes and of
    their lengths.  The header block is what the header loop gives for
    [x["headers"]] (nothing, when that is not a dict and the loop has nothing
    to run over), the Thrift message is what [write_thrift_message] gives for
    [x["thrift"]]; the first four bytes hold the length of the message less
    these four bytes, the fifth is the version 0, the next four hold the
    length of the header block, and the header block and the Thrift message
    follow. *)
Theorem encode_data_layout (compact : bool) (x : pyval) (message : bytes) :
  encode_data py TCompactProtocol compact x = Ok message ->
  exists hs thrift_data headers thrift_message,
    py_getitem x (u "headers") = Ok hs
    /\ ((exists d, hs = PDict d /\ encode_headers d = Ok headers)
        \/ ((forall d, hs <> PDict d) /\ headers = []))
    /\ py_getitem x (u "thrift") = Ok thrift_data
    /\ write_thrift_message py TCompactProtocol compact thrift_data = Ok thrift_message
    /\ message = be_bytes 4 (len message - 4) ++ [x00]
                 ++ be_bytes 4 (len headers) ++ headers ++ thrift_message
    /\ len message = 9 + len headers + len thrift_message
    /\ len message - 4 < 2 ^ 32
    /\ frame_size message = len message - 4
    /\ version message = 0
    /\ header_length message = len headers.
Proof.
  intros H. apply encode_data_parts in H
    as (hs & thrift_data & headers & thrift_message & Hhs & Hh & Hg & Hw & Hb & E).
  destruct (framed_message_fields headers thrift_message Hb) as (El & Hf & Hv & Hl).
  cbv zeta in El, Hf, Hv, Hl. rewrite <- E in El, Hf, Hv, Hl.
  exists hs, thrift_data, headers, thrift_message.
  replace (len message - 4) with (len headers + len thrift_message + 5) by lia.
  repeat split; assumption.
Qed.

(** X9.  [parse_data] cuts an encoded message exactly where [encode_data] joined
    the header block and the Thrift message, whatever the markers and
    whatever bytes the two parts hold. *)
Theorem encode_then_parse (compact : bool) (x : pyval) (message : bytes)
        (markers : list bytes) :
  encode_data py TCompactProtocol compact x = Ok message ->
  9 < len message ->
  exists thrift_data headers thrift_message,
    py_getitem x (u "thrift") = Ok thrift_data
    /\ write_thrift_message py TCompactProtocol compact thrift_data = Ok thrift_message
    /\ len headers = header_length message
    /\ parse_data markers message
       = Ok (take 9 message ++ headers, thrift_message).
Proof.
  intros H Hlen. apply encode_data_fields in H
    as (thrift_data & headers & thrift_message & Hg & Hw & Hb & E & El & Hf & Hv & Hh).
  exists thrift_data, headers, thrift_message.
  repeat split; try assumption; [now rewrite Hh|].
  unfold parse_data, structural_attempt, frugal_sane.
  apply N.ltb_lt in Hlen. rewrite Hlen. apply N.ltb_lt in Hlen.
  rewrite Hf, Hv, Hh.
  replace (0 <? len headers + len thrift_message + 5) with true
    by (symmetry; apply N.ltb_lt; lia).
  replace (len headers + len thrift_message + 5 <? len message) with true
    by (symmetry; apply N.ltb_lt; lia).
  replace (len headers <? len headers + len thrift_message + 5) with true
    by (symmetry; apply N.ltb_lt; lia).
  change (0 <=? 0) with true. change (0 <=? 1) with true. cbn [andb].
  set (P := be_bytes 4 (len headers + len thrift_message + 5) ++ [x00]
            ++ be_bytes 4 (len headers)) in E.
  assert (LP : len P = 9) by (unfold P; rewrite !len_app, !len_be_bytes; reflexivity).
  assert (P9 : take 9 message = P)
    by (rewrite E, <- LP; apply take_app_exact).
  rewrite P9.
  replace (9 + len headers) with (len (P ++ headers)) by (rewrite len_app; lia).
  assert (E' : message = (P ++ headers) ++ thrift_message)
    by (now rewrite <- app_assoc).
  rewrite E' at 1 2. now rewrite take_app_exact, drop_app_exact.
Qed.

End EncodedMessage.

Section EncodedMessageExamples.

Import FrameLocator Encoder.

Lemma encode_data_layout_witness :
  exists hs thrift_data headers thrift_message,
    py_getitem document_example (u "headers") = Ok hs
    /\ ((exists d, hs = PDict d /\ EnvelopeCodec.encode_headers d = Ok headers)
        \/ ((forall d, hs <> PDict d) /\ headers = []))
    /\ py_getitem document_example (u "thrift") = Ok thrift_data
    /\ write_thrift_message refusing_builtins TBinaryProtocol.protocol false
                            thrift_data = Ok thrift_message
    /\ message_example = be_bytes 4 (len message_example - 4) ++ [x00]
                         ++ be_bytes 4 (len headers) ++ headers ++ thrift_message
    /\ len message_example = 9 + len headers + len thrift_message
    /\ len message_example - 4 < 2 ^ 32
    /\ frame_size message_example = len message_example - 4
    /\ version message_example = 0
    /\ header_length message_example = len headers.
Proof.
  apply (@encode_data_layout refusing_builtins TBinaryProtocol.protocol
                             false document_example message_example).
  reflexivity.
Defined.

Lemma encode_then_parse_witness :
  exists thrift_data headers thrift_message,
    py_getitem document_example (u "thrift") = Ok thrift_data
    /\ write_thrift_message refusing_builtins TBinaryProtocol.protocol false
                            thrift_data = Ok thrift_message
    /\ len headers = header_length message_example
    /\ parse_data default_markers message_example
       = Ok (take 9 message_example ++ headers, thrift_message).
Proof.
  apply (@encode_then_parse refusing_builtins TBinaryProtocol.protocol
                            false document_example message_example default_markers).
  - reflexivity.
  - unfold len. simpl. lia.
Defined.

End EncodedMessageExamples.

(* ===================================================================== *)
(** ** Further properties of the encoder *)
(* ===================================================================== *)

Section TypeTables.

Import Thrift Encoder CustomResponseMessage.

(** X10.  The table of type names of the decoder and the one of the encoder are
    inverse to each other on the eleven types, and the name the decoder
    gives to any other type is no key of the encoder's table. *)
Theorem type_name_tables_agree :
  (forall t, supported_type t = true -> FIELD_TYPE_MAP (_get_type_name t) = Some t)
  /\ (forall name t, FIELD_TYPE_MAP name = Some t ->
                     _get_type_name t = name /\ supported_type t = true)
  /\ (forall t, supported_type t = false -> FIELD_TYPE_MAP (_get_type_name t) = None).
Proof.
  split; [|split].
  - intros t H. unfold supported_type in H.
    repeat (apply orb_true_iff in H as [H|H]);
      apply Z.eqb_eq in H; subst t; reflexivity.
  - intros name t H. unfold FIELD_TYPE_MAP in H.
    repeat match type of H with
           | (if pystr_eqb ?a ?b then _ else _) = _ =>
             destruct (pystr_eqb a b) eqn:E;
               [apply pystr_eqb_eq in E; subst name; injection H as <-;
                split; reflexivity | clear E]
           end.
    discriminate.
  - intros t H. unfold supported_type in H.
    repeat (apply orb_false_iff in H as [H ?]).
    unfold _get_type_name. rewrite_tests. reflexivity.
Qed.

End TypeTables.

Section WriterProperties.

Import Thrift Encoder.

Variable py : builtins.
Variable P : TProtocol.

Lemma for_each_app {A} (a b : list A) (body : A -> pstate P -> result (pstate P)) :
  forall s,
    for_each P (a ++ b) body s = (s' <- for_each P a body s ;; for_each P b body s').
Proof.
  induction a as [|x a IH]; intros s; cbn [app for_each bind]; [reflexivity|].
  destruct (body x s) as [s1| |]; cbn [bind]; [apply IH | reflexivity..].
Qed.

Lemma for_each_ext {A} (l : list A) (f g : A -> pstate P -> result (pstate P)) :
  (forall x s, In x l -> f x s = g x s) ->
  forall s, for_each P l f s = for_each P l g s.
Proof.
  induction l as [|x l IH]; intros H s; cbn [for_each]; [reflexivity|].
  rewrite H by now left. destruct (g x s) as [s1| |]; cbn [bind]; try reflexivity.
  apply IH. intros y s' Hy. apply H. now right.
Qed.

(** X11.  [write_simple_value] writes what [write_field_value] writes for the six
    numeric and boolean types and for a str sent as a string; it refuses a
    struct, which [write_field_value] accepts. *)
Theorem write_simple_value_agrees (fuel : nat) (t : Z) (value : pyval) (s : pstate P) :
  (t = TType.BOOL \/ t = TType.BYTE \/ t = TType.I16 \/ t = TType.I32
   \/ t = TType.I64 \/ t = TType.DOUBLE
   \/ (t = TType.STRING /\ exists v, value = PStr v)) ->
  write_simple_value py P t value s = write_field_value py P (S fuel) t value s
  /\ write_simple_value py P TType.STRUCT value s
     = Raise (ValueError (u "Unsupported simple thrift type in list: 12")).
Proof.
  intros H. split; [|reflexivity].
  destruct H as [->|[->|[->|[->|[->|[->|[-> [v ->]]]]]]]]; reflexivity.
Qed.

(** X12.  A list field that names a container type as its element type cannot be
    written once it has an item: after the list header the first item is
    refused with a [ValueError]. *)
Theorem nested_container_rejected
        (fuel : nat) (field : pydict) (name : pystr) (t : Z)
        (item : pyval) (items : list pyval) (s s' : pstate P) :
  get field (u "element_type") = PStr name ->
  FIELD_TYPE_MAP name = Some t ->
  t = TType.MAP \/ t = TType.SET \/ t = TType.LIST ->
  get field (u "value") = PList (item :: items) ->
  writeListBegin P t (len (item :: items)) s = Ok s' ->
  write_value py P (S (S fuel)) TType.LIST field s
  = Raise (unsupported (u "Unsupported simple thrift type: ") t).
Proof.
  intros He Ht Hc Hv Hb.
  assert (Hn : name <> []) by (intros ->; discriminate).
  cbn [write_value]. change (TType.LIST =? TType.BOOL)%Z with false.
  cbv iota. rewrite He, Hv.
  replace (truthy (PStr name)) with true by (destruct name; [congruence | reflexivity]).
  cbn [negb type_map_get bind]. rewrite Ht. cbn [bind or_empty truthy py_len].
  rewrite Hb. cbn [bind py_iter for_each].
  destruct Hc as [-> | [-> | ->]]; reflexivity.
Qed.

End WriterProperties.

Section ContainerWriting.

Import Thrift Encoder.

Variable py : builtins.
Variable P : TProtocol.

Lemma for_each_filter {A} (keep : A -> bool)
      (f g : A -> pstate P -> result (pstate P)) (l : list A) :
  (forall x s, keep x = false -> f x s = Ok s) ->
  (forall x s, keep x = true -> f x s = g x s) ->
  forall s, for_each P l f s = for_each P (filter keep l) g s.
Proof.
  intros Hskip Hkeep. induction l as [|x l IH]; intros s; cbn [for_each filter].
  - reflexivity.
  - destruct (keep x) eqn:E.
    + cbn [for_each]. rewrite (Hkeep x s E).
      destruct (g x s) as [s1| |]; cbn [bind]; [apply IH | reflexivity..].
    + rewrite (Hskip x s E). cbn [bind]. apply IH.
Qed.

(** X13.  The size a map field announces is the number of its entries, but only
    the entries that are dicts with a ["key"] and a ["value"] are written:
    the others are passed over without an error. *)
Theorem map_size_counts_every_entry
        (fuel : nat) (field : pydict) (entries : list pyval)
        (key_type value_type : Z) (s : pstate P) :
  get field (u "value") = PList entries -> entries <> [] ->
  type_map_get (or_string (get field (u "key_type"))) = Ok (Some key_type) ->
  type_map_get (or_string (get field (u "value_type"))) = Ok (Some value_type) ->
  write_value py P (S fuel) TType.MAP field s
  = (s <- writeMapBegin P (Some key_type) (Some value_type) (len entries) s ;;
     s <- for_each P (filter map_entry_ok entries)
                   (write_map_entry py P fuel key_type value_type) s ;;
     writeMapEnd P s).
Proof.
  intros Hv Hne Hk Ht. cbn [write_value].
  change (TType.MAP =? TType.BOOL)%Z with false. cbv iota.
  rewrite Hv, Hk, Ht. unfold map_entries, or_empty.
  replace (truthy (PList entries)) with true
    by (destruct entries; [congruence | reflexivity]).
  cbn [py_len bind].
  destruct (writeMapBegin P (Some key_type) (Some value_type) (len entries) s)
    as [s1| |]; cbn [bind py_iter]; try reflexivity.
  erewrite (@for_each_filter _ map_entry_ok _
              (write_map_entry py P fuel key_type value_type) entries);
    [reflexivity| |].
  - intros x s2 Hx. destruct x as [| | | | | | | |e]; try reflexivity.
    cbn [map_entry_ok] in Hx. unfold dict_has in Hx.
    destruct (dict_get e (u "key")); [|reflexivity].
    destruct (dict_get e (u "value")); [discriminate | reflexivity].
  - intros x s2 Hx. destruct x as [| | | | | | | |e]; try discriminate.
    cbn [map_entry_ok] in Hx. unfold dict_has in Hx. unfold write_map_entry.
    cbn [py_getitem].
    destruct (dict_get e (u "key")); [|discriminate].
    destruct (dict_get e (u "value")); [reflexivity | discriminate].
Qed.

(** X14.  A list field that names no element type and whose items are themselves
    lists is written as a list of empty structs: the inner lists are dropped
    without an error. *)
Theorem list_of_lists_written_as_empty_structs
        (fuel : nat) (field : pydict) (items : list pyval) (s : pstate P) :
  truthy (get field (u "element_type")) = false ->
  get field (u "value") = PList items -> items <> [] ->
  Forall (fun item => exists l, item = PList l
                                /\ py_contains item (u "fields") = Ok false) items ->
  write_value py P (S (S fuel)) TType.LIST field s
  = (s <- writeListBegin P TType.STRUCT (len items) s ;;
     s <- for_each P items (fun _ s => write_empty_struct P s) s ;;
     writeListEnd P s).
Proof.
  intros He Hv Hne Hl. cbn [write_value].
  change (TType.LIST =? TType.BOOL)%Z with false. cbv iota.
  rewrite He, Hv. unfold or_empty.
  replace (truthy (PList items)) with true
    by (destruct items; [congruence | reflexivity]).
  cbn [negb py_iter bind py_len].
  assert (Ei : infer_list_element_type items = TType.STRUCT).
  { unfold infer_list_element_type. destruct items as [|i r]; [congruence|].
    inversion Hl as [|? ? (l & -> & _) _]; subst. reflexivity. }
  rewrite Ei.
  destruct (writeListBegin P TType.STRUCT (len items) s) as [s1| |];
    cbn [bind]; try reflexivity.
  erewrite for_each_ext; [reflexivity|].
  intros x s2 Hx. rewrite Forall_forall in Hl.
  destruct (Hl x Hx) as (l & -> & Hc).
  change (TType.STRUCT =? TType.STRUCT)%Z with true. cbv iota.
  cbn [write_field_value].
  change (TType.STRUCT =? TType.BOOL)%Z with false.
  change (TType.STRUCT =? TType.STRUCT)%Z with true. cbv iota.
  rewrite Hc. reflexivity.
Qed.

End ContainerWriting.

Section BinaryWriting.

Import Thrift Encoder TBinaryProtocol.

Variable py : builtins.

(** X15.  A field without a value, or with the value [null], is written with the
    binary protocol as the zero of its type: false, 0, 0.0, the empty string,
    the struct without fields, and the empty container (of structs for a
    list, of strings for a set and for a map that names no types). *)
Theorem missing_value_writes_zero (fuel : nat) (field : pydict) (buf : bytes) :
  get field (u "value") = PNone ->
  write_value py protocol (S fuel) TType.BOOL field buf = Ok (buf ++ [x00])
  /\ write_value py protocol (S fuel) TType.BYTE field buf = Ok (buf ++ [x00])
  /\ write_value py protocol (S fuel) TType.I16 field buf = Ok (buf ++ [x00; x00])
  /\ write_value py protocol (S fuel) TType.I32 field buf
     = Ok (buf ++ [x00; x00; x00; x00])
  /\ write_value py protocol (S fuel) TType.I64 field buf
     = Ok (buf ++ [x00; x00; x00; x00; x00; x00; x00; x00])
  /\ write_value py protocol (S fuel) TType.DOUBLE field buf
     = Ok (buf ++ [x00; x00; x00; x00; x00; x00; x00; x00])
  /\ write_value py protocol (S fuel) TType.STRING field buf
     = Ok (buf ++ [x00; x00; x00; x00])
  /\ write_value py protocol (S fuel) TType.STRUCT field buf = Ok (buf ++ [x00])
  /\ write_value py protocol (S fuel) TType.SET field buf
     = Ok (buf ++ [x0b; x00; x00; x00; x00])
  /\ (truthy (get field (u "element_type")) = false ->
      write_value py protocol (S fuel) TType.LIST field buf
      = Ok (buf ++ [x0c; x00; x00; x00; x00]))
  /\ (truthy (get field (u "key_type")) = false ->
      truthy (get field (u "value_type")) = false ->
      write_value py protocol (S fuel) TType.MAP field buf
      = Ok (buf ++ [x0b; x0b; x00; x00; x00; x00])).
Proof.
  intros Hv.
  repeat match goal with |- _ /\ _ => split end;
    try (cbn [write_value]; rewrite Hv; cbn; now rewrite <- ?app_assoc).
  - intros He. cbn [write_value].
    change (TType.LIST =? TType.BOOL)%Z with false. cbv iota.
    rewrite Hv, He. cbn. now rewrite <- ?app_assoc.
  - intros Hk Ht. cbn [write_value].
    change (TType.MAP =? TType.BOOL)%Z with false. cbv iota.
    unfold or_string. rewrite Hv, Hk, Ht. cbn. now rewrite <- ?app_assoc.
Qed.

End BinaryWriting.

Section WriterWitnesses.

Import Thrift Encoder TBinaryProtocol.

Lemma write_simple_value_agrees_witness :
  write_simple_value refusing_builtins protocol TType.I32 (PInt 7) []
  = write_field_value refusing_builtins protocol 1 TType.I32 (PInt 7) []
  /\ write_simple_value refusing_builtins protocol TType.STRUCT (PInt 7) []
     = Raise (ValueError (u "Unsupported simple thrift type in list: 12")).
Proof.
  apply (@write_simple_value_agrees refusing_builtins protocol 0 TType.I32 (PInt 7) []).
  right. right. right. left. reflexivity.
Defined.

Lemma nested_container_rejected_witness :
  write_value refusing_builtins protocol 2 TType.LIST
              [ (u "element_type", PStr (u "list"));
                (u "value", PList [PList [PInt 1]]) ] []
  = Raise (unsupported (u "Unsupported simple thrift type: ") TType.LIST).
Proof.
  apply (@nested_container_rejected refusing_builtins protocol 0
           [ (u "element_type", PStr (u "list"));
             (u "value", PList [PList [PInt 1]]) ]
           (u "list") TType.LIST (PList [PInt 1]) [] []
           [x0f; x00; x00; x00; x01]);
    try reflexivity.
  right. right. reflexivity.
Defined.

Lemma map_size_counts_every_entry_witness :
  write_value refusing_builtins protocol 2 TType.MAP
              [ (u "value", PList [PInt 5; PDict [ (u "key", PStr (u "k")) ]]) ] []
  = (s <- writeMapBegin protocol (Some TType.STRING) (Some TType.STRING)
                        (len [PInt 5; PDict [ (u "key", PStr (u "k")) ]]) [] ;;
     s <- for_each protocol
                   (filter map_entry_ok [PInt 5; PDict [ (u "key", PStr (u "k")) ]])
                   (write_map_entry refusing_builtins protocol 1
                                    TType.STRING TType.STRING) s ;;
     writeMapEnd protocol s).
Proof.
  apply (@map_size_counts_every_entry refusing_builtins protocol 1
           [ (u "value", PList [PInt 5; PDict [ (u "key", PStr (u "k")) ]]) ]);
    [reflexivity | discriminate | reflexivity | reflexivity].
Defined.

Lemma list_of_lists_written_as_empty_structs_witness :
  write_value refusing_builtins protocol 2 TType.LIST
              [ (u "value", PList [PList [PInt 1; PInt 2]; PList [PInt 3]]) ] []
  = (s <- writeListBegin protocol TType.STRUCT
                         (len [PList [PInt 1; PInt 2]; PList [PInt 3]]) [] ;;
     s <- for_each protocol [PList [PInt 1; PInt 2]; PList [PInt 3]]
                   (fun _ s => write_empty_struct protocol s) s ;;
     writeListEnd protocol s).
Proof.
  apply (@list_of_lists_written_as_empty_structs refusing_builtins protocol 0
           [ (u "value", PList [PList [PInt 1; PInt 2]; PList [PInt 3]]) ]);
    [reflexivity | reflexivity | discriminate |].
  repeat constructor.
  - exists [PInt 1; PInt 2]. split; reflexivity.
  - exists [PInt 3]. split; reflexivity.
Defined.

Lemma missing_value_writes_zero_witness :
  write_value refusing_builtins protocol 1 TType.BOOL [] [] = Ok ([] ++ [x00])
  /\ write_value refusing_builtins protocol 1 TType.I64 [] []
     = Ok ([] ++ [x00; x00; x00; x00; x00; x00; x00; x00])
  /\ write_value refusing_builtins protocol 1 TType.LIST [] []
     = Ok ([] ++ [x0c; x00; x00; x00; x00]).
Proof.
  pose proof (@missing_value_writes_zero refusing_builtins 0 [] [] eq_refl)
    as (H1 & _ & _ & _ & H5 & _ & _ & _ & _ & H10 & _).
  split; [exact H1|]. split; [exact H5 | exact (H10 eq_refl)].
Defined.

End WriterWitnesses.

Section MessageWriting.

Import Thrift Encoder TBinaryProtocol CustomResponseMessage MessageCodec.

Variable py : builtins.
Variable TCompactProtocol : TProtocol.

(** The start of a binary reply message. *)
Lemma write_reply_header (name : pystr) (nameb lb sb : bytes) (seqid : Z) :
  utf8_encode name = Ok nameb ->
  pack_signed 4 (Z.of_N (len nameb)) = Ok lb ->
  pack_signed 4 seqid = Ok sb ->
  w_message_begin (PStr name) TMessageType.REPLY (PInt seqid) []
  = Ok ([x80; x01; x00; x02] ++ lb ++ nameb ++ sb).
Proof.
  intros Hn Hl Hs. unfold w_message_begin.
  change (w_i32 (Z.lor VERSION_1 TMessageType.REPLY) [])
    with (Ok [x80; x01; x00; x02]).
  cbn [bind]. erewrite w_string_app by eassumption. cbn [bind struct_int].
  unfold w_i32 at 1, emit. rewrite Hs. cbn [bind].
  now rewrite <- !app_assoc.
Qed.

Lemma reply_message_fuel (name : pystr) (seqid : Z) (fields : list pyval) :
  exists fuel, (2 * depth (reply_message name seqid fields) = S (S fuel))%nat.
Proof.
  unfold reply_message. cbn [depth fold_right snd].
  eexists. rewrite Nat.mul_succ_r. cbn [Nat.add]. rewrite Nat.add_succ_r. reflexivity.
Qed.

Lemma depth_pos (v : pyval) : (1 <= depth v)%nat.
Proof. destruct v; cbn [depth]; lia. Qed.

Lemma fold_max_ge (x : pyval) (l : list pyval) :
  In x l -> (depth x <= fold_right (fun y n => Nat.max (depth y) n) O l)%nat.
Proof.
  induction l as [|y l IH]; intros H; [destruct H|].
  cbn [fold_right]. destruct H as [->|H]; [lia|]. apply IH in H. lia.
Qed.

Lemma reply_message_fuel_field (name : pystr) (seqid : Z) (fields : list pyval)
      (x : pyval) :
  In x fields ->
  exists fuel,
    (2 * depth (reply_message name seqid fields) = S (S (S fuel)))%nat.
Proof.
  intros H. unfold reply_message. cbn [depth fold_right snd].
  pose proof (fold_max_ge x fields H) as Hd. pose proof (depth_pos x).
  set (m := fold_right (fun y n => Nat.max (depth y) n) O fields) in *.
  exists (2 * m + 3)%nat. lia.
Qed.

(** X16.  A field that cannot be written makes the whole message fail: with an
    unknown type name [write_thrift_message] raises [KeyError], with an
    integer outside the range of its type [struct.error], also when fields
    that can be written come before it. *)
Theorem bad_field_aborts_encoding
        (name : pystr) (nameb : bytes) (seqid : Z)
        (before after : list pyval) :
  utf8_encode name = Ok nameb -> len nameb < 2 ^ 31 ->
  in_signed_range 32 seqid = true ->
  Forall scalar_field before ->
  (forall id type_name v,
     FIELD_TYPE_MAP type_name = None ->
     write_thrift_message py TCompactProtocol false
       (reply_message name seqid (before ++ field_doc id type_name v :: after))
     = Raise KeyError)
  /\ (forall id z,
        in_signed_range 16 id = true -> in_signed_range 32 z = false ->
        write_thrift_message py TCompactProtocol false
          (reply_message name seqid (before ++ field_doc id (u "i32") (PInt z) :: after))
        = Raise StructError).
Proof.
  intros Hname Hlen Hseq Hbefore.
  destruct (fields_codec py Hbefore) as (B & _ & HW & _).
  destruct (@pack_signed_in_range 4 (Z.of_N (len nameb)) (len_in_range nameb Hlen))
    as (lb & Hlb & _).
  destruct (@pack_signed_in_range 4 seqid Hseq) as (sb & Hsb & _).
  assert (Start : forall fields,
            write_thrift_message py TCompactProtocol false
                                 (reply_message name seqid fields)
            = (s <- write_struct py protocol
                                 (2 * depth (reply_message name seqid fields))
                                 (PList fields)
                                 ([x80; x01; x00; x02] ++ lb ++ nameb ++ sb) ;;
               Ok s)).
  { intros fields. unfold write_thrift_message, reply_message.
    change (py_getitem (PDict _) (u "method")) with (Ok (PStr name)).
    change (py_getitem (PDict _) (u "type")) with (Ok (PStr (u "reply"))).
    change (py_getitem (PDict _) (u "seqid")) with (Ok (PInt seqid)).
    change (py_getitem (PDict _) (u "args"))
      with (Ok (PDict [ (u "fields", PList fields) ])).
    cbn [bind]. change (msg_type_map (PStr (u "reply"))) with (Ok TMessageType.REPLY).
    cbn [bind].
    change (writeMessageBegin protocol) with w_message_begin.
    change (fresh protocol) with (@nil byte).
    rewrite (write_reply_header name seqid Hname Hlb Hsb). cbn [bind truthy].
    change (py_getitem (PDict [ (u "fields", PList fields) ]) (u "fields"))
      with (Ok (PList fields)).
    cbn [bind]. reflexivity. }
  split.
  - intros id type_name v Hnone. rewrite Start.
    destruct (reply_message_fuel name seqid (before ++ field_doc id type_name v :: after))
      as (fuel & ->).
    rewrite write_struct_unfold, for_each_app, HW. cbn [bind for_each].
    unfold write_field at 1, field_doc.
    change (py_getitem (PDict _) (u "field_id")) with (Ok (PInt id)).
    change (py_getitem (PDict _) (u "field_type")) with (Ok (PStr type_name)).
    cbn [bind]. unfold type_map_getitem. cbn [type_map_get bind]. rewrite Hnone.
    reflexivity.
  - intros id z Hid Hz. rewrite Start.
    destruct (@reply_message_fuel_field name seqid
                (before ++ field_doc id (u "i32") (PInt z) :: after)
                (field_doc id (u "i32") (PInt z)))
      as (fuel & ->); [apply in_or_app; right; now left|].
    rewrite write_struct_unfold, for_each_app, HW. cbn [bind for_each].
    unfold write_field at 1, field_doc.
    change (py_getitem (PDict _) (u "field_id")) with (Ok (PInt id)).
    change (py_getitem (PDict _) (u "field_type")) with (Ok (PStr (u "i32"))).
    cbn [bind]. unfold type_map_getitem. cbn [type_map_get bind].
    change (FIELD_TYPE_MAP (u "i32")) with (Some TType.I32). cbn [bind].
    destruct (@pack_signed_in_range 2 id Hid) as (idb & Hidb & _).
    unfold w_field_begin, w_byte, w_i16, emit.
    change (pack_signed 1 TType.I32) with (Ok [x08]). cbn [bind struct_int].
    rewrite Hidb. cbn [bind].
    cbn [write_value].
    match goal with
    | |- context [get ?d (u "value")] => change (get d (u "value")) with (PInt z)
    end.
    change (TType.I32 =? TType.BOOL)%Z with false.
    change (TType.I32 =? TType.BYTE)%Z with false.
    change (TType.I32 =? TType.I16)%Z with false.
    change (TType.I32 =? TType.I32)%Z with true. cbv iota.
    cbn [py_int bind]. change (writeI32 protocol) with w_i32.
    unfold w_i32, emit, pack_signed.
    change (8 * N.of_nat 4) with 32. rewrite Hz. reflexivity.
Qed.

End MessageWriting.

(* ===================================================================== *)
(** ** Further properties of the message decoder *)
(* ===================================================================== *)

Section VariantMarker.

Import Thrift CustomResponseMessage MessageCodec.

Lemma land_high (z : Z) : Z.land z (-65536) = (z / 65536 * 65536)%Z.
Proof.
  change (-65536)%Z with (Z.lnot (Z.ones 16)).
  rewrite <- Z.ldiff_land, Z.ldiff_ones_r by lia.
  rewrite Z.shiftl_mul_pow2, Z.shiftr_div_pow2 by lia. reflexivity.
Qed.

Lemma be_value_4 (a b c d : byte) :
  be_value [a; b; c; d] = ((b2n a * 256 + b2n b) * 256 + b2n c) * 256 + b2n d.
Proof. unfold be_value. cbn [be_value_acc]. lia. Qed.

(** The first word of a frame that begins with [82 21] is negative and does
    not carry the version of the binary protocol. *)
Lemma readMessageBegin_variant (b2 b3 : byte) (rest : bytes) :
  exists msg,
    readMessageBegin (x82 :: x21 :: b2 :: b3 :: rest) = Raise (TProtocolException msg).
Proof.
  unfold readMessageBegin, readI32, read_signed, readAll.
  replace (4 <=? len (x82 :: x21 :: b2 :: b3 :: rest)) with true
    by (symmetry; apply N.leb_le; unfold len; simpl List.length; lia).
  rewrite take4. cbn [bind].
  set (sz := to_signed (8 * 4) (be_value [x82; x21; b2; b3])).
  assert (Hsz : (sz = -2111766528 + Z.of_N (b2n b2) * 256 + Z.of_N (b2n b3))%Z).
  { unfold sz, to_signed. rewrite be_value_4.
    change (b2n x82) with 130. change (b2n x21) with 33.
    pose proof (b2n_bound b2). pose proof (b2n_bound b3).
    change (8 * 4 - 1) with 31. change (2 ^ 31) with 2147483648.
    destruct (N.ltb_spec (((130 * 256 + 33) * 256 + b2n b2) * 256 + b2n b3) 2147483648);
      [lia|].
    change (Z.of_N (8 * 4)) with 32%Z. change (2 ^ 32)%Z with 4294967296%Z. lia. }
  pose proof (b2n_bound b2) as B2. pose proof (b2n_bound b3) as B3.
  replace (sz <? 0)%Z with true by (symmetry; apply Z.ltb_lt; lia).
  unfold VERSION_MASK. rewrite land_high.
  assert (Hq : (sz / 65536 = -32223)%Z).
  { rewrite Hsz. symmetry.
    apply (Z.div_unique _ _ _ (Z.of_N (b2n b2) * 256 + Z.of_N (b2n b3))%Z); lia. }
  rewrite Hq. eexists. reflexivity.
Qed.

Lemma init_refuses_variant (frame : bytes) :
  starts_with [x82; x21] frame = true -> exists e, init frame = Raise e.
Proof.
  intros H. apply starts_with_split in H. cbn [app] in H.
  change (len [x82; x21]) with 2 in H. rewrite H.
  destruct (drop 2 frame) as [|b2 [|b3 rest]].
  - exists EOFError. reflexivity.
  - exists EOFError. reflexivity.
  - destruct (readMessageBegin_variant b2 b3 rest) as (msg & E).
    exists (TProtocolException msg). unfold init. now rewrite E.
Qed.

(** X17.  The custom handler refuses every frame that begins with [82 21]: the
    message header cannot be read. *)
Theorem variant_frame_refused (frame : bytes) :
  starts_with [x82; x21] frame = true -> exists e, init frame = Raise e.
Proof.
  intros H. destruct (@init_refuses_variant frame H) as (e & E).
  exists e. exact E.
Qed.

Lemma variant_frame_refused_witness :
  exists e, init [x82; x21; x00; x02; x00; x00; x00; x01; x6d;
                  x00; x00; x00; x01; x00] = Raise e.
Proof. apply variant_frame_refused. reflexivity. Defined.

Lemma custom_variant (frame : bytes) :
  starts_with [x82; x21] frame = true -> exists e, custom frame = Raise e.
Proof.
  intros H. apply init_refuses_variant in H as (e & E).
  exists e. unfold custom. now rewrite E.
Qed.

Lemma starts_with_trans (m c f : bytes) :
  starts_with m c = true -> starts_with c f = true -> starts_with m f = true.
Proof.
  revert c f. induction m as [|x m IH]; intros c f H1 H2; [reflexivity|].
  destruct c as [|y c]; [discriminate|]. destruct f as [|z f]; [discriminate|].
  cbn [starts_with] in *.
  apply andb_true_iff in H1 as [A1 B1]. apply andb_true_iff in H2 as [A2 B2].
  apply byte_eqb_eq in A1, A2. subst y z.
  rewrite (IH _ _ B1 B2). unfold byte_eqb.
  now rewrite (Byte.byte_dec_lb (eq_refl x)).
Qed.

Lemma find_slice_starts (frame c : bytes) (idx : N) :
  find frame c = Some idx -> starts_with c (drop idx frame) = true.
Proof. intros H. now apply find_Some in H. Qed.

Variable ThriftMessage_read : bytes -> library_outcome.

Lemma direct_needs_marker (frame : bytes) :
  find frame [x80; x01] = None ->
  (4 <=? len frame)
  && (bytes_eqb (take 4 frame) reply_marker
      || bytes_eqb (take 4 frame) variant_reply_marker) = true ->
  starts_with [x82; x21] frame = true.
Proof.
  intros Hn H. apply andb_true_iff in H as [H4 H]. apply N.leb_le in H4.
  destruct frame as [|a [|b [|c [|d r]]]];
    try (unfold len in H4; simpl in H4; lia).
  rewrite take4 in H. unfold reply_marker, variant_reply_marker in H.
  cbn [bytes_eqb] in H.
  apply orb_true_iff in H as [H|H];
    apply andb_true_iff in H as [Ha H]; apply andb_true_iff in H as [Hb _];
    apply byte_eqb_eq in Ha, Hb; subst a b; [|reflexivity].
  discriminate.
Qed.

Lemma try_candidates_no_custom (frame : bytes) (d : pydict) (cs : list bytes) :
  (forall c, In c cs -> find frame c = None \/ starts_with [x82; x21] c = true) ->
  try_candidates ThriftMessage_read cs frame <> Ok (CustomObject d).
Proof.
  induction cs as [|c cs IH]; intros H; cbn [try_candidates]; [discriminate|].
  assert (IH' : try_candidates ThriftMessage_read cs frame <> Ok (CustomObject d))
    by (apply IH; intros c' Hc'; apply H; now right).
  destruct (find frame c) as [idx|] eqn:E; [|exact IH'].
  destruct (H c (or_introl eq_refl)) as [Hn|Hs]; [congruence|].
  assert (Hr : exists e, custom (drop idx frame) = Raise e).
  { apply custom_variant. apply find_slice_starts in E.
    exact (starts_with_trans _ _ _ Hs E). }
  destruct Hr as (e & Hr).
  destruct (bytes_eqb c reply_marker || bytes_eqb c variant_reply_marker).
  - now rewrite Hr.
  - destruct (ThriftMessage_read (drop idx frame)); try exact IH'; [discriminate|].
    now rewrite Hr.
Qed.

(** X18.  Without an occurrence of [80 01] in the frame, the custom handler never
    yields the message: the frames it is given then begin with [82 21], and
    it refuses them all. *)
Theorem custom_handler_needs_standard_marker (frame : bytes) (d : pydict) :
  find frame [x80; x01] = None ->
  decode_thrift_message ThriftMessage_read frame <> Ok (CustomObject d).
Proof.
  intros Hn.
  assert (Hc : try_candidates ThriftMessage_read candidates frame
               <> Ok (CustomObject d)).
  { apply try_candidates_no_custom. intros c Hc. unfold candidates in Hc.
    cbn [In] in Hc.
    destruct Hc as [<-|[<-|[<-|[<-|[<-|[<-|[]]]]]]]; auto;
      left; apply (find_None_app frame [x80; x01] _ Hn). }
  unfold decode_thrift_message.
  destruct ((4 <=? len frame) && _) eqn:Ed; [|exact Hc].
  apply (direct_needs_marker _ Hn) in Ed.
  destruct (custom_variant _ Ed) as (e & ->). exact Hc.
Qed.

(** X19.  A frame in which neither [80 01] nor [82 21] occurs is given to no
    parser at all: the result is the empty message. *)
Theorem frame_without_marker_is_empty (frame : bytes) :
  find frame [x80; x01] = None -> find frame [x82; x21] = None ->
  decode_thrift_message ThriftMessage_read frame = Ok EmptyThriftMessage.
Proof.
  intros H1 H2.
  assert (Hc : try_candidates ThriftMessage_read candidates frame
               = Ok EmptyThriftMessage).
  { unfold candidates. cbn [try_candidates]. rewrite H1, H2.
    pose proof (find_None_app frame [x80; x01] [x00; x01] H1) as E1.
    pose proof (find_None_app frame [x80; x01] [x00; x02] H1) as E2.
    pose proof (find_None_app frame [x82; x21] [x00; x01] H2) as E3.
    pose proof (find_None_app frame [x82; x21] [x00; x02] H2) as E4.
    cbn [app] in E1, E2, E3, E4. now rewrite E1, E2, E3, E4. }
  unfold decode_thrift_message.
  destruct ((4 <=? len frame) && _) eqn:Ed; [|exact Hc].
  apply (direct_needs_marker _ H1) in Ed.
  pose proof (find_None _ _ H2 0) as E0. rewrite drop_zero in E0. congruence.
Qed.

End VariantMarker.

Section VariantMarkerExamples.

Import MessageCodec.

Lemma custom_handler_needs_standard_marker_witness :
  decode_thrift_message (fun _ => LibUnhashable)
    [x82; x21; x00; x02; x00; x00; x00; x01; x6d; x00; x00; x00; x01; x00]
  <> Ok (CustomObject call_frame_document).
Proof.
  apply custom_handler_needs_standard_marker. reflexivity.
Defined.

Lemma frame_without_marker_is_empty_witness :
  decode_thrift_message (fun _ => LibUnhashable) [x00; x01; x02; x03; x04]
  = Ok EmptyThriftMessage.
Proof.
  apply frame_without_marker_is_empty; reflexivity.
Defined.

End VariantMarkerExamples.

Section SerializableDocuments.

Import Thrift CustomResponseMessage MessageCodec.

Lemma forallb_snoc {A} (f : A -> bool) (l : list A) (x : A) :
  forallb f l = true -> f x = true -> forallb f (l ++ [x]) = true.
Proof. intros H1 H2. rewrite forallb_app, H1. cbn. now rewrite H2. Qed.

(** What the readers return holds no bytes object. *)
Lemma read_elems_serializable (rd : Z -> bytes -> result (option pyval * bytes))
      (sk : Z -> bytes -> result bytes) (et : Z) :
  (forall q ov q', rd et q = Ok (ov, q') ->
     match ov with Some v => json_serializable v = true | None => True end) ->
  forall n p acc v p',
    forallb json_serializable acc = true ->
    read_elems rd sk et n p acc = Ok (v, p') -> json_serializable v = true.
Proof.
  intros Hr. induction n as [|n IH]; intros p acc v p' Hacc H;
    cbn [read_elems] in H.
  - injection H as <- <-. exact Hacc.
  - apply bind_Ok in H as ([ov q] & Ha & H). apply Hr in Ha.
    destruct ov as [x|].
    + apply IH in H; [exact H|]. now apply forallb_snoc.
    + apply bind_Ok in H as (q' & _ & H).
      apply IH in H; [exact H|]. now apply forallb_snoc.
Qed.

Lemma read_entries_serializable (rd : Z -> bytes -> result (option pyval * bytes))
      (sk : Z -> bytes -> result bytes) (kt vt : Z) :
  (forall q ov q', rd vt q = Ok (ov, q') ->
     match ov with Some v => json_serializable v = true | None => True end) ->
  forall n i p acc v p',
    serializable_items acc = true ->
    read_entries rd sk kt vt i n p acc = Ok (v, p') -> json_serializable v = true.
Proof.
  intros Hr. induction n as [|n IH]; intros i p acc v p' Hacc H;
    cbn [read_entries] in H.
  - injection H as <- <-. exact Hacc.
  - apply bind_Ok in H as ([k q] & _ & H).
    apply bind_Ok in H as ([ov q'] & Hb & H). apply Hr in Hb.
    destruct ov as [x|].
    + apply IH in H; [exact H|]. now apply serializable_dict_set.
    + apply bind_Ok in H as (q'' & _ & H).
      apply IH in H; [exact H|]. now apply serializable_dict_set.
Qed.

Lemma readers_serializable (fuel : nat) :
  (forall t p ov p', read_typed fuel t p = Ok (ov, p') ->
     match ov with Some v => json_serializable v = true | None => True end)
  /\ (forall p acc v p',
        forallb json_serializable acc = true ->
        read_fields fuel p acc = Ok (v, p') -> json_serializable v = true).
Proof.
  induction fuel as [|fuel (IHt & IHf)];
    [repeat split; intros; discriminate|].
  split.
  - intros t p ov p' H. cbn [read_typed] in H. split_ifs H;
      try (apply with_value_Ok in H as (a & H & ->); reflexivity).
    + apply with_value_Ok in H as (a & H & ->). now apply IHf in H.
    + apply bind_Ok in H as ([[et sz] q] & _ & H).
      apply with_value_Ok in H as (a & H & ->).
      now apply (@read_elems_serializable (read_typed fuel) (skip fuel) et (IHt et))
        in H.
    + apply bind_Ok in H as ([[et sz] q] & _ & H).
      apply with_value_Ok in H as (a & H & ->).
      now apply (@read_elems_serializable (read_typed fuel) (skip fuel) et (IHt et))
        in H.
    + apply bind_Ok in H as ([[[kt vt] sz] q] & _ & H).
      apply with_value_Ok in H as (a & H & ->).
      now apply (@read_entries_serializable (read_typed fuel) (skip fuel) kt vt
                   (IHt vt)) in H.
    + injection H as <- <-. exact I.
  - intros p acc v p' Hacc H. cbn [read_fields] in H.
    apply bind_Ok in H as ([[t id] q] & _ & H).
    destruct (t =? TType.STOP)%Z.
    + injection H as <- <-. cbn. now rewrite Hacc.
    + apply bind_Ok in H as ([ov q'] & Hb & H). apply IHt in Hb.
      destruct ov as [x|].
      * apply IHf in H; [exact H|]. apply forallb_snoc; [exact Hacc|].
        cbn. now rewrite Hb.
      * apply bind_Ok in H as (q'' & _ & H).
        apply IHf in H; [exact H|]. now apply forallb_snoc.
Qed.

Lemma extract_fields_serializable (fuel : nat) : forall p acc v p',
  forallb json_serializable acc = true ->
  extract_fields fuel p acc = Ok (v, p') -> json_serializable v = true.
Proof.
  induction fuel as [|fuel IH]; intros p acc v p' Hacc H; [discriminate|].
  cbn [extract_fields] in H.
  apply bind_Ok in H as ([[t id] q] & _ & H).
  destruct (t =? TType.STOP)%Z.
  - injection H as <- <-. cbn. now rewrite Hacc.
  - apply bind_Ok in H as ([ov q'] & Hb & H).
    apply (readers_serializable fuel) in Hb.
    destruct ov as [x|].
    + apply IH in H; [exact H|]. apply forallb_snoc; [exact Hacc|].
      cbn. now rewrite Hb.
    + apply bind_Ok in H as (q'' & _ & H).
      apply IH in H; [exact H|]. now apply forallb_snoc.
Qed.

Lemma extract_reply_serializable (fuel : nat) (p : bytes) (v : pyval) :
  _extract_reply fuel p = Ok v -> json_serializable v = true.
Proof.
  unfold _extract_reply.
  destruct (extract_fields fuel p []) as [[r q]|e|] eqn:E; intros H;
    [|injection H as <-; reflexivity | discriminate].
  injection H as <-. now apply extract_fields_serializable in E.
Qed.

Lemma to_signed_32_negative (n : N) :
  2147483648 <= n -> n < 4294967296 -> (to_signed 32 n < 0)%Z.
Proof.
  intros H1 H2. unfold to_signed. change (2 ^ (32 - 1)) with 2147483648.
  destruct (N.ltb_spec n 2147483648); [lia|].
  change (2 ^ Z.of_N 32)%Z with 4294967296%Z. lia.
Qed.

(** The name of a message whose first byte is [80] comes back as a str. *)
Lemma readMessageBegin_high (p : bytes) name t s (p' : bytes) :
  starts_with [x80] p = true ->
  readMessageBegin p = Ok (name, t, s, p') -> exists n, name = PStr n.
Proof.
  intros Hs H. unfold readMessageBegin in H.
  apply bind_Ok in H as ([sz q] & Ha & H).
  assert (Hneg : (sz <? 0)%Z = true).
  { unfold readI32, read_signed in Ha.
    apply bind_Ok in Ha as ([buf q'] & Hb & Ha). injection Ha as <- <-.
    unfold readAll in Hb. destruct (4 <=? len p) eqn:E4; [|discriminate].
    injection Hb as <- <-. apply N.leb_le in E4.
    destruct p as [|a [|b [|c [|d r]]]];
      try (unfold len in E4; simpl in E4; lia).
    cbn [starts_with] in Hs. apply andb_true_iff in Hs as [Hs _].
    apply byte_eqb_eq in Hs. subst a. rewrite take4, be_value_4.
    change (b2n x80) with 128.
    pose proof (b2n_bound b). pose proof (b2n_bound c). pose proof (b2n_bound d).
    apply Z.ltb_lt. apply to_signed_32_negative; lia. }
  rewrite Hneg in H. destruct (negb _); [discriminate|].
  apply bind_Ok in H as ([n q'] & _ & H).
  apply bind_Ok in H as ([i q''] & _ & H). injection H as <- _ _ _. eauto.
Qed.

Lemma init_serializable (frame : bytes) (d : pydict) :
  starts_with [x80] frame = true -> init frame = Ok d ->
  json_serializable (PDict d) = true /\ dict_has d (u "error") = false.
Proof.
  intros Hs H. unfold init in H.
  apply bind_Ok in H as ([[[name t] s] p] & Ha & H).
  apply readMessageBegin_high in Ha as (n & ->); [|exact Hs].
  apply bind_Ok in H as (reply & Hr & H). injection H as <-.
  apply extract_reply_serializable in Hr. split; [|reflexivity].
  cbn. now rewrite Hr.
Qed.

Variable ThriftMessage_read : bytes -> library_outcome.

Lemma try_candidates_custom_high (frame : bytes) (d : pydict) (cs : list bytes) :
  (forall c, In c cs -> starts_with [x80] c = true \/ starts_with [x82; x21] c = true) ->
  try_candidates ThriftMessage_read cs frame = Ok (CustomObject d) ->
  exists frame_slice, starts_with [x80] frame_slice = true /\ init frame_slice = Ok d.
Proof.
  induction cs as [|c cs IH]; intros Hcs H; cbn [try_candidates] in H; [discriminate|].
  assert (IH' : try_candidates ThriftMessage_read cs frame = Ok (CustomObject d) ->
                exists frame_slice,
                  starts_with [x80] frame_slice = true /\ init frame_slice = Ok d)
    by (apply IH; intros c' Hc'; apply Hcs; now right).
  destruct (find frame c) as [idx|] eqn:E; [|now apply IH'].
  assert (Hcustom : forall m, custom (drop idx frame) = Ok m -> m = CustomObject d ->
                    exists frame_slice,
                      starts_with [x80] frame_slice = true /\ init frame_slice = Ok d).
  { intros m Hm ->. apply custom_Ok in Hm as (d' & Hd & Hi). injection Hd as <-.
    exists (drop idx frame). split; [|exact Hi].
    apply find_slice_starts in E.
    destruct (Hcs c (or_introl eq_refl)) as [Hc|Hc].
    - exact (starts_with_trans _ _ _ Hc E).
    - apply (starts_with_trans _ _ _ Hc) in E.
      apply init_refuses_variant in E as (e & E). congruence. }
  destruct (bytes_eqb c reply_marker || bytes_eqb c variant_reply_marker).
  - destruct (custom (drop idx frame)) as [m|e|] eqn:Ec;
      [|now apply IH' | discriminate].
    injection H as ->. now apply (Hcustom _ eq_refl).
  - destruct (ThriftMessage_read (drop idx frame)); try (now apply IH').
    destruct (custom (drop idx frame)) as [m|e|] eqn:Ec;
      [|now apply IH' | discriminate].
    injection H as ->. now apply (Hcustom _ eq_refl).
Qed.

Lemma decode_thrift_message_custom (frame : bytes) (d : pydict) :
  decode_thrift_message ThriftMessage_read frame = Ok (CustomObject d) ->
  exists frame_slice, starts_with [x80] frame_slice = true /\ init frame_slice = Ok d.
Proof.
  intros H.
  assert (Hc : try_candidates ThriftMessage_read candidates frame = Ok (CustomObject d) ->
               exists frame_slice,
                 starts_with [x80] frame_slice = true /\ init frame_slice = Ok d).
  { apply try_candidates_custom_high. intros c Hc. unfold candidates in Hc.
    cbn [In] in Hc.
    destruct Hc as [<-|[<-|[<-|[<-|[<-|[<-|[]]]]]]]; auto. }
  unfold decode_thrift_message in H.
  destruct ((4 <=? len frame) && _) eqn:Ed; [|now apply Hc].
  destruct (custom frame) as [m|e|] eqn:Ec; [|now apply Hc | discriminate].
  injection H as ->. apply custom_Ok in Ec as (d' & Hd & Hi). injection Hd as <-.
  exists frame. split; [|exact Hi].
  apply andb_true_iff in Ed as [H4 Ed]. apply N.leb_le in H4.
  destruct frame as [|a [|b [|c [|e r]]]];
    try (unfold len in H4; simpl in H4; lia).
  rewrite take4 in Ed. unfold reply_marker, variant_reply_marker in Ed.
  cbn [bytes_eqb] in Ed.
  apply orb_true_iff in Ed as [Ed|Ed];
    apply andb_true_iff in Ed as [Ha Ed]; apply andb_true_iff in Ed as [Hb _];
    apply byte_eqb_eq in Ha, Hb; subst a b; [reflexivity|].
  destruct (@init_refuses_variant (x82 :: x21 :: c :: e :: r) eq_refl) as (x & Hx).
  congruence.
Qed.

(** X20.  A document that [decode_thrift_message] obtains from the custom handler,
    nested within [json_nesting_bound], can be written by [json.dumps]: it
    holds no bytes object; and it has no ["error"] key of its own. *)
Theorem custom_document_serializable (frame : bytes) (d : pydict) :
  decode_thrift_message ThriftMessage_read frame = Ok (CustomObject d) ->
  (Encoder.depth (PDict d) <= json_nesting_bound)%nat ->
  json_serializable (PDict d) = true /\ dict_has d (u "error") = false.
Proof.
  intros H _. apply decode_thrift_message_custom in H as (fs & Hs & Hi).
  now apply init_serializable in Hi.
Qed.

Lemma decode_headers_keys (header : bytes) (message : pydict) :
  EnvelopeCodec.decode_headers header = Ok message ->
  exists metadata headers,
    message = [ (u "metadata", metadata); (u "headers", headers) ].
Proof.
  unfold EnvelopeCodec.decode_headers. intros H.
  apply bind_Ok in H as (a & _ & H). apply bind_Ok in H as (b & _ & H).
  apply bind_Ok in H as (c & _ & H). apply bind_Ok in H as (hs & _ & H).
  injection H as <-. eauto.
Qed.

Lemma decode_custom_document
      (data header_data thrift_frame : bytes) (message d : pydict) :
  FrameLocator.parse_data FrameLocator.default_markers data
  = Ok (header_data, thrift_frame) ->
  EnvelopeCodec.decode_headers header_data = Ok message ->
  decode_thrift_message ThriftMessage_read thrift_frame = Ok (CustomObject d) ->
  decode ThriftMessage_read data = Ok (message ++ [ (u "thrift", PDict d) ]).
Proof.
  intros Hp Hh Hd.
  pose proof (decode_headers_serializable _ Hh) as Hs.
  destruct (decode_headers_keys _ Hh) as (md & hs & ->).
  destruct (decode_thrift_message_custom _ Hd) as (fs & Hfs & Hi).
  apply init_serializable in Hi as [Hj He]; [|exact Hfs].
  unfold decode, decode_try. rewrite Hp. cbn [bind]. rewrite Hh. cbn [bind].
  rewrite Hd. cbn [bind as_dict]. rewrite He.
  match goal with
  | |- context [json_serializable (PDict ?m)] =>
    change (json_serializable (PDict m)) with (serializable_items m)
  end.
  rewrite serializable_dict_set by assumption. reflexivity.
Qed.

(** X21.  When the message comes from the custom handler and its document is
    nested within [json_nesting_bound], [decode] returns the headers document
    with the message under ["thrift"] and does not set
    ["thrift_parse_error"], also when the body of the message is an error
    text. *)
Theorem custom_message_never_flagged
        (data header_data thrift_frame : bytes) (message d : pydict) :
  FrameLocator.parse_data FrameLocator.default_markers data
  = Ok (header_data, thrift_frame) ->
  EnvelopeCodec.decode_headers header_data = Ok message ->
  decode_thrift_message ThriftMessage_read thrift_frame = Ok (CustomObject d) ->
  (Encoder.depth (PDict d) <= json_nesting_bound)%nat ->
  decode ThriftMessage_read data = Ok (message ++ [ (u "thrift", PDict d) ])
  /\ dict_get (message ++ [ (u "thrift", PDict d) ]) (u "thrift_parse_error") = None.
Proof.
  intros Hp Hh Hd _. split; [exact (decode_custom_document _ Hp Hh Hd)|].
  destruct (decode_headers_keys _ Hh) as (md & hs & ->). reflexivity.
Qed.


End SerializableDocuments.

Section DecodeExamples.

Import FrameLocator EnvelopeCodec MessageCodec.

Lemma custom_document_serializable_witness :
  json_serializable (PDict call_frame_document) = true
  /\ dict_has call_frame_document (u "error") = false.
Proof.
  apply (@custom_document_serializable (fun _ => LibUnhashable) call_frame).
  - reflexivity.
  - unfold json_nesting_bound. simpl. lia.
Defined.

Lemma custom_message_never_flagged_witness :
  let message :=
    [ (u "metadata", PDict [ (u "message_length", PInt 29);
                             (u "version", PInt 0);
                             (u "header_length", PInt 10) ]);
      (u "headers", PDict [ (u "a", PStr (u "b")) ]) ] in
  let d :=
    [ (u "method", PStr (u "m"));
      (u "type", PStr (u "reply"));
      (u "seqid", PInt 1);
      (u "header", PNone);
      (u "reply", PDict [ (u "error", PExcStr [] EOFError) ]);
      (u "length", PInt 13) ] in
  decode no_library truncated_message_example
  = Ok (message ++ [ (u "thrift", PDict d) ])
  /\ dict_get (message ++ [ (u "thrift", PDict d) ]) (u "thrift_parse_error") = None.
Proof.
  apply (@custom_message_never_flagged no_library truncated_message_example
           (firstn 19 truncated_message_example)
           (skipn 19 truncated_message_example));
    try reflexivity.
  unfold json_nesting_bound. simpl. lia.
Defined.


End DecodeExamples.

Section Reencoding.

Import Thrift Encoder TBinaryProtocol CustomResponseMessage MessageCodec.

Variable py : builtins.
Variable TCompactProtocol : TProtocol.

Lemma init_keys (frame : bytes) (d : pydict) :
  init frame = Ok d ->
  exists name seqid reply n,
    d = [ (u "method", name); (u "type", PStr (u "reply")); (u "seqid", PInt seqid);
          (u "header", PNone); (u "reply", reply); (u "length", PInt n) ].
Proof.
  unfold init. intros H.
  apply bind_Ok in H as ([[[name t] s] p] & _ & H).
  apply bind_Ok in H as (reply & _ & H). injection H as <-.
  repeat eexists.
Qed.

Lemma utf8_encode_char_no_fuel (c : N) : utf8_encode_char c <> OutOfFuel.
Proof.
  unfold utf8_encode_char.
  repeat match goal with
         | |- (if ?c then _ else _) <> _ => destruct c
         end; discriminate.
Qed.

Lemma utf8_encode_no_fuel (s : pystr) : utf8_encode s <> OutOfFuel.
Proof.
  induction s as [|c r IH]; cbn [utf8_encode]; [discriminate|].
  apply bind_fuel; [apply utf8_encode_char_no_fuel|]. intros h _.
  apply bind_fuel; [exact IH|]. discriminate.
Qed.

(** X23.  None of the documents the decoder makes for a message it parsed itself
    can be given back to [write_thrift_message]: the document of the custom
    handler has no ["args"], and the type ["unknown"] of the empty message
    and of the error document is no message type. *)
Theorem decoded_documents_are_not_encodable :
  (forall frame d compact out,
     init frame = Ok d ->
     write_thrift_message py TCompactProtocol compact (PDict d) <> Ok out)
  /\ (forall frame d,
        init frame = Ok d ->
        exists e, write_thrift_message py TCompactProtocol false (PDict d) = Raise e)
  /\ (forall compact,
        write_thrift_message py TCompactProtocol compact (PDict empty_as_dict)
        = Raise KeyError)
  /\ (forall compact e,
        write_thrift_message py TCompactProtocol compact
          (PDict [ (u "method", PStr (u "unknown"));
                   (u "type", PStr (u "unknown"));
                   (u "seqid", PInt 0);
                   (u "args", PNone) ])
        = Raise KeyError
        /\ dict_get (error_info e) (u "thrift")
           = Some (PDict [ (u "method", PStr (u "unknown"));
                           (u "type", PStr (u "unknown"));
                           (u "seqid", PInt 0);
                           (u "args", PNone) ])).
Proof.
  assert (Hform : forall frame d compact,
            init frame = Ok d ->
            exists name seqid,
              write_thrift_message py TCompactProtocol compact (PDict d)
              = (s <- writeMessageBegin
                        (if compact then TCompactProtocol else protocol)
                        name TMessageType.REPLY (PInt seqid)
                        (fresh (if compact then TCompactProtocol else protocol)) ;;
                 Raise KeyError)).
  { intros frame d compact H.
    apply init_keys in H as (name & seqid & reply & n & ->).
    exists name, seqid. unfold write_thrift_message.
    change (py_getitem (PDict _) (u "method")) with (Ok name).
    change (py_getitem (PDict _) (u "type")) with (Ok (PStr (u "reply"))).
    change (py_getitem (PDict _) (u "seqid")) with (Ok (PInt seqid)).
    change (py_getitem (PDict _) (u "args")) with (@Raise pyval KeyError).
    cbn [bind]. change (msg_type_map (PStr (u "reply"))) with (Ok TMessageType.REPLY).
    cbn [bind].
    destruct (writeMessageBegin _ name TMessageType.REPLY (PInt seqid) _);
      reflexivity. }
  split; [|split; [|split]].
  - intros frame d compact out H.
    destruct (Hform frame d compact H) as (name & seqid & ->).
    destruct (writeMessageBegin _ name TMessageType.REPLY (PInt seqid) _);
      discriminate.
  - intros frame d H.
    destruct (Hform frame d false H) as (name & seqid & ->).
    change (writeMessageBegin protocol) with w_message_begin.
    change (fresh protocol) with (@nil byte).
    unfold w_message_begin.
    change (w_i32 (Z.lor VERSION_1 TMessageType.REPLY) [])
      with (Ok [x80; x01; x00; x02]).
    cbn [bind struct_int].
    destruct name; cbn [bind]; eauto.
    unfold w_string, w_binary, w_i32, emit.
    destruct (utf8_encode s) as [b|x|] eqn:Eu; cbn [bind]; eauto;
      [|now apply utf8_encode_no_fuel in Eu].
    unfold pack_signed.
    destruct (in_signed_range (8 * N.of_nat 4) (Z.of_N (len b))); cbn [bind]; eauto.
    destruct (in_signed_range (8 * N.of_nat 4) seqid); cbn [bind]; eauto.
  - intros compact. reflexivity.
  - intros compact e. split; reflexivity.
Qed.

(** The start of a binary reply message and what the custom handler reads
    from it. *)
Lemma reply_header_read (name : pystr) (nameb lb sb rest : bytes) (seqid : Z) :
  utf8_encode name = Ok nameb ->
  pack_signed 4 (Z.of_N (len nameb)) = Ok lb ->
  pack_signed 4 seqid = Ok sb ->
  readMessageBegin (([x80; x01; x00; x02] ++ lb ++ nameb ++ sb) ++ rest)
  = Ok (PStr name, 2%Z, seqid, rest).
Proof.
  intros Hn Hl Hs. rewrite <- !app_assoc.
  change ([x80; x01; x00; x02] ++ lb ++ nameb ++ sb ++ rest)
    with (x80 :: x01 :: x00 :: x02 :: lb ++ nameb ++ sb ++ rest).
  rewrite readMessageBegin_strict.
  erewrite readString_app by eassumption. cbn [bind].
  erewrite readI32_pack by exact Hs. reflexivity.
Qed.

Lemma direct_reply (ThriftMessage_read : bytes -> library_outcome) (body : bytes) :
  decode_thrift_message ThriftMessage_read ([x80; x01; x00; x02] ++ body)
  = match custom ([x80; x01; x00; x02] ++ body) with
    | Ok m => Ok m
    | Raise _ =>
      try_candidates ThriftMessage_read candidates ([x80; x01; x00; x02] ++ body)
    | OutOfFuel => OutOfFuel
    end.
Proof.
  unfold decode_thrift_message.
  change ([x80; x01; x00; x02] ++ body) with (x80 :: x01 :: x00 :: x02 :: body).
  rewrite take4.
  replace (4 <=? len (x80 :: x01 :: x00 :: x02 :: body)) with true
    by (symmetry; apply N.leb_le; unfold len; simpl List.length; lia).
  reflexivity.
Qed.

(** X24.  A reply whose ["args"] is [null] or empty is written without a struct,
    not even its STOP byte; decoding the frame gives a reply whose body is
    the error text of the failed read. *)
Theorem reply_without_args_decodes_to_error
        (ThriftMessage_read : bytes -> library_outcome)
        (name : pystr) (nameb : bytes) (seqid : Z) (args : pyval) :
  utf8_encode name = Ok nameb -> len nameb < 2 ^ 31 ->
  in_signed_range 32 seqid = true ->
  truthy args = false ->
  exists frame,
    write_thrift_message py TCompactProtocol false
      (PDict [ (u "method", PStr name); (u "type", PStr (u "reply"));
               (u "seqid", PInt seqid); (u "args", args) ]) = Ok frame
    /\ frame = [x80; x01; x00; x02] ++ be_bytes 4 (len nameb) ++ nameb
               ++ be_bytes 4 (of_signed 32 seqid)
    /\ decode_thrift_message ThriftMessage_read frame
       = Ok (CustomObject
               [ (u "method", PStr name);
                 (u "type", PStr (u "reply"));
                 (u "seqid", PInt seqid);
                 (u "header", PNone);
                 (u "reply", PDict [ (u "error", PExcStr [] EOFError) ]);
                 (u "length", PInt (Z.of_N (len frame))) ]).
Proof.
  intros Hname Hlen Hseq Hargs.
  destruct (@pack_signed_in_range 4 (Z.of_N (len nameb)) (len_in_range nameb Hlen))
    as (lb & Hlb & _).
  destruct (@pack_signed_in_range 4 seqid Hseq) as (sb & Hsb & _).
  exists ([x80; x01; x00; x02] ++ lb ++ nameb ++ sb).
  split; [|split].
  - unfold write_thrift_message.
    change (py_getitem (PDict _) (u "method")) with (Ok (PStr name)).
    change (py_getitem (PDict _) (u "type")) with (Ok (PStr (u "reply"))).
    change (py_getitem (PDict _) (u "seqid")) with (Ok (PInt seqid)).
    change (py_getitem (PDict _) (u "args")) with (Ok args).
    cbn [bind]. change (msg_type_map (PStr (u "reply"))) with (Ok TMessageType.REPLY).
    cbn [bind].
    change (writeMessageBegin protocol) with w_message_begin.
    change (fresh protocol) with (@nil byte).
    rewrite (write_reply_header name seqid Hname Hlb Hsb). cbn [bind].
    rewrite Hargs. reflexivity.
  - apply pack_signed_Ok in Hlb as (_ & -> & _).
    apply pack_signed_Ok in Hsb as (_ & -> & _).
    change (8 * N.of_nat 4) with 32.
    replace (of_signed 32 (Z.of_N (len nameb))) with (len nameb); [reflexivity|].
    unfold of_signed. rewrite Z.mod_small; [now rewrite N2Z.id|].
    change (2 ^ Z.of_N 32)%Z with 4294967296%Z. change (2 ^ 31) with 2147483648 in Hlen.
    lia.
  - rewrite direct_reply. unfold custom, init.
    rewrite <- (app_nil_r ([x80; x01; x00; x02] ++ lb ++ nameb ++ sb)) at 1.
    rewrite (reply_header_read name [] seqid Hname Hlb Hsb). reflexivity.
Qed.

End Reencoding.

Section EncodingExamples.

Import Thrift Encoder TBinaryProtocol MessageCodec.

Lemma bad_field_aborts_encoding_witness :
  write_thrift_message refusing_builtins protocol false
    (reply_message (u "m") 1
       ([field_doc 1 (u "bool") (PBool true)]
        ++ field_doc 2 (u "i128") (PInt 1) :: []))
  = Raise KeyError
  /\ write_thrift_message refusing_builtins protocol false
       (reply_message (u "m") 1
          ([field_doc 1 (u "bool") (PBool true)]
           ++ field_doc 2 (u "i32") (PInt 2147483648) :: []))
     = Raise StructError.
Proof.
  assert (Hb : Forall scalar_field [field_doc 1 (u "bool") (PBool true)]).
  { repeat constructor. exists 1%Z, (u "bool"), (PBool true).
    repeat split. constructor. }
  destruct (@bad_field_aborts_encoding refusing_builtins protocol
              (u "m") [x6d] 1 [field_doc 1 (u "bool") (PBool true)] []
              eq_refl eq_refl eq_refl Hb) as [H1 H2].
  split.
  - apply H1. reflexivity.
  - apply H2; reflexivity.
Defined.

Lemma reply_without_args_decodes_to_error_witness :
  exists frame,
    write_thrift_message refusing_builtins protocol false
      (PDict [ (u "method", PStr (u "m")); (u "type", PStr (u "reply"));
               (u "seqid", PInt 1); (u "args", PNone) ]) = Ok frame
    /\ frame = [x80; x01; x00; x02] ++ be_bytes 4 (len [x6d]) ++ [x6d]
               ++ be_bytes 4 (of_signed 32 1)
    /\ decode_thrift_message no_library frame
       = Ok (CustomObject
               [ (u "method", PStr (u "m"));
                 (u "type", PStr (u "reply"));
                 (u "seqid", PInt 1);
                 (u "header", PNone);
                 (u "reply", PDict [ (u "error", PExcStr [] EOFError) ]);
                 (u "length", PInt (Z.of_N (len frame))) ]).
Proof.
  apply (@reply_without_args_decodes_to_error refusing_builtins protocol no_library
           (u "m") [x6d] 1 PNone); reflexivity.
Defined.

End EncodingExamples.

(* ===================================================================== *)
(** ** The earlier decoder of [decode.py] *)
(* ===================================================================== *)

Section EarlierDecoder.

Import DecodePy.

Lemma take_app_le {A} (a b : list A) (n : N) :
  n <= len a -> take n (a ++ b) = take n a.
Proof.
  intros H. rewrite !take_firstn, firstn_app.
  replace (N.to_nat n - List.length a)%nat with O by (unfold len in H; lia).
  cbn [firstn]. apply app_nil_r.
Qed.

(** X25.  [parse_data] of [decode.py] begins the frame [len(marker) - 2] bytes
    after the place where the marker was found: with the two-byte default
    marker the split loses nothing and the frame begins with the marker,
    with a longer marker the bytes of the marker before its last two are in
    neither part. *)
Theorem earlier_parse_data_split (marker data header_data thrift_frame : bytes) :
  2 <= len marker ->
  parse_data marker data = Ok (header_data, thrift_frame) ->
  header_data ++ take (len marker - 2) marker ++ thrift_frame = data
  /\ find data marker = Some (len header_data)
  /\ (len marker = 2 ->
      header_data ++ thrift_frame = data /\ starts_with marker thrift_frame = true).
Proof.
  intros Hm H. unfold parse_data in H.
  destruct (find data marker) as [pos|] eqn:Ef; [|discriminate].
  injection H as <- <-. unfold slice_from.
  replace (Z.of_N pos + Z.of_N (len marker) - 2 <? 0)%Z with false
    by (symmetry; apply Z.ltb_ge; lia).
  replace (Z.to_N (Z.of_N pos + Z.of_N (len marker) - 2))
    with (pos + (len marker - 2)) by lia.
  pose proof (find_Some _ _ Ef) as [Hs _].
  pose proof (starts_with_len _ _ Hs) as Hl. rewrite len_drop in Hl.
  assert (Lt : len (take pos data) = pos) by (rewrite len_take; lia).
  assert (E : drop pos data = take (len marker - 2) marker
                              ++ drop (pos + (len marker - 2)) data).
  { rewrite <- drop_drop.
    rewrite <- (take_drop_id (drop pos data) (len marker - 2)) at 1.
    f_equal. apply starts_with_split in Hs. rewrite Hs.
    apply take_app_le. lia. }
  split; [|split].
  - rewrite <- E. apply take_drop_id.
  - now rewrite Lt.
  - intros H2. rewrite H2 in *. change (2 - 2) with 0 in *.
    rewrite N.add_0_r. split; [apply take_drop_id | exact Hs].
Qed.

Lemma earlier_parse_data_split_witness :
  [x00; x00] ++ take (len [x80; x01; x00; x01] - 2) [x80; x01; x00; x01]
  ++ [x00; x01; x00; x82]
  = [x00; x00; x80; x01; x00; x01; x00; x82]
  /\ find [x00; x00; x80; x01; x00; x01; x00; x82] [x80; x01; x00; x01]
     = Some (len [x00; x00])
  /\ (len [x80; x01; x00; x01] = 2 ->
      [x00; x00] ++ [x00; x01; x00; x82] = [x00; x00; x80; x01; x00; x01; x00; x82]
      /\ starts_with [x80; x01; x00; x01] [x00; x01; x00; x82] = true).
Proof.
  apply (@earlier_parse_data_split [x80; x01; x00; x01]
           [x00; x00; x80; x01; x00; x01; x00; x82]).
  - unfold len. simpl. lia.
  - reflexivity.
Defined.

Variable ThriftMessage_read : bytes -> read_outcome.

Lemma earlier_try_candidates_Some (cs : list bytes) : forall frame msg,
  try_candidates ThriftMessage_read cs frame = Some msg ->
  exists candidate idx rest,
    In candidate cs
    /\ starts_with candidate rest = true
    /\ rest = drop idx frame
    /\ ThriftMessage_read rest = Returns msg.
Proof.
  induction cs as [|c cs IH]; intros frame msg H; cbn [try_candidates] in H;
    [discriminate|].
  destruct (find frame c) as [idx|] eqn:E.
  - destruct (ThriftMessage_read (drop idx frame)) as [m|e] eqn:Er.
    + injection H as ->. exists c, idx, (drop idx frame).
      repeat split; [now left | now apply find_Some in E | exact Er].
    + apply IH in H as (c' & idx' & rest & Hin & Hs & -> & Hr).
      exists c', (idx + idx'), (drop idx' (drop idx frame)).
      repeat split; [now right | exact Hs | apply drop_drop | exact Hr].
  - apply IH in H as (c' & idx' & rest & Hin & Hs & -> & Hr).
    exists c', idx', (drop idx' frame). repeat split; [now right | exact Hs | exact Hr].
Qed.

(** X26.  The earlier [decode] has no error document.  It returns a document only
    when the library returned a message for a part of the data that begins
    with one of the four markers [80 01 00 0k]; it raises the [ValueError]
    of [parse_data] when [80 01] does not occur in the data, and
    [AttributeError] when the headers are read but the library returns no
    message. *)
Theorem earlier_decode_has_no_error_document (data : bytes) :
  (forall doc,
     decode ThriftMessage_read data = Ok doc ->
     exists candidate part thrift,
       In candidate candidates /\ starts_with candidate part = true
       /\ ThriftMessage_read part = Returns (inl thrift)
       /\ dict_get doc (u "thrift") = Some (PDict thrift))
  /\ (find data [x80; x01] = None ->
      decode ThriftMessage_read data = Raise marker_not_found)
  /\ (forall header_data thrift_frame message,
        parse_data default_marker data = Ok (header_data, thrift_frame) ->
        decode_headers header_data = Ok message ->
        (forall part, exists e, ThriftMessage_read part = Raises e) ->
        decode ThriftMessage_read data = Raise AttributeError).
Proof.
  split; [|split].
  - intros doc H. unfold decode in H.
    apply bind_Ok in H as ([h f] & Hp & H).
    apply bind_Ok in H as (message & Hh & H).
    destruct (decode_thrift_message ThriftMessage_read f) as [[thrift|e]|] eqn:Ed;
      try discriminate.
    destruct (json_serializable _); [|discriminate]. injection H as <-.
    apply earlier_try_candidates_Some in Ed as (c & idx & rest & Hin & Hs & _ & Hr).
    exists c, rest, thrift. repeat split; try assumption.
    destruct (decode_headers_keys _ Hh) as (md & hs & ->). reflexivity.
  - intros Hn. unfold decode, parse_data, default_marker. now rewrite Hn.
  - intros h f message Hp Hh Hall. unfold decode. rewrite Hp. cbn [bind].
    rewrite Hh. cbn [bind].
    assert (Hnone : forall cs frame,
              try_candidates ThriftMessage_read cs frame = None).
    { induction cs as [|c cs IH]; intros frame; cbn [try_candidates]; [reflexivity|].
      destruct (find frame c) as [idx|]; [|apply IH].
      destruct (Hall (drop idx frame)) as (e & ->). apply IH. }
    unfold decode_thrift_message. now rewrite Hnone.
Qed.

End EarlierDecoder.

(* ===================================================================== *)
(** ** The round trip beyond scalar fields *)
(* ===================================================================== *)

Section ItemCodecs.

Import Thrift TBinaryProtocol Encoder CustomResponseMessage.

Variable py : builtins.

Lemma Forall_exists_Forall2 {A B} (R : A -> B -> Prop) (l : list A) :
  Forall (fun x => exists y, R x y) l -> exists ys, Forall2 R l ys.
Proof.
  induction 1 as [|x l (y & Hy) _ (ys & IH)].
  - exists []. constructor.
  - exists (y :: ys). now constructor.
Qed.

Lemma for_each_codec {A} (body : A -> bytes -> result bytes)
      (l : list A) (ibs : list bytes) :
  Forall2 (fun x ib => forall buf, body x buf = Ok (buf ++ ib)) l ibs ->
  forall buf, for_each protocol l body buf = Ok (buf ++ List.concat ibs).
Proof.
  induction 1 as [|x ib l ibs Hx _ IH]; intros buf; cbn [for_each List.concat].
  - now rewrite app_nil_r.
  - rewrite Hx. cbn [bind]. rewrite IH. now rewrite <- app_assoc.
Qed.

(** A scalar written as an item of a container. *)
Lemma write_field_value_scalar (name : pystr) (v : pyval) (t : Z)
      (fuel : nat) (buf : bytes) :
  scalar_value name v -> FIELD_TYPE_MAP name = Some t ->
  write_field_value py protocol (S fuel) t v buf
  = write_value py protocol (S fuel) t [ (u "value", v) ] buf.
Proof.
  intros Hv Ht. destruct Hv; cbn in Ht; injection Ht as <-; reflexivity.
Qed.

Lemma scalar_not_container (name : pystr) (v : pyval) (t : Z) :
  scalar_value name v -> FIELD_TYPE_MAP name = Some t ->
  t <> TType.STRUCT /\ is_scalar v = true /\ depth v = 1%nat
  /\ (forall fuel buf,
        write_list_item py protocol fuel t v buf
        = write_field_value py protocol fuel t v buf)
  /\ (forall fuel buf,
        write_set_item py protocol fuel t v buf
        = write_field_value py protocol fuel t v buf).
Proof.
  intros Hv Ht.
  destruct Hv; cbn in Ht; injection Ht as <-;
    (split; [discriminate|]); (split; [reflexivity|]); (split; [reflexivity|]);
    split; intros; reflexivity.
Qed.

Lemma scalar_item_codec (name : pystr) (v : pyval) :
  scalar_value name v ->
  exists t ib, FIELD_TYPE_MAP name = Some t /\ item_codec py t v ib.
Proof.
  intros Hv.
  destruct (value_codec py Hv) as (t & vb & Ht & _ & _ & _ & Hlen & Hw & Hr).
  destruct (scalar_not_container Hv Ht) as (_ & _ & _ & Hl & Hs).
  exists t, vb. split; [exact Ht|]. unfold item_codec.
  split; [exact Hlen|]. split; [|split].
  - intros fuel buf _. rewrite Hl, (write_field_value_scalar fuel buf Hv Ht).
    now apply Hw.
  - intros fuel buf _. rewrite Hs, (write_field_value_scalar fuel buf Hv Ht).
    now apply Hw.
  - intros fuel rest Hf. destruct fuel as [|fuel]; [lia|]. apply Hr.
Qed.

Lemma scalar_items_codec (name : pystr) (items : list pyval) :
  Forall (scalar_value name) items ->
  exists t ibs,
    (items <> [] -> FIELD_TYPE_MAP name = Some t)
    /\ Forall2 (item_codec py t) items ibs.
Proof.
  induction 1 as [|v items Hv Hr (t & ibs & Ht & IH)].
  - exists 0%Z, []. split; [congruence | constructor].
  - destruct (scalar_item_codec Hv) as (t' & ib & Ht' & Hc).
    exists t'. destruct items as [|w items].
    + exists [ib]. split; [auto|]. constructor; [exact Hc | constructor].
    + assert (t = t') by (specialize (Ht ltac:(discriminate)); congruence).
      subst t'. exists (ib :: ibs). split; [auto|]. now constructor.
Qed.

(** The loop of [_read_list] and [_read_set] over the bytes of the items. *)
Lemma read_elems_codec (t : Z) (items : list pyval) (ibs : list bytes) :
  Forall2 (item_codec py t) items ibs ->
  forall fuel sk rest acc,
    (List.length (List.concat ibs) < fuel)%nat ->
    read_elems (read_typed fuel) sk t (List.length items)
               (List.concat ibs ++ rest) acc
    = Ok (PList (acc ++ items), rest).
Proof.
  induction 1 as [|item ib items ibs (Hlen & _ & _ & Hr) _ IH];
    intros fuel sk rest acc Hf.
  - cbn [read_elems List.concat app List.length]. now rewrite app_nil_r.
  - cbn [List.concat List.length] in *.
    rewrite length_app in Hf. unfold len in Hlen.
    cbn [read_elems].
    rewrite <- app_assoc. rewrite Hr by lia. cbn [bind].
    rewrite IH by lia. now rewrite <- app_assoc.
Qed.

Lemma length_concat_ge (items : list pyval) (t : Z) (ibs : list bytes) :
  Forall2 (item_codec py t) items ibs ->
  (List.length items <= List.length (List.concat ibs))%nat.
Proof.
  induction 1 as [|item ib items ibs (Hlen & _) _ IH]; cbn [List.concat List.length];
    [lia|].
  rewrite length_app. unfold len in Hlen. lia.
Qed.

Lemma depth_item_le (item : pyval) (items : list pyval) :
  In item items -> (S (depth item) <= depth (PList items))%nat.
Proof.
  intros H. cbn [depth]. pose proof (fold_max_ge item items H). lia.
Qed.

Lemma Forall2_In_l {A B} (R : A -> B -> Prop) (l : list A) (ys : list B) :
  Forall2 R l ys -> forall (Q : A -> Prop),
  Forall2 (fun x y => Q x -> R x y) l ys.
Proof. induction 1; intros Q; constructor; auto. Qed.

(** Writing the items of a list or of a set with the binary protocol. *)
Lemma write_items_codec (t : Z) (items : list pyval) (ibs : list bytes) (fuel : nat) :
  Forall2 (item_codec py t) items ibs ->
  (2 * depth (PList items) <= fuel + 3)%nat ->
  forall buf,
    for_each protocol items (write_list_item py protocol fuel t) buf
    = Ok (buf ++ List.concat ibs)
    /\ for_each protocol items (write_set_item py protocol fuel t) buf
       = Ok (buf ++ List.concat ibs).
Proof.
  intros H Hd.
  assert (Hboth : Forall2 (fun x ib =>
                     (forall buf, write_list_item py protocol fuel t x buf
                                  = Ok (buf ++ ib))
                     /\ (forall buf, write_set_item py protocol fuel t x buf
                                     = Ok (buf ++ ib))) items ibs).
  { revert Hd. induction H as [|item ib items ibs (_ & Hl & Hs & _) _ IH];
      intros Hd; constructor.
    - pose proof (@depth_item_le item (item :: items) (or_introl eq_refl)) as Hi.
      pose proof (depth_pos item).
      destruct fuel as [|fuel]; [lia|].
      split; intros buf; [apply Hl | apply Hs]; lia.
    - apply IH. cbn [depth fold_right] in *. lia. }
  intros buf. split; apply for_each_codec;
    (eapply Forall2_impl; [|exact Hboth]); cbn beta; intros a b [H1 H2]; assumption.
Qed.

End ItemCodecs.

Section ContainerCodecs.

Import Thrift TBinaryProtocol Encoder CustomResponseMessage.

Variable py : builtins.

Lemma size_packs (n : N) :
  n < 2 ^ 31 ->
  exists sb, pack_signed 4 (Z.of_N n) = Ok sb /\ len sb = 4.
Proof.
  intros H. apply pack_signed_in_range.
  unfold in_signed_range. change (8 * N.of_nat 4) with 32.
  change (2 ^ 31) with 2147483648 in H.
  apply andb_true_iff. split; [apply Z.leb_le | apply Z.ltb_lt].
  - change (- 2 ^ (Z.of_N 32 - 1))%Z with (-2147483648)%Z. lia.
  - change (2 ^ (Z.of_N 32 - 1))%Z with 2147483648%Z. lia.
Qed.

Lemma check_length_size (n : N) : check_length (Z.of_N n) = Ok tt.
Proof.
  unfold check_length. destruct (Z.ltb_spec (Z.of_N n) 0); [lia | reflexivity].
Qed.

(** The header of a list or of a set, written and read. *)
Lemma list_begin_codec (t : Z) (n : N) :
  in_signed_range 8 t = true -> n < 2 ^ 31 ->
  exists hb,
    len hb = 5
    /\ (forall buf, w_list_begin t n buf = Ok (buf ++ hb))
    /\ (forall rest, readListBegin (hb ++ rest) = Ok (t, Z.of_N n, rest)).
Proof.
  intros Ht Hn.
  destruct (@pack_signed_in_range 1 t Ht) as (tb & Htb & Ltb).
  destruct (size_packs Hn) as (sb & Hsb & Lsb).
  exists (tb ++ sb). split; [|split].
  - rewrite len_app, Ltb, Lsb. reflexivity.
  - intros buf. unfold w_list_begin, w_byte, w_i32, emit. rewrite Htb. cbn [bind].
    rewrite Hsb. cbn [bind]. now rewrite <- app_assoc.
  - intros rest. unfold readListBegin. rewrite <- app_assoc.
    erewrite readByte_pack by exact Htb. cbn [bind].
    erewrite readI32_pack by exact Hsb. cbn [bind].
    now rewrite check_length_size.
Qed.

Lemma truthy_list (items : list pyval) :
  or_empty (PList items) = PList items.
Proof. unfold or_empty. destruct items; reflexivity. Qed.

Lemma write_value_list (fuel : nat) (d : pydict) (items : list pyval) (buf : bytes) :
  get d (u "value") = PList items ->
  get d (u "element_type") = PNone ->
  write_value py protocol (S fuel) TType.LIST d buf
  = (s <- w_list_begin (infer_list_element_type items) (len items) buf ;;
     for_each protocol items
              (write_list_item py protocol fuel (infer_list_element_type items)) s).
Proof.
  intros Hv He. cbn [write_value]. type_tests TType.LIST.
  rewrite He, Hv, truthy_list. cbn [truthy negb py_iter bind py_len].
  change (writeListBegin protocol) with w_list_begin.
  destruct (w_list_begin (infer_list_element_type items) (len items) buf)
    as [s| |]; cbn [bind]; try reflexivity.
  change (writeListEnd protocol) with nop. unfold nop.
  match goal with
  | |- bind ?m _ = _ => change (bind m (fun s => Ok s) = m); destruct m; reflexivity
  end.
Qed.

Lemma write_value_set (fuel : nat) (d : pydict) (items : list pyval) (buf : bytes) :
  get d (u "value") = PList items ->
  write_value py protocol (S fuel) TType.SET d buf
  = (s <- w_list_begin (infer_set_element_type items) (len items) buf ;;
     for_each protocol items
              (write_set_item py protocol fuel (infer_set_element_type items)) s).
Proof.
  intros Hv. cbn [write_value]. type_tests TType.SET.
  rewrite Hv, truthy_list. cbn [py_iter bind py_len].
  change (writeSetBegin protocol) with w_list_begin.
  destruct (w_list_begin (infer_set_element_type items) (len items) buf)
    as [s| |]; cbn [bind]; try reflexivity.
  change (writeSetEnd protocol) with nop. unfold nop.
  match goal with
  | |- bind ?m _ = _ => change (bind m (fun s => Ok s) = m); destruct m; reflexivity
  end.
Qed.

(** A list or a set whose items have a codec for the element type that the
    encoder infers. *)
Lemma sequence_codec (name : pystr) (items : list pyval) (ibs : list bytes) (et : Z) :
  name = u "list" \/ name = u "set" ->
  (name = u "list" -> infer_list_element_type items = et) ->
  (name = u "set" -> infer_set_element_type items = et) ->
  in_signed_range 8 et = true -> len items < 2 ^ 31 ->
  Forall2 (item_codec py et) items ibs ->
  value_codec_at py name (PList items).
Proof.
  intros Hname Hil His Het Hn Hc.
  destruct (list_begin_codec et Het Hn) as (hb & Lhb & Whb & Rhb).
  assert (Hread : forall fuel rest,
            (List.length (hb ++ List.concat ibs) < fuel)%nat ->
            (' (element_type, size, p) <- readListBegin ((hb ++ List.concat ibs) ++ rest) ;;
             with_value (fun v => v)
               (read_elems (read_typed (Nat.pred fuel)) (skip (Nat.pred fuel))
                           element_type (Z.to_nat size) p []))
            = Ok (Some (PList items), rest)).
  { intros fuel rest Hf. rewrite <- app_assoc, Rhb. cbn [bind].
    rewrite length_app in Hf. unfold len in Lhb.
    replace (Z.to_nat (Z.of_N (len items))) with (List.length items)
      by (unfold len; lia).
    rewrite (read_elems_codec Hc) by lia. reflexivity. }
  destruct Hname as [-> | ->].
  - exists TType.LIST, (hb ++ List.concat ibs).
    repeat split; try discriminate.
    + rewrite len_app, Lhb. lia.
    + intros fuel d buf Hv He _ _ Hd.
      rewrite (write_value_list fuel d buf Hv He), (Hil eq_refl), Whb. cbn [bind].
      destruct (write_items_codec fuel Hc) with (buf := buf ++ hb) as [-> _];
        [lia|]. now rewrite <- app_assoc.
    + intros fuel rest Hf. destruct fuel as [|fuel]; [lia|].
      cbn [read_typed]. type_tests TType.LIST.
      now apply (Hread (S fuel)).
  - exists TType.SET, (hb ++ List.concat ibs).
    repeat split; try discriminate.
    + rewrite len_app, Lhb. lia.
    + intros fuel d buf Hv _ _ _ Hd.
      rewrite (write_value_set fuel d buf Hv), (His eq_refl), Whb. cbn [bind].
      destruct (write_items_codec fuel Hc) with (buf := buf ++ hb) as [_ ->];
        [lia|]. now rewrite <- app_assoc.
    + intros fuel rest Hf. destruct fuel as [|fuel]; [lia|].
      cbn [read_typed]. type_tests TType.SET.
      now apply (Hread (S fuel)).
Qed.

End ContainerCodecs.

Section MapCodec.

Import Thrift TBinaryProtocol Encoder CustomResponseMessage.

Variable py : builtins.

Lemma string_value_inv (v : pyval) :
  scalar_value (u "string") v ->
  exists s b, v = PStr s /\ utf8_encode s = Ok b /\ len b < 2 ^ 31.
Proof.
  intros H. remember (u "string") as name eqn:E.
  destruct H as [b|z Hz|z Hz|z Hz|z Hz|bits Hb|s b Hs Hl]; try discriminate.
  eauto.
Qed.

(** A str written and read as a string. *)
Lemma string_codec (v : pyval) :
  scalar_value (u "string") v ->
  exists s sb,
    v = PStr s /\ (8 <= 4 + List.length sb)%nat /\ (4 <= List.length sb)%nat
    /\ (forall fuel buf,
          write_field_value py protocol (S fuel) TType.STRING v buf = Ok (buf ++ sb))
    /\ (forall rest, readString (sb ++ rest) = Ok (s, rest))
    /\ (forall fuel rest,
          (0 < fuel)%nat ->
          read_typed fuel TType.STRING (sb ++ rest) = Ok (Some v, rest)).
Proof.
  intros H. apply string_value_inv in H as (s & b & -> & Hs & Hl).
  destruct (@pack_signed_in_range 4 (Z.of_N (len b)) (len_in_range b Hl))
    as (lb & Hlb & Llb).
  exists s, (lb ++ b).
  assert (L4 : (4 <= List.length (lb ++ b))%nat)
    by (rewrite length_app; unfold len in Llb; lia).
  repeat split; try lia.
  - intros fuel buf. cbn [write_field_value]. type_tests TType.STRING.
    cbn [as_string bind]. change (writeString protocol) with w_string.
    now apply w_string_app.
  - intros rest. rewrite <- app_assoc. now apply readString_app.
  - intros fuel rest Hf. destruct fuel as [|fuel]; [lia|].
    cbn [read_typed]. type_tests TType.STRING.
    rewrite <- app_assoc. erewrite readString_app by eassumption. reflexivity.
Qed.

Lemma pairs_codec (d : pydict) :
  Forall (fun kv => scalar_value (u "string") (PStr (fst kv))
                    /\ scalar_value (u "string") (snd kv)) d ->
  exists EB,
    (List.length d <= List.length EB)%nat
    /\ (forall fuel buf,
          for_each protocol d
            (fun kv s =>
               s <- write_field_value py protocol (S fuel) TType.STRING
                                      (PStr (fst kv)) s ;;
               write_field_value py protocol (S fuel) TType.STRING (snd kv) s) buf
          = Ok (buf ++ EB))
    /\ (forall fuel sk i rest acc,
          NoDup (map fst acc ++ map fst d) ->
          (0 < fuel)%nat ->
          read_entries (read_typed fuel) sk TType.STRING TType.STRING i
                       (List.length d) (EB ++ rest) acc
          = Ok (PDict (acc ++ d), rest)).
Proof.
  induction 1 as [|[k v] d [Hk Hv] _ (EB & HL & HW & HR)].
  - exists []. split; [simpl; lia|]. split.
    + intros fuel buf. cbn [for_each]. now rewrite app_nil_r.
    + intros fuel sk i rest acc _ Hf.
      cbn [read_entries app List.length]. now rewrite app_nil_r.
  - cbn [fst snd] in Hk, Hv.
    destruct (string_codec Hk) as (k' & kb & Ek & _ & Lk & Wk & Rk & _).
    injection Ek as <-.
    destruct (string_codec Hv) as (s & vb & -> & _ & Lv & Wv & _ & Rv).
    exists ((kb ++ vb) ++ EB). split; [|split].
    + rewrite !length_app. simpl List.length. lia.
    + intros fuel buf. cbn [for_each fst snd]. rewrite Wk. cbn [bind].
      rewrite Wv. cbn [bind]. rewrite HW. now rewrite <- !app_assoc.
    + intros fuel sk i rest acc Hn Hf.
      cbn [read_entries List.length].
      unfold read_key. type_tests TType.STRING.
      rewrite <- !app_assoc. rewrite Rk. cbn [bind].
      rewrite Rv by lia. cbn [bind].
      rewrite dict_set_new.
      2:{ cbn [map fst] in Hn. apply NoDup_remove_2 in Hn. intros Hi. apply Hn.
          apply in_or_app. now left. }
      rewrite HR.
      * now rewrite <- app_assoc.
      * cbn [map fst] in Hn. rewrite map_app, <- app_assoc. exact Hn.
      * lia.
Qed.

Lemma fold_max_dict_ge (kv : pystr * pyval) (d : pydict) :
  In kv d ->
  (depth (snd kv) <= fold_right (fun kv n => Nat.max (depth (snd kv)) n) O d)%nat.
Proof.
  induction d as [|y d IH]; intros H; [destruct H|].
  cbn [fold_right]. destruct H as [->|H]; [lia|]. apply IH in H. lia.
Qed.

Lemma map_codec (d : pydict) :
  len d < 2 ^ 31 -> NoDup (map fst d) ->
  Forall (fun kv => scalar_value (u "string") (PStr (fst kv))
                    /\ scalar_value (u "string") (snd kv)) d ->
  value_codec_at py (u "map") (PDict d).
Proof.
  intros Hn Hd Hp.
  destruct (pairs_codec Hp) as (EB & HL & HW & HR).
  destruct (size_packs Hn) as (sb & Hsb & Lsb).
  exists TType.MAP, ([x0b; x0b] ++ sb ++ EB).
  repeat split; try discriminate.
  - rewrite len_app. change (len [x0b; x0b]) with 2. lia.
  - intros fuel f buf Hv _ Hk Ht Hdepth.
    cbn [write_value]. type_tests TType.MAP.
    rewrite Hv, Hk, Ht. unfold or_string. cbn [truthy type_map_get bind map_entries].
    change (FIELD_TYPE_MAP (u "string")) with (Some TType.STRING).
    cbn [py_len bind]. rewrite len_map.
    change (writeMapBegin protocol) with w_map_begin.
    unfold w_map_begin, w_type.
    change (w_byte TType.STRING buf) with (Ok (buf ++ [x0b])). cbn [bind].
    change (w_byte TType.STRING (buf ++ [x0b])) with (Ok ((buf ++ [x0b]) ++ [x0b])).
    cbn [bind]. unfold w_i32, emit. rewrite Hsb. cbn [bind py_iter].
    rewrite for_each_map. cbn [dict_get pystr_eqb u fst snd].
    change (writeMapEnd protocol) with nop. unfold nop.
    destruct d as [|kv0 d'].
    + assert (EB = []).
      { specialize (HW 0%nat []). cbn [for_each app] in HW. now injection HW. }
      subst EB. cbn [for_each bind]. rewrite app_nil_r, <- !app_assoc. reflexivity.
    + destruct fuel as [|fuel].
      { exfalso. cbn [depth fold_right] in Hdepth.
        pose proof (depth_pos (snd kv0)). lia. }
      erewrite for_each_ext; [rewrite (HW fuel)|]; [|reflexivity].
      cbn [bind]. now rewrite <- !app_assoc.
  - intros fuel rest Hf. destruct fuel as [|fuel]; [lia|].
    cbn [read_typed]. type_tests TType.MAP.
    unfold readMapBegin. rewrite <- !app_assoc.
    change ([x0b; x0b] ++ sb ++ EB ++ rest) with ([x0b] ++ [x0b] ++ sb ++ EB ++ rest).
    rewrite (@readByte_pack 11 [x0b] _ eq_refl). cbn [bind].
    rewrite (@readByte_pack 11 [x0b] _ eq_refl). cbn [bind].
    erewrite readI32_pack by exact Hsb. cbn [bind].
    rewrite check_length_size. cbn [bind].
    replace (Z.to_nat (Z.of_N (len d))) with (List.length d)
      by (unfold len; lia).
    pose proof (HR fuel (skip fuel) 0%Z rest []) as HR0. cbn [app map] in HR0.
    unfold TType.STRING in HR0. rewrite HR0.
    + reflexivity.
    + exact Hd.
    + rewrite !length_app in Hf. simpl List.length in Hf. lia.
Qed.

End MapCodec.

Section StructCodec.

Import Thrift TBinaryProtocol Encoder CustomResponseMessage.

Variable py : builtins.

Lemma depth_field_doc (id : Z) (name : pystr) (v : pyval) :
  (S (depth v) <= depth (field_doc id name v))%nat.
Proof. unfold field_doc. cbn [depth fold_right snd]. lia. Qed.

(** Writing then reading one field whose value has a codec. *)
Lemma field_codec_at (f : pyval) :
  (exists id name v, f = field_doc id name v /\ in_signed_range 16 id = true
                     /\ value_codec_at py name v) ->
  exists fb,
    (4 <= List.length fb)%nat
    /\ (forall fuel buf,
          (2 * depth f <= fuel + 4)%nat ->
          write_field py (S fuel) f buf = Ok (buf ++ fb))
    /\ (forall fuel rest acc,
          (List.length fb < fuel + 3)%nat ->
          read_fields (S fuel) (fb ++ rest) acc = read_fields fuel rest (acc ++ [f]))
    /\ (forall fuel rest acc,
          (List.length fb < fuel + 3)%nat ->
          extract_fields (S fuel) (fb ++ rest) acc
          = extract_fields fuel rest (acc ++ [f])).
Proof.
  intros (id & name & v & -> & Hid & t & vb & Ht & Hstop & Hrange & Hname & Hlen & Hw & Hr).
  destruct (@pack_signed_in_range 1 t Hrange) as (tb & Htb & Ltb).
  destruct (@pack_signed_in_range 2 id Hid) as (idb & Hidb & Lidb).
  exists (tb ++ idb ++ vb).
  assert (Lfb : List.length (tb ++ idb ++ vb) = (3 + List.length vb)%nat).
  { rewrite !length_app. unfold len in Ltb, Lidb. lia. }
  assert (Hbegin : forall rest,
            readFieldBegin (tb ++ idb ++ vb ++ rest) = Ok (t, id, vb ++ rest)).
  { intros rest. unfold readFieldBegin.
    erewrite readByte_pack by exact Htb. cbn [bind].
    apply Z.eqb_neq in Hstop. rewrite Hstop.
    erewrite readI16_pack by exact Hidb. reflexivity. }
  split; [|split; [|split]].
  - unfold len in Hlen. lia.
  - intros fuel buf Hd. unfold write_field, field_doc.
    change (py_getitem (PDict _) (u "field_id")) with (Ok (PInt id)).
    change (py_getitem (PDict _) (u "field_type")) with (Ok (PStr name)).
    cbn [bind]. unfold type_map_getitem. cbn [type_map_get bind]. rewrite Ht.
    cbn [bind]. unfold w_field_begin, w_byte, w_i16, emit, nop. rewrite Htb.
    cbn [bind struct_int]. rewrite Hidb. cbn [bind].
    rewrite Hw; try reflexivity.
    + cbn [bind]. now rewrite <- !app_assoc.
    + pose proof (depth_field_doc id name v). lia.
  - intros fuel rest acc Hf. cbn [read_fields].
    rewrite <- !app_assoc, Hbegin. cbn [bind].
    apply Z.eqb_neq in Hstop. rewrite Hstop.
    rewrite Hr by lia. cbn [bind]. rewrite Hname. reflexivity.
  - intros fuel rest acc Hf. cbn [extract_fields].
    rewrite <- !app_assoc, Hbegin. cbn [bind].
    apply Z.eqb_neq in Hstop. rewrite Hstop.
    rewrite Hr by lia. cbn [bind]. rewrite Hname. reflexivity.
Qed.

Lemma read_stop (rest : bytes) : readFieldBegin (x00 :: rest) = Ok (0%Z, 0%Z, rest).
Proof.
  unfold readFieldBegin. change (x00 :: rest) with ([x00] ++ rest).
  now rewrite (@readByte_pack 0 [x00] rest eq_refl).
Qed.

Lemma fields_codec_at (fields : list pyval) :
  Forall (fun f => exists id name v,
                     f = field_doc id name v /\ in_signed_range 16 id = true
                     /\ value_codec_at py name v) fields ->
  exists FB,
    (forall fuel buf,
       (2 * depth (PList fields) <= fuel + 6)%nat ->
       for_each protocol fields (write_field py (S fuel)) buf = Ok (buf ++ FB))
    /\ (forall fuel rest acc,
          (List.length FB < fuel)%nat ->
          read_fields fuel (FB ++ x00 :: rest) acc
          = Ok (struct_doc (acc ++ fields), rest))
    /\ (forall fuel rest acc,
          (List.length FB < fuel)%nat ->
          extract_fields fuel (FB ++ x00 :: rest) acc
          = Ok (struct_doc (acc ++ fields), rest)).
Proof.
  induction 1 as [|f r Hf Hr (FB & HW & HR & HE)].
  - exists []. split; [|split].
    + intros fuel buf _. cbn [for_each]. now rewrite app_nil_r.
    + intros fuel rest acc Hfuel. destruct fuel as [|fuel]; [simpl in Hfuel; lia|].
      cbn [read_fields app]. rewrite read_stop. cbn [bind].
      change (0 =? TType.STOP)%Z with true. cbv iota. now rewrite app_nil_r.
    + intros fuel rest acc Hfuel. destruct fuel as [|fuel]; [simpl in Hfuel; lia|].
      cbn [extract_fields app]. rewrite read_stop. cbn [bind].
      change (0 =? TType.STOP)%Z with true. cbv iota. now rewrite app_nil_r.
  - destruct (field_codec_at Hf) as (fb & Lfb & Wf & Rf & Ef).
    exists (fb ++ FB). split; [|split].
    + intros fuel buf Hd. cbn [for_each]. cbn [depth fold_right] in Hd.
      rewrite Wf by lia. cbn [bind].
      rewrite HW by (cbn [depth]; lia). now rewrite <- app_assoc.
    + intros fuel rest acc Hfuel. rewrite length_app in Hfuel.
      destruct fuel as [|fuel]; [lia|].
      rewrite <- app_assoc, Rf by lia. rewrite HR by lia.
      now rewrite <- app_assoc.
    + intros fuel rest acc Hfuel. rewrite length_app in Hfuel.
      destruct fuel as [|fuel]; [lia|].
      rewrite <- app_assoc, Ef by lia. rewrite HE by lia.
      now rewrite <- app_assoc.
Qed.

Lemma depth_struct_doc (fields : list pyval) :
  depth (struct_doc fields) = S (depth (PList fields)).
Proof. unfold struct_doc. cbn [depth fold_right snd]. lia. Qed.

(** A struct whose fields have codecs, as a field value and as an item of a
    list or a set. *)
Lemma struct_codec (fields : list pyval) :
  Forall (fun f => exists id name v,
                     f = field_doc id name v /\ in_signed_range 16 id = true
                     /\ value_codec_at py name v) fields ->
  value_codec_at py (u "struct") (struct_doc fields)
  /\ exists ib, item_codec py TType.STRUCT (struct_doc fields) ib.
Proof.
  intros H. destruct (fields_codec_at H) as (FB & HW & HR & _).
  assert (Hwrite : forall fuel buf,
            (2 * depth (struct_doc fields) <= fuel + 2)%nat ->
            write_struct py protocol fuel (PList fields) buf = Ok (buf ++ FB ++ [x00])).
  { intros fuel buf Hd. rewrite depth_struct_doc in Hd.
    pose proof (depth_pos (PList fields)).
    destruct fuel as [|[|fuel]]; try lia.
    rewrite write_struct_unfold, HW by lia. cbn [bind].
    change (w_byte TType.STOP ?s) with (Ok (s ++ [x00])).
    now rewrite <- app_assoc. }
  assert (Hread : forall fuel rest,
            (List.length (FB ++ [x00]) < fuel)%nat ->
            read_typed fuel TType.STRUCT ((FB ++ [x00]) ++ rest)
            = Ok (Some (struct_doc fields), rest)).
  { intros fuel rest Hf. rewrite length_app in Hf. simpl List.length in Hf.
    destruct fuel as [|fuel]; [lia|].
    cbn [read_typed]. type_tests TType.STRUCT.
    rewrite <- app_assoc. cbn [app]. rewrite HR by lia. reflexivity. }
  split.
  - exists TType.STRUCT, (FB ++ [x00]).
    repeat split; try discriminate.
    + rewrite len_app. change (len [x00]) with 1. lia.
    + intros fuel d buf Hv _ _ _ Hd.
      cbn [write_value]. type_tests TType.STRUCT. rewrite Hv.
      unfold struct_doc at 1 2. cbn [truthy negb dict_get pystr_eqb u].
      cbv iota. apply Hwrite. lia.
    + exact Hread.
  - exists (FB ++ [x00]). unfold item_codec.
    split; [rewrite len_app; change (len [x00]) with 1; lia|].
    split; [|split].
    + intros fuel buf Hd. unfold write_list_item, struct_doc.
      type_tests TType.STRUCT. cbn [dict_get pystr_eqb u]. cbv iota.
      apply Hwrite. lia.
    + intros fuel buf Hd. unfold write_set_item, struct_doc.
      type_tests TType.STRUCT. cbn [dict_get pystr_eqb u]. cbv iota.
      apply Hwrite. lia.
    + exact Hread.
Qed.

End StructCodec.

Section ExtendedRoundTrip.

Import Thrift TBinaryProtocol Encoder CustomResponseMessage.

Variable py : builtins.

Lemma forallb_Forall {A} (P : A -> Prop) (f : A -> bool) (l : list A) :
  (forall x, P x -> f x = true) -> Forall P l -> forallb f l = true.
Proof.
  intros H. induction 1 as [|x l Hx _ IH]; [reflexivity|].
  cbn [forallb]. now rewrite (H x Hx), IH.
Qed.

Lemma forallb_head_false {A} (f : A -> bool) (x : A) (l : list A) :
  f x = false -> forallb f (x :: l) = false.
Proof. intros H. cbn [forallb]. now rewrite H. Qed.

(** The element type inferred for a non-empty list of uniform scalars is the
    type of its items. *)
Lemma infer_uniform (name : pystr) (t : Z) (items : list pyval) :
  name = u "bool" \/ name = u "i32" \/ name = u "double" \/ name = u "string" ->
  items <> [] -> Forall (scalar_value name) items ->
  FIELD_TYPE_MAP name = Some t ->
  infer_list_element_type items = t /\ in_signed_range 8 t = true.
Proof.
  intros Hname Hne Hall Ht.
  assert (Hs : forallb is_scalar items = true).
  { apply (@forallb_Forall _ (scalar_value name) is_scalar); [|exact Hall].
    intros x Hx. destruct Hx; reflexivity. }
  unfold infer_list_element_type. rewrite Hs.
  destruct items as [|x items]; [congruence|]. cbn [negb andb].
  inversion Hall as [|? ? Hx Hr]; subst.
  destruct Hname as [-> | [-> | [-> | ->]]]; cbn in Ht; injection Ht as <-.
  - rewrite (@forallb_Forall _ (scalar_value (u "bool")) is_bool _);
      [split; reflexivity | | exact Hall].
    intros y Hy. remember (u "bool") as n eqn:E. destruct Hy; try discriminate.
    reflexivity.
  - assert (Ex : exists z, x = PInt z).
    { remember (u "i32") as n eqn:E. destruct Hx; try discriminate. eauto. }
    destruct Ex as (z & ->).
    rewrite (forallb_head_false is_bool (PInt z) items eq_refl).
    rewrite (@forallb_Forall _ (scalar_value (u "i32")) is_int _);
      [split; reflexivity | | exact Hall].
    intros y Hy. remember (u "i32") as n eqn:E. destruct Hy; try discriminate.
    reflexivity.
  - assert (Ex : exists b, x = PFloat b).
    { remember (u "double") as n eqn:E. destruct Hx; try discriminate. eauto. }
    destruct Ex as (b & ->).
    rewrite (forallb_head_false is_bool (PFloat b) items eq_refl).
    rewrite (forallb_head_false is_int (PFloat b) items eq_refl).
    rewrite (@forallb_Forall _ (scalar_value (u "double")) is_float _);
      [split; reflexivity | | exact Hall].
    intros y Hy. remember (u "double") as n eqn:E. destruct Hy; try discriminate.
    reflexivity.
  - assert (Ex : exists s, x = PStr s).
    { apply string_value_inv in Hx as (s & b & -> & _). eauto. }
    destruct Ex as (s & ->).
    rewrite (forallb_head_false is_bool (PStr s) items eq_refl).
    rewrite (forallb_head_false is_int (PStr s) items eq_refl).
    rewrite (forallb_head_false is_float (PStr s) items eq_refl).
    split; reflexivity.
Qed.

(** The values that hold no struct. *)
Lemma flat_value_codec (name : pystr) (v : pyval) :
  scalar_value name v
  \/ (name = u "list"
      /\ exists items, v = PList items /\ len items < 2 ^ 31 /\ uniform_scalars items)
  \/ (name = u "set"
      /\ exists items, v = PList items /\ len items < 2 ^ 31
                       /\ Forall (scalar_value (u "string")) items)
  \/ (name = u "map"
      /\ exists d, v = PDict d /\ len d < 2 ^ 31 /\ NoDup (map fst d)
                   /\ Forall (fun kv => scalar_value (u "string") (PStr (fst kv))
                                        /\ scalar_value (u "string") (snd kv)) d) ->
  value_codec_at py name v.
Proof.
  intros [H | [(-> & items & -> & Hn & Hu) | [(-> & items & -> & Hn & Hs)
                                           | (-> & d & -> & Hn & Hd & Hp)]]].
  - destruct (value_codec py H) as (t & vb & Ht & Hstop & Hrange & Hname & Hlen & Hw & Hr).
    exists t, vb. repeat split; try assumption.
    + intros fuel d buf Hv _ _ _ _. now apply Hw.
    + intros fuel rest Hf. destruct fuel as [|fuel]; [lia|]. apply Hr.
  - assert (Hempty : value_codec_at py (u "list") (PList [])).
    { apply (@sequence_codec py (u "list") [] [] TType.STRUCT);
        [now left | reflexivity | intros E; discriminate E | reflexivity
        | exact (eq_refl : (0 ?= 2 ^ 31) = Lt) | constructor]. }
    destruct Hu as [-> | (name & Hname & Hall)]; [exact Hempty|].
    destruct items as [|x items]; [exact Hempty|].
    destruct (scalar_items_codec py Hall) as (t & ibs & Ht & Hc).
    specialize (Ht ltac:(discriminate)).
    destruct (@infer_uniform name t (x :: items) Hname ltac:(discriminate) Hall Ht)
      as [Hi Hr].
    apply (@sequence_codec py (u "list") (x :: items) ibs t);
      [now left | intros _; exact Hi | intros E; discriminate E
      | exact Hr | exact Hn | exact Hc].
  - assert (Hi : infer_set_element_type items = TType.STRING).
    { unfold infer_set_element_type.
      rewrite (@forallb_Forall _ (scalar_value (u "string")) is_scalar _);
        [reflexivity | | exact Hs].
      intros x Hx. apply string_value_inv in Hx as (s & b & -> & _). reflexivity. }
    destruct (scalar_items_codec py Hs) as (t & ibs & Ht & Hc).
    assert (Hc' : Forall2 (item_codec py TType.STRING) items ibs).
    { destruct items as [|x items]; [inversion Hc; constructor|].
      specialize (Ht ltac:(discriminate)). cbn in Ht. injection Ht as <-. exact Hc. }
    apply (@sequence_codec py (u "set") items ibs TType.STRING);
      [now right | intros E; discriminate E | intros _; exact Hi
      | reflexivity | exact Hn | exact Hc'].
  - now apply map_codec.
Qed.

Lemma not_scalar_struct (fields : list pyval) (items : list pyval) :
  infer_list_element_type (struct_doc fields :: items) = TType.STRUCT
  /\ infer_set_element_type (struct_doc fields :: items) = TType.STRUCT.
Proof. split; reflexivity. Qed.

(** Every value of the class has a codec. *)
Lemma round_trip_value_codec (n : nat) : forall name v,
  round_trip_value n name v -> value_codec_at py name v.
Proof.
  induction n as [|n IH]; intros name v H; cbn [round_trip_value] in H.
  - destruct H as [H|[H|[H|[H|[]]]]]; apply flat_value_codec; auto.
  - destruct H as [H|[H|[H|[H|H]]]]; try (apply flat_value_codec; auto; fail).
    assert (Hfields : forall fields,
              Forall (fun f => exists id name' v',
                                 f = field_doc id name' v'
                                 /\ in_signed_range 16 id = true
                                 /\ round_trip_value n name' v') fields ->
              Forall (fun f => exists id name' v',
                                 f = field_doc id name' v'
                                 /\ in_signed_range 16 id = true
                                 /\ value_codec_at py name' v') fields).
    { intros fields Hf. eapply Forall_impl; [|exact Hf]. cbn beta.
      intros f (id & name' & v' & -> & Hid & Hv). eauto 8. }
    destruct H as [(-> & fields & -> & Hf) | (Hname & items & -> & Hne & Hn & Hitems)].
    + apply Hfields in Hf. now apply struct_codec in Hf.
    + assert (Hc : exists ibs, Forall2 (item_codec py TType.STRUCT) items ibs).
      { apply Forall_exists_Forall2. eapply Forall_impl; [|exact Hitems]. cbn beta.
        intros item (fields & -> & Hf). apply Hfields in Hf.
        now apply struct_codec in Hf. }
      destruct Hc as (ibs & Hc).
      destruct items as [|x items]; [congruence|].
      inversion Hitems as [|? ? (fields & -> & _) _]; subst.
      destruct (not_scalar_struct fields items) as [Hl Hs].
      apply (@sequence_codec py name (struct_doc fields :: items) ibs TType.STRUCT);
        [exact Hname | intros _; exact Hl | intros _; exact Hs
        | reflexivity | exact Hn | exact Hc].
Qed.

End ExtendedRoundTrip.

Section ExtendedReply.

Import Thrift TBinaryProtocol Encoder CustomResponseMessage MessageCodec.

Variable py : builtins.
Variable TCompactProtocol : TProtocol.
Variable ThriftMessage_read : bytes -> library_outcome.

Lemma depth_reply_message (name : pystr) (seqid : Z) (fields : list pyval) :
  depth (reply_message name seqid fields) = (2 + depth (PList fields))%nat.
Proof. unfold reply_message. cbn [depth fold_right snd]. lia. Qed.

(** A reply whose fields have codecs: the frame written, and what the
    decoder makes of it. *)
Lemma reply_frame_codec (name : pystr) (nameb : bytes) (seqid : Z)
      (fields : list pyval) :
  utf8_encode name = Ok nameb -> len nameb < 2 ^ 31 ->
  in_signed_range 32 seqid = true ->
  Forall (fun f => exists id name' v,
                     f = field_doc id name' v /\ in_signed_range 16 id = true
                     /\ value_codec_at py name' v) fields ->
  exists frame,
    (4 <= List.length frame)%nat
    /\ write_thrift_message py TCompactProtocol false
                            (reply_message name seqid fields) = Ok frame
    /\ decode_thrift_message ThriftMessage_read frame
       = Ok (CustomObject
               [ (u "method", PStr name);
                 (u "type", PStr (u "reply"));
                 (u "seqid", PInt seqid);
                 (u "header", PNone);
                 (u "reply", struct_doc fields);
                 (u "length", PInt (Z.of_N (len frame))) ]).
Proof.
  intros Hname Hlen Hseq Hfields.
  destruct (fields_codec_at Hfields) as (FB & HW & _ & HE).
  destruct (@pack_signed_in_range 4 (Z.of_N (len nameb)) (len_in_range nameb Hlen))
    as (lb & Hlb & _).
  destruct (@pack_signed_in_range 4 seqid Hseq) as (sb & Hsb & _).
  exists (([x80; x01; x00; x02] ++ lb ++ nameb ++ sb) ++ FB ++ [x00]).
  split; [|split].
  - rewrite !length_app. simpl List.length. lia.
  - unfold write_thrift_message.
    change (py_getitem (reply_message name seqid fields) (u "method"))
      with (Ok (PStr name)).
    change (py_getitem (reply_message name seqid fields) (u "type"))
      with (Ok (PStr (u "reply"))).
    change (py_getitem (reply_message name seqid fields) (u "seqid"))
      with (Ok (PInt seqid)).
    change (py_getitem (reply_message name seqid fields) (u "args"))
      with (Ok (PDict [ (u "fields", PList fields) ])).
    cbn [bind]. change (msg_type_map (PStr (u "reply"))) with (Ok TMessageType.REPLY).
    cbn [bind].
    change (writeMessageBegin protocol) with w_message_begin.
    change (fresh protocol) with (@nil byte).
    rewrite (write_reply_header name seqid Hname Hlb Hsb). cbn [bind truthy].
    change (py_getitem (PDict [ (u "fields", PList fields) ]) (u "fields"))
      with (Ok (PList fields)).
    cbn [bind]. rewrite depth_reply_message.
    replace (2 * (2 + depth (PList fields)))%nat
      with (S (S (2 * depth (PList fields) + 2)))%nat by lia.
    rewrite write_struct_unfold, HW by lia. cbn [bind].
    change (w_byte TType.STOP ?s) with (Ok (s ++ [x00])).
    cbn [bind]. change (writeMessageEnd protocol) with nop. unfold nop.
    cbn [bind]. change (getvalue protocol) with (fun b : bytes => b).
    cbv beta. now rewrite <- !app_assoc.
  - rewrite <- (app_assoc [x80; x01; x00; x02]).
    rewrite direct_reply. unfold custom, init.
    rewrite (app_assoc [x80; x01; x00; x02]).
    rewrite (reply_header_read name (FB ++ [x00]) seqid Hname Hlb Hsb).
    cbn [bind]. unfold _extract_reply.
    change (FB ++ [x00]) with (FB ++ x00 :: []).
    rewrite HE; [reflexivity|].
    unfold enough_fuel. rewrite !length_app. lia.
Qed.

(** X27.  The round trip of a reply holds beyond scalar fields: for structs nested
    within [nesting_bound], lists of uniform scalars, sets of strs, maps of
    strs to strs, and non-empty lists and sets of structs, none of which
    names its element, key or value type, the frame the binary protocol
    writes decodes to the same method, sequence id and fields. *)
Theorem extended_reply_roundtrip
        (n : nat) (name : pystr) (nameb : bytes) (seqid : Z) (fields : list pyval) :
  (n <= nesting_bound)%nat ->
  utf8_encode name = Ok nameb -> len nameb < 2 ^ 31 ->
  in_signed_range 32 seqid = true ->
  Forall (round_trip_field n) fields ->
  exists frame,
    write_thrift_message py TCompactProtocol false
                         (reply_message name seqid fields) = Ok frame
    /\ decode_thrift_message ThriftMessage_read frame
       = Ok (CustomObject
               [ (u "method", PStr name);
                 (u "type", PStr (u "reply"));
                 (u "seqid", PInt seqid);
                 (u "header", PNone);
                 (u "reply", PDict [ (u "fields", PList fields) ]);
                 (u "length", PInt (Z.of_N (len frame))) ]).
Proof.
  intros _ Hname Hlen Hseq Hfields.
  destruct (@reply_frame_codec name nameb seqid fields Hname Hlen Hseq)
    as (frame & _ & Hw & Hd).
  - eapply Forall_impl; [|exact Hfields]. cbn beta.
    intros f (id & name' & v & -> & Hid & Hv).
    exists id, name', v. repeat split; [exact Hid|].
    exact (@round_trip_value_codec py n name' v Hv).
  - exists frame. split; assumption.
Qed.

End ExtendedReply.

Section ExtendedReplyExample.

Import Thrift TBinaryProtocol Encoder CustomResponseMessage MessageCodec.

Lemma nested_fields_in_class : Forall (round_trip_field 2) nested_fields_example.
Proof.
  assert (Hstr : forall s b, utf8_encode s = Ok b -> len b < 2 ^ 31 ->
                             scalar_value (u "string") (PStr s))
    by (intros s b H1 H2; now apply sv_string with (b := b)).
  assert (Hbool : round_trip_field 0 (field_doc 1 (u "bool") (PBool true))).
  { exists 1%Z, (u "bool"), (PBool true). repeat split. left. constructor. }
  assert (Hinner : round_trip_field 1
            (field_doc 2 (u "struct")
               (struct_doc [ field_doc 1 (u "bool") (PBool true) ]))).
  { exists 2%Z, (u "struct"), (struct_doc [ field_doc 1 (u "bool") (PBool true) ]).
    repeat split. cbn [round_trip_value]. do 4 right. left.
    split; [reflexivity|]. eexists. split; [reflexivity|].
    constructor; [exact Hbool | constructor]. }
  assert (Hint : forall z, in_signed_range 32 z = true ->
                           scalar_value (u "i32") (PInt z))
    by (intros z Hz; now constructor).
  unfold nested_fields_example.
  constructor; [|constructor; [|constructor; [|constructor; [|constructor;
    [|constructor]]]]].
  - eexists _, _, _. split; [reflexivity|]. split; [reflexivity|].
    cbn [round_trip_value]. do 4 right. left.
    split; [reflexivity|]. eexists. split; [reflexivity|].
    constructor; [|constructor; [exact Hinner | constructor]].
    exists 1%Z, (u "i32"), (PInt 7). split; [reflexivity|]. split; [reflexivity|].
    left. now apply Hint.
  - eexists _, _, _. split; [reflexivity|]. split; [reflexivity|].
    cbn [round_trip_value]. right. left.
    split; [reflexivity|]. eexists. split; [reflexivity|]. split; [reflexivity|].
    right. exists (u "i32"). split; [auto|].
    constructor; [now apply Hint | constructor; [now apply Hint | constructor]].
  - eexists _, _, _. split; [reflexivity|]. split; [reflexivity|].
    cbn [round_trip_value]. do 3 right. left.
    split; [reflexivity|]. eexists. split; [reflexivity|]. split; [reflexivity|].
    split; [constructor; [intros [] | constructor]|].
    constructor; [|constructor]. cbn [fst snd].
    split; [apply Hstr with (b := [x6b]) | apply Hstr with (b := [x76])];
      reflexivity.
  - eexists _, _, _. split; [reflexivity|]. split; [reflexivity|].
    cbn [round_trip_value]. do 2 right. left.
    split; [reflexivity|]. eexists. split; [reflexivity|]. split; [reflexivity|].
    constructor; [|constructor]. apply Hstr with (b := [x61]); reflexivity.
  - eexists _, _, _. split; [reflexivity|]. split; [reflexivity|].
    cbn [round_trip_value]. do 4 right. right.
    split; [now left|]. eexists. split; [reflexivity|].
    split; [discriminate|]. split; [reflexivity|].
    constructor; [|constructor]. exists []. split; [reflexivity | constructor].
Qed.

Lemma extended_reply_roundtrip_witness :
  exists frame,
    write_thrift_message refusing_builtins protocol false
                         (reply_message (u "m") 1 nested_fields_example) = Ok frame
    /\ decode_thrift_message no_library frame
       = Ok (CustomObject
               [ (u "method", PStr (u "m"));
                 (u "type", PStr (u "reply"));
                 (u "seqid", PInt 1);
                 (u "header", PNone);
                 (u "reply", PDict [ (u "fields", PList nested_fields_example) ]);
                 (u "length", PInt (Z.of_N (len frame))) ]).
Proof.
  apply (@extended_reply_roundtrip refusing_builtins protocol no_library 2
                                   (u "m") [x6d] 1 nested_fields_example);
    [unfold nesting_bound; lia | reflexivity | reflexivity | reflexivity
    | exact nested_fields_in_class].
Defined.

End ExtendedReplyExample.

(* ===================================================================== *)
(** ** From [encode_data] to [decode] *)
(* ===================================================================== *)

Section EndToEnd.

Import FrameLocator EnvelopeCodec Thrift TBinaryProtocol Encoder MessageCodec.

Variable py : builtins.
Variable TCompactProtocol : TProtocol.
Variable ThriftMessage_read : bytes -> library_outcome.

(** [parse_data] on a nine-byte prefix with the two lengths, a header block
    and a message. *)
Lemma parse_data_framed (markers : list bytes) (h t : bytes) :
  len h + len t + 5 < 2 ^ 32 -> 0 < len h + len t ->
  parse_data markers ((be_bytes 4 (len h + len t + 5) ++ [x00]
                       ++ be_bytes 4 (len h)) ++ h ++ t)
  = Ok ((be_bytes 4 (len h + len t + 5) ++ [x00] ++ be_bytes 4 (len h)) ++ h, t).
Proof.
  intros Hb Hpos.
  set (F := be_bytes 4 (len h + len t + 5)). set (L := be_bytes 4 (len h)).
  set (data := (F ++ [x00] ++ L) ++ h ++ t).
  assert (LP : len (F ++ [x00] ++ L) = 9)
    by (unfold F, L; rewrite !len_app, !len_be_bytes; reflexivity).
  assert (El : len data = 9 + len h + len t)
    by (unfold data; rewrite !len_app in *; lia).
  assert (E1 : slice 0 4 data = F).
  { unfold data. rewrite <- !app_assoc.
    apply (@slice_at _ [] F); [reflexivity | unfold F; now rewrite len_be_bytes]. }
  assert (E2 : slice 4 5 data = [x00]).
  { unfold data. rewrite <- !app_assoc. rewrite app_assoc.
    apply (@slice_at _ F [x00]); unfold F; rewrite ?len_be_bytes; reflexivity. }
  assert (E3 : slice 5 9 data = L).
  { unfold data. rewrite <- !app_assoc.
    rewrite app_assoc, (app_assoc _ L). rewrite <- (app_assoc F).
    apply (@slice_at _ (F ++ [x00]) L);
      rewrite ?len_app; unfold F, L; rewrite !len_be_bytes; reflexivity. }
  unfold parse_data, structural_attempt, frugal_sane, frame_size, version,
    header_length.
  assert (VF : be_value F = len h + len t + 5)
    by (unfold F; apply be_value_be_bytes;
        change (256 ^ N.of_nat 4) with (2 ^ 32); lia).
  assert (VL : be_value L = len h)
    by (unfold L; apply be_value_be_bytes;
        change (256 ^ N.of_nat 4) with (2 ^ 32); lia).
  rewrite E1, E2, E3, !VF, !VL.
  replace (9 <? len data) with true by (symmetry; apply N.ltb_lt; lia).
  replace (0 <? len h + len t + 5) with true by (symmetry; apply N.ltb_lt; lia).
  replace (len h + len t + 5 <? len data) with true
    by (symmetry; apply N.ltb_lt; lia).
  replace (len h <? len h + len t + 5) with true by (symmetry; apply N.ltb_lt; lia).
  change (be_value [x00]) with 0.
  change (0 <=? 0) with true. change (0 <=? 1) with true. cbn [andb].
  replace (9 + len h) with (len ((F ++ [x00] ++ L) ++ h))
    by (rewrite len_app; lia).
  unfold data. rewrite (app_assoc _ h t).
  now rewrite take_app_exact, drop_app_exact.
Qed.

(** X28.  A document with plain headers and a reply of the extended class, its
    structs nested within [nesting_bound], goes through [encode_data] and
    [decode] unchanged, apart from the envelope the decoder adds: the
    metadata, and in the message the type, the header and the length. *)
Theorem encode_decode_roundtrip
        (n : nat) (hs : pydict) (name : pystr) (nameb : bytes) (seqid : Z)
        (fields : list pyval) (frame : bytes) :
  (n <= nesting_bound)%nat ->
  Forall plain_pair hs -> NoDup (map fst hs) ->
  utf8_encode name = Ok nameb -> len nameb < 2 ^ 31 ->
  in_signed_range 32 seqid = true ->
  Forall (round_trip_field n) fields ->
  write_thrift_message py TCompactProtocol false
                       (reply_message name seqid fields) = Ok frame ->
  len (wire hs) + len frame + 5 < 2 ^ 32 ->
  exists message,
    encode_data py TCompactProtocol false
                (PDict [ (u "headers", PDict hs);
                         (u "thrift", reply_message name seqid fields) ])
    = Ok message
    /\ decode ThriftMessage_read message
       = Ok [ (u "metadata",
               PDict [ (u "message_length", PInt (Z.of_N (len message - 4)));
                       (u "version", PInt 0);
                       (u "header_length", PInt (Z.of_N (len (wire hs)))) ]);
              (u "headers", PDict hs);
              (u "thrift",
               PDict [ (u "method", PStr name);
                       (u "type", PStr (u "reply"));
                       (u "seqid", PInt seqid);
                       (u "header", PNone);
                       (u "reply", PDict [ (u "fields", PList fields) ]);
                       (u "length", PInt (Z.of_N (len frame))) ]) ].
Proof.
  intros _ Hp Hn Hname Hlen Hseq Hfields Hw Hsize.
  destruct (@reply_frame_codec py TCompactProtocol ThriftMessage_read
              name nameb seqid fields Hname Hlen Hseq)
    as (frame' & L4 & Hw' & Hd).
  { eapply Forall_impl; [|exact Hfields]. cbn beta.
    intros f (id & name' & v & -> & Hid & Hv).
    exists id, name', v. repeat split; [exact Hid|].
    exact (@round_trip_value_codec py n name' v Hv). }
  assert (frame' = frame) by congruence. subst frame'.
  set (P := be_bytes 4 (len (wire hs) + len frame + 5) ++ [x00]
            ++ be_bytes 4 (len (wire hs))).
  exists (P ++ wire hs ++ frame).
  assert (LP : len P = 9) by (unfold P; rewrite !len_app, !len_be_bytes; reflexivity).
  split.
  - unfold encode_data.
    change (py_getitem (PDict _) (u "headers")) with (Ok (PDict hs)).
    cbn [bind]. rewrite encode_headers_plain by (assumption || lia). cbn [bind].
    change (py_getitem (PDict _) (u "thrift"))
      with (Ok (reply_message name seqid fields)).
    cbn [bind]. rewrite Hw. cbn [bind].
    rewrite frame_prefix_Ok by lia. reflexivity.
  - replace (len (P ++ wire hs ++ frame) - 4)
      with (len (wire hs) + len frame + 5) by (rewrite !len_app; lia).
    assert (Hparse : parse_data default_markers (P ++ wire hs ++ frame)
                     = Ok (P ++ wire hs, frame)).
    { apply parse_data_framed; [exact Hsize|]. unfold len in *. lia. }
    assert (Hheaders : decode_headers (P ++ wire hs)
              = Ok [ (u "metadata",
                      PDict [ (u "message_length",
                               PInt (Z.of_N (len (wire hs) + len frame + 5)));
                              (u "version", PInt 0);
                              (u "header_length", PInt (Z.of_N (len (wire hs)))) ]);
                     (u "headers", PDict hs) ]).
    { unfold P. rewrite decode_headers_wire by (assumption || lia).
      now rewrite (fold_set_distinct hs []). }
    rewrite (decode_custom_document ThriftMessage_read _ Hparse Hheaders Hd).
    reflexivity.
Qed.

End EndToEnd.

Section EndToEndExample.

Import FrameLocator EnvelopeCodec Thrift TBinaryProtocol Encoder MessageCodec.

Lemma encode_decode_roundtrip_witness :
  exists frame,
    write_thrift_message refusing_builtins protocol false
                         (reply_message (u "m") 1 nested_fields_example)
    = Ok frame
    /\ exists message,
         encode_data refusing_builtins protocol false
                     (PDict [ (u "headers", PDict [ (u "a", PStr (u "b")) ]);
                              (u "thrift",
                               reply_message (u "m") 1 nested_fields_example) ])
         = Ok message
         /\ decode no_library message
            = Ok [ (u "metadata",
                    PDict [ (u "message_length", PInt (Z.of_N (len message - 4)));
                            (u "version", PInt 0);
                            (u "header_length", PInt 10) ]);
                   (u "headers", PDict [ (u "a", PStr (u "b")) ]);
                   (u "thrift",
                    PDict [ (u "method", PStr (u "m"));
                            (u "type", PStr (u "reply"));
                            (u "seqid", PInt 1);
                            (u "header", PNone);
                            (u "reply",
                             PDict [ (u "fields", PList nested_fields_example) ]);
                            (u "length", PInt (Z.of_N (len frame))) ]) ].
Proof.
  eexists. split; [reflexivity|].
  apply (@encode_decode_roundtrip refusing_builtins protocol no_library 2
           [ (u "a", PStr (u "b")) ] (u "m") [x6d] 1 nested_fields_example).
  - unfold nesting_bound. lia.
  - constructor; [|constructor].
    exists (u "b"). repeat split; discriminate.
  - constructor; [intros [] | constructor].
  - reflexivity.
  - reflexivity.
  - reflexivity.
  - exact nested_fields_in_class.
  - reflexivity.
  - vm_compute. reflexivity.
Defined.

End EndToEndExample.

(* ===================================================================== *)
(** ** Containers of a type the readers do not know *)
(* ===================================================================== *)

Section UnknownElements.

Import Thrift CustomResponseMessage.

Lemma read_elems_unknown (fuel : nat) (sk_fuel : nat) (et : Z) :
  supported_type et = false ->
  forall n p acc,
    read_elems (read_typed (S fuel)) (skip (S sk_fuel)) et n p acc
    = Ok (PList (acc ++ repeat (note (u "Unknown element type "
                                        ++ _get_type_name et)) n), p).
Proof.
  intros Hu. induction n as [|n IH]; intros p acc; cbn [read_elems repeat].
  - now rewrite app_nil_r.
  - rewrite read_typed_unknown by exact Hu. cbn [bind].
    rewrite skip_unknown by exact Hu. cbn [bind].
    rewrite IH, <- app_assoc. reflexivity.
Qed.

(** X29.  A list or a set whose element type is none of the eleven is decoded
    without reading anything behind its header: the result holds as many
    notes as the header announces, and the bytes that follow the header are
    left for what comes next. *)
Theorem unknown_element_list_reads_nothing
        (fuel : nat) (et size : Z) (p rest : bytes) :
  supported_type et = false ->
  readListBegin p = Ok (et, size, rest) ->
  let notes :=
    PList (repeat (PDict [ (u "note",
                            PStr (u "Unknown element type unknown-"
                                    ++ str_of_Z et)%list) ])
                  (Z.to_nat size)) in
  read_typed (S (S fuel)) TType.LIST p = Ok (Some notes, rest)
  /\ read_typed (S (S fuel)) TType.SET p = Ok (Some notes, rest).
Proof.
  intros Hu Hb notes. subst notes.
  assert (E : note (u "Unknown element type " ++ _get_type_name et)
              = PDict [ (u "note",
                         PStr (u "Unknown element type unknown-"
                                 ++ str_of_Z et)%list) ]).
  { unfold note. rewrite get_type_name_unknown by exact Hu.
    now rewrite app_assoc. }
  split.
  - cbn [read_typed]. type_tests TType.LIST. rewrite Hb. cbn [bind].
    rewrite (@read_elems_unknown fuel fuel et Hu). now rewrite E.
  - cbn [read_typed]. type_tests TType.SET. rewrite Hb. cbn [bind].
    rewrite (@read_elems_unknown fuel fuel et Hu). now rewrite E.
Qed.

(** A header that announces three elements of the type 1, with one byte
    behind it. *)
Lemma unknown_element_list_reads_nothing_witness :
  let notes :=
    PList (repeat (PDict [ (u "note",
                            PStr (u "Unknown element type unknown-1")) ]) 3) in
  read_typed 2 TType.LIST [x01; x00; x00; x00; x03; x7f] = Ok (Some notes, [x7f])
  /\ read_typed 2 TType.SET [x01; x00; x00; x00; x03; x7f] = Ok (Some notes, [x7f]).
Proof.
  apply (@unknown_element_list_reads_nothing 0 1%Z 3%Z
           [x01; x00; x00; x00; x03; x7f] [x7f]); reflexivity.
Defined.

End UnknownElements.
